(** * WinfraaEnquiryApp: a shallow embedding of the client-side logic

    The development follows the TypeScript sources of the enquiry manager:
    - [JsString]           : the JavaScript string primitives the code calls
                             ([trim], [toLowerCase], [includes], the three
                             placeholder regular expressions);
    - [AIEmailService]     : [validateResponse] (services/aiEmailService.ts);
    - [Types]              : the records of types/index.ts;
    - [Postgrest]          : the hosted backend as the queries of the code
                             see it (tables, filters, order, range, single);
    - [SupabaseService]    : services/supabaseService.ts;
    - [EnquiryListScreen], [EnquiryDetailScreen] : the search and the status
                             change of the two screens;
    - [ExportUtils]        : utils/index.ts;
    - [NotificationService]: services/notificationService.ts.
    The second part states and proves the properties, module by module.

    Strings are sequences of code units; the model restricts code units to
    8 bits (Rocq's [ascii]), so [String.length] is JavaScript's [.length]. *)

From Stdlib Require Import ZArith String Ascii List Lia Bool.
From Stdlib Require Import DecimalString Sorted.
From stdpp Require Import base option list gmap strings.

Local Open Scope string_scope.

(** ** JavaScript string primitives *)
Module JsString.

(** [if (s)] on a string: the empty string is the only falsy one. *)
Definition truthy (s : string) : bool :=
  match s with
  | EmptyString => false
  | String _ _ => true
  end.

(** [a || b] on strings. *)
Definition or_else (a b : string) : string :=
  if truthy a then a else b.

(** White space as [String.prototype.trim] sees it (tab, line feed,
    vertical tab, form feed, carriage return, space, no-break space). *)
Definition is_white_space (c : ascii) : bool :=
  let n := nat_of_ascii c in
  (Nat.eqb n 9 || Nat.eqb n 10 || Nat.eqb n 11 || Nat.eqb n 12
   || Nat.eqb n 13 || Nat.eqb n 32 || Nat.eqb n 160)%bool.

(** Line terminators: the characters the regular expression [.] refuses. *)
Definition is_line_terminator (c : ascii) : bool :=
  let n := nat_of_ascii c in
  (Nat.eqb n 10 || Nat.eqb n 13)%bool.

Fixpoint trimStart (s : string) : string :=
  match s with
  | EmptyString => EmptyString
  | String c s' => if is_white_space c then trimStart s' else s
  end.

Fixpoint trimEnd (s : string) : string :=
  match s with
  | EmptyString => EmptyString
  | String c s' =>
      match trimEnd s' with
      | EmptyString => if is_white_space c then EmptyString
                       else String c EmptyString
      | t => String c t
      end
  end.

Definition trim (s : string) : string := trimEnd (trimStart s).

(** Lower case of one code unit: A to Z, and the capital letters of the
    upper half of the 8-bit range (192 to 222, the sign 215 apart). *)
Definition lower_char (c : ascii) : ascii :=
  let n := nat_of_ascii c in
  if (Nat.leb 65 n && Nat.leb n 90)%bool then ascii_of_nat (n + 32)
  else if (Nat.leb 192 n && Nat.leb n 222 && negb (Nat.eqb n 215))%bool
       then ascii_of_nat (n + 32)
       else c.

Fixpoint toLowerCase (s : string) : string :=
  match s with
  | EmptyString => EmptyString
  | String c s' => String (lower_char c) (toLowerCase s')
  end.

(** [s.startsWith(p)] *)
Fixpoint startsWith (p s : string) : bool :=
  match p, s with
  | EmptyString, _ => true
  | String _ _, EmptyString => false
  | String a p', String b s' => if Ascii.eqb a b then startsWith p' s' else false
  end.

(** [s.includes(t)] *)
Fixpoint includes (s t : string) : bool :=
  if startsWith t s then true
  else match s with
       | EmptyString => false
       | String _ s' => includes s' t
       end.

(** The rest of [s] after the prefix [p], when [s] starts with [p]. *)
Fixpoint after_prefix (p s : string) : option string :=
  match p, s with
  | EmptyString, _ => Some s
  | String _ _, EmptyString => None
  | String a p', String b s' => if Ascii.eqb a b then after_prefix p' s' else None
  end.

(** The tail of a pattern [/open.*?close/] once [open] is consumed: the
    lazy [.*?] tries [close] first and otherwise consumes one character
    that is not a line terminator. *)
Fixpoint lazy_dots_then (close s : string) : bool :=
  if startsWith close s then true
  else match s with
       | EmptyString => false
       | String c s' =>
           if is_line_terminator c then false else lazy_dots_then close s'
       end.

(** [/open.*?close/.test(s)] for literal [open] and [close]: the matcher
    tries every start position from the left. *)
Fixpoint regex_test (open close s : string) : bool :=
  match after_prefix open s with
  | Some rest => lazy_dots_then close rest
  | None => false
  end
  || match s with
     | EmptyString => false
     | String _ s' => regex_test open close s'
     end.

(** What the pattern [/open.*?close/] denotes: [open], then characters of
    one line, then [close], somewhere in the string. *)
Definition one_line (s : string) : Prop :=
  Forall (fun c => is_line_terminator c = false) (list_ascii_of_string s).

Definition delimited (open close s : string) : Prop :=
  exists pre mid post,
    s = String.append pre (String.append open
          (String.append mid (String.append close post)))
    /\ one_line mid.

End JsString.

(** ** services/aiEmailService.ts *)
Module AIEmailService.
Import JsString.

Record ValidationResult := mkValidation {
  isValid : bool;
  message : string
}.

(** The three regular expressions of [placeholderPatterns], each as its
    literal opener and closer around [.*?]. *)
Definition placeholderPatterns : list (string * string) :=
  [ ("[", "]"); ("{", "}"); ("{{", "}}") ].

(** The [for (const pattern of placeholderPatterns)] loop: [true] as soon
    as one pattern matches. *)
Fixpoint any_pattern (ps : list (string * string)) (content : string) : bool :=
  match ps with
  | [] => false
  | (o, c) :: ps' =>
      if regex_test o c content then true else any_pattern ps' content
  end.

Definition validateResponse (content : string) : ValidationResult :=
  if (negb (truthy content) || Nat.eqb (String.length (trim content)) 0)%bool then
    mkValidation false "Generated content is empty"
  else if Nat.ltb (String.length (trim content)) 50 then
    mkValidation false "Generated content is too short"
  else if Nat.ltb 5000 (String.length content) then
    mkValidation false "Generated content is too long"
  else if any_pattern placeholderPatterns content then
    mkValidation false "Generated content contains unresolved placeholders"
  else
    mkValidation true "Content validation passed".

(** A bracket or brace placeholder as the three patterns see it: an
    opener and, later on the same line, its closer. *)
Definition contains_placeholder (content : string) : Prop :=
  delimited "[" "]" content \/ delimited "{" "}" content
  \/ delimited "{{" "}}" content.

End AIEmailService.

(** ** types/index.ts *)
Module Types.

Inductive EnquiryStatus :=
  | st_new | st_in_progress | st_quoted | st_won | st_lost | st_on_hold.

#[global] Instance EnquiryStatus_eq_dec : EqDecision EnquiryStatus.
Proof. solve_decision. Defined.

(** The string each status is at run time. *)
Definition status_text (s : EnquiryStatus) : string :=
  match s with
  | st_new => "new"
  | st_in_progress => "in_progress"
  | st_quoted => "quoted"
  | st_won => "won"
  | st_lost => "lost"
  | st_on_hold => "on_hold"
  end.

Record Company := mkCompany {
  company_id_ : string;
  company_name_ : string;
  company_address : string;
  company_industry : string;
  company_website : option string;
  company_notes : option string;
  company_owner : string;
  company_created_at : string;
  company_updated_at : string
}.

Record Contact := mkContact {
  contact_id_ : string;
  contact_company_id : string;
  contact_name_ : string;
  contact_designation : string;
  contact_phone_ : option string;
  contact_email_ : option string;
  contact_is_primary : bool;
  contact_notes : option string;
  contact_created_at : string
}.

(** [estimated_value] is a JavaScript number; the model keeps integral
    amounts. *)
Record Enquiry := mkEnquiry {
  id : string;
  company_id : string;
  contact_id : option string;
  enquiry_date : string;
  status : EnquiryStatus;
  product_interest : string;
  estimated_value : option Z;
  notes : option string;
  next_follow_up : option string;
  owner : string;
  created_at : string;
  updated_at : string
}.

Record Reminder := mkReminder {
  reminder_id : string;
  reminder_enquiry_id : string;
  reminder_date : string;
  reminder_title : string;
  reminder_description : string;
  is_completed : bool;
  reminder_created_at : string
}.

(** [EnquiryWithRelations extends Enquiry]: the row and its two optional
    embedded relations. *)
Record EnquiryWithRelations := mkWithRelations {
  base : Enquiry;
  company : option Company;
  contact : option Contact
}.

Record EnquiryFilterOptions := mkFilters {
  f_status : option (list EnquiryStatus);
  f_owner : option string;
  f_dateFrom : option string;
  f_dateTo : option string;
  f_productInterest : option string;
  f_companyId : option string;
  f_searchTerm : option string
}.

Record ExportEnquiryData := mkExport {
  x_company_name : string;
  x_contact_name : option string;
  x_contact_email : option string;
  x_contact_phone : option string;
  x_status : EnquiryStatus;
  x_product_interest : string;
  x_estimated_value : option Z;
  x_enquiry_date : string;
  x_next_follow_up : option string;
  x_notes : option string;
  x_owner : string
}.

(** [Partial<Enquiry>]: every property may be absent. *)
Record PartialEnquiry := mkPartial {
  p_id : option string;
  p_company_id : option string;
  p_contact_id : option string;
  p_enquiry_date : option string;
  p_status : option EnquiryStatus;
  p_product_interest : option string;
  p_estimated_value : option Z;
  p_notes : option string;
  p_next_follow_up : option string;
  p_owner : option string;
  p_created_at : option string;
  p_updated_at : option string
}.

(** An enquiry with its status replaced and every other property kept. *)
Definition with_status (s : EnquiryStatus) (e : Enquiry) : Enquiry :=
  mkEnquiry (id e) (company_id e) (contact_id e) (enquiry_date e) s
            (product_interest e) (estimated_value e) (notes e)
            (next_follow_up e) (owner e) (created_at e) (updated_at e).

(** The object literal [{ status: newStatus }]. *)
Definition only_status (s : EnquiryStatus) : PartialEnquiry :=
  mkPartial None None None None (Some s) None None None None None None None.

Record NotificationData := mkData {
  d_enquiry_id : option string;
  d_reminder_id : option string;
  d_screen : option string
}.

Record NotificationPayload := mkPayload {
  n_title : string;
  n_body : string;
  n_data : option NotificationData
}.

End Types.

(** ** The hosted backend, as the client library presents it *)
Module Postgrest.
Import JsString Types.

Record PostgrestError := mkError {
  code : string;
  error_message : string;
  (** whether [err instanceof Error] holds for the thrown object *)
  instanceof_Error : bool
}.

(** What an awaited query resolves to: [{ data, error }] with exactly one
    of the two set. *)
Inductive Response (T : Type) :=
  | Success (data : T)
  | Failure (error : PostgrestError).
Arguments Success {T} data.
Arguments Failure {T} error.

Definition data_of {T} (r : Response T) : option T :=
  match r with Success d => Some d | Failure _ => None end.

Definition error_of {T} (r : Response T) : option PostgrestError :=
  match r with Success _ => None | Failure e => Some e end.

Record Database := mkDb {
  companies : list Company;
  contacts : list Contact;
  enquiries : list Enquiry;
  reminders : list Reminder
}.

(** The requests the service issues. *)
Inductive Request :=
  | SelectCompany (id : string)
  | SelectContact (id : string)
  | SelectEnquiry (id : string)
  | SelectEnquiries (filters : option EnquiryFilterOptions) (from to : Z)
  | UpdateEnquiry (id : string) (updates : PartialEnquiry).

(** A backend: its tables, and the requests it rejects (network failure,
    permission, constraint), each with the error it answers. *)
Record Server := mkServer {
  db : Database;
  rejects : Request -> option PostgrestError
}.

(** The error of [.single()] when the result is not exactly one row. *)
Definition PGRST116 : PostgrestError :=
  mkError "PGRST116" "JSON object requested, multiple (or no) rows returned" false.

(** [.single()] *)
Definition single {T} (rows : list T) : Response T :=
  match rows with
  | [r] => Success r
  | _ => Failure PGRST116
  end.

(** [.eq('id', id)] on each table. *)
Definition company_by_id (d : Database) (i : string) : list Company :=
  filter (fun c => company_id_ c = i) (companies d).

Definition contact_by_id (d : Database) (i : string) : list Contact :=
  filter (fun c => contact_id_ c = i) (contacts d).

Definition enquiry_by_id (d : Database) (i : string) : list Enquiry :=
  filter (fun e => id e = i) (enquiries d).

(** The embedded select: every column of the enquiry, with the company and
    the contact rows its foreign keys reference. *)
Definition with_relations (d : Database) (e : Enquiry) : EnquiryWithRelations :=
  mkWithRelations e
    (head (company_by_id d (company_id e)))
    (match contact_id e with
     | Some c => head (contact_by_id d c)
     | None => None
     end).

(** [.order('enquiry_date', { ascending: false })]: dates are ISO strings,
    compared as text. The query names no second key: of the orders the
    backend may give to rows of one date, the model takes their table
    order. *)
Fixpoint insert_desc (e : Enquiry) (l : list Enquiry) : list Enquiry :=
  match l with
  | [] => [e]
  | x :: l' =>
      if String.ltb (enquiry_date e) (enquiry_date x) then x :: insert_desc e l'
      else e :: l
  end.

Definition order_desc (l : list Enquiry) : list Enquiry :=
  foldr insert_desc [] l.

(** What the order promises: no row is older than the row after it. *)
Definition newest_first (l : list Enquiry) : Prop :=
  Sorted (fun a b => String.ltb (enquiry_date a) (enquiry_date b) = false) l.

(** [.range(from, to)]: rows [from .. to], both included. *)
Definition range {T} (from to : Z) (l : list T) : list T :=
  take (Z.to_nat (to - from + 1)) (drop (Z.to_nat from) l).

(** The pattern of an [ilike] filter as the backend reads it. PostgREST
    takes [*] for [%]; PostgreSQL then reads [%] as any text, [_] as any one
    character, and a backslash as making the character after it stand for
    itself. *)
Inductive LikeToken :=
  | AnyText
  | AnyChar
  | Literal (c : ascii).

Fixpoint star2percent (pattern : string) : string :=
  match pattern with
  | EmptyString => EmptyString
  | String c p => String (if Ascii.eqb c "*" then "%"%char else c) (star2percent p)
  end.

(** [escaped] says that the character before was a backslash; a pattern
    that ends in one is refused by the backend ([None]). *)
Fixpoint like_tokens (escaped : bool) (pattern : string) : option (list LikeToken) :=
  match pattern with
  | EmptyString => if escaped then None else Some []
  | String c p =>
      if escaped then option_map (cons (Literal c)) (like_tokens false p)
      else if Ascii.eqb c "\" then like_tokens true p
      else option_map
             (cons (if Ascii.eqb c "%" then AnyText
                    else if Ascii.eqb c "_" then AnyChar
                    else Literal c))
             (like_tokens false p)
  end.

(** The whole text matches the pattern. *)
Fixpoint like_match (pattern : list LikeToken) : string -> bool :=
  match pattern with
  | [] => fun text => match text with EmptyString => true | _ => false end
  | Literal c :: rest =>
      fun text =>
        match text with
        | String d t => Ascii.eqb c d && like_match rest t
        | EmptyString => false
        end
  | AnyChar :: rest =>
      fun text =>
        match text with
        | String _ t => like_match rest t
        | EmptyString => false
        end
  | AnyText :: rest =>
      fix skip (text : string) : bool :=
        like_match rest text
        || match text with
           | String _ t => skip t
           | EmptyString => false
           end
  end.

(** [column ILIKE pattern]: both sides in lower case. *)
Definition ilike (column pattern : string) : bool :=
  match like_tokens false (toLowerCase (star2percent pattern)) with
  | Some tokens => like_match tokens (toLowerCase column)
  | None => false
  end.

(** [.ilike(column, `%${s}%`)]: the text [s] goes into the pattern as it
    is, so the pattern characters in it keep their meaning. *)
Definition ilike_contains (column s : string) : bool :=
  ilike column ("%" +:+ s +:+ "%").


(** The chain of filters [getEnquiries] adds to its query; a filter is added
    only when its option is truthy. *)
Definition satisfies (filters : option EnquiryFilterOptions) (e : Enquiry) : bool :=
  match filters with
  | None => true
  | Some f =>
      (match f_status f with
       | Some (s :: l) => bool_decide (status e ∈ s :: l)
       | _ => true
       end)
      && (match f_owner f with
          | Some o => if truthy o then bool_decide (owner e = o) else true
          | None => true
          end)
      && (match f_dateFrom f with
          | Some d => if truthy d then String.leb d (enquiry_date e) else true
          | None => true
          end)
      && (match f_dateTo f with
          | Some d => if truthy d then String.leb (enquiry_date e) d else true
          | None => true
          end)
      && (match f_productInterest f with
          | Some p => if truthy p then ilike_contains (product_interest e) p else true
          | None => true
          end)
      && (match f_companyId f with
          | Some c => if truthy c then bool_decide (company_id e = c) else true
          | None => true
          end)
  end.

(** [.update(updates)] on one row: the properties present in [updates]
    replace the row's, the others stay. *)
Definition apply_updates (u : PartialEnquiry) (e : Enquiry) : Enquiry :=
  mkEnquiry
    (default (id e) (p_id u))
    (default (company_id e) (p_company_id u))
    (match p_contact_id u with Some c => Some c | None => contact_id e end)
    (default (enquiry_date e) (p_enquiry_date u))
    (default (status e) (p_status u))
    (default (product_interest e) (p_product_interest u))
    (match p_estimated_value u with Some v => Some v | None => estimated_value e end)
    (match p_notes u with Some v => Some v | None => notes e end)
    (match p_next_follow_up u with Some v => Some v | None => next_follow_up e end)
    (default (owner e) (p_owner u))
    (default (created_at e) (p_created_at u))
    (default (updated_at e) (p_updated_at u)).

Definition update_rows (i : string) (u : PartialEnquiry) (l : list Enquiry) : list Enquiry :=
  map (fun e => if bool_decide (id e = i) then apply_updates u e else e) l.

Definition set_enquiries (d : Database) (l : list Enquiry) : Database :=
  mkDb (companies d) (contacts d) l (reminders d).

(** One request against the backend: the response, and the tables after it.
    A rejected request changes nothing; an update answered with an error
    (not exactly one row) is rolled back. *)
Definition select_company (s : Server) (i : string) : Response Company :=
  match rejects s (SelectCompany i) with
  | Some e => Failure e
  | None => single (company_by_id (db s) i)
  end.

Definition select_contact (s : Server) (i : string) : Response Contact :=
  match rejects s (SelectContact i) with
  | Some e => Failure e
  | None => single (contact_by_id (db s) i)
  end.

Definition select_enquiry (s : Server) (i : string) : Response EnquiryWithRelations :=
  match rejects s (SelectEnquiry i) with
  | Some e => Failure e
  | None => single (map (with_relations (db s)) (enquiry_by_id (db s) i))
  end.

Definition select_enquiries (s : Server) (filters : option EnquiryFilterOptions)
    (from to : Z) : Response (list EnquiryWithRelations) :=
  match rejects s (SelectEnquiries filters from to) with
  | Some e => Failure e
  | None =>
      Success (map (with_relations (db s))
                 (range from to (order_desc (filter (fun e => satisfies filters e = true)
                                                    (enquiries (db s))))))
  end.

Definition update_enquiry (s : Server) (i : string) (u : PartialEnquiry)
    : Response Enquiry * Server :=
  match rejects s (UpdateEnquiry i u) with
  | Some e => (Failure e, s)
  | None =>
      match enquiry_by_id (db s) i with
      | [e] => (Success (apply_updates u e),
                mkServer (set_enquiries (db s) (update_rows i u (enquiries (db s))))
                         (rejects s))
      | _ => (Failure PGRST116, s)
      end
  end.

End Postgrest.

(** ** The console *)
Module Console.

Inductive Level := level_error | level_warn | level_log.

Record LogEntry := mkLog {
  level : Level;
  text : string;
  detail : option string
}.

End Console.

(** ** services/supabaseService.ts *)
Module SupabaseService.
Import JsString Types Postgrest Console.

(** How an awaited call ends. *)
Inductive Outcome (A : Type) :=
  | Resolved (a : A)
  | Rejected (e : PostgrestError).
Arguments Resolved {A} a.
Arguments Rejected {A} e.

Record World := mkWorld {
  server : Server;
  console : list LogEntry
}.

(** An [async] method: it runs against the backend and the console and
    resolves or rejects. *)
Definition Async (A : Type) : Type := World -> Outcome A * World.

Definition ret {A} (a : A) : Async A := fun w => (Resolved a, w).

Definition throw {A} (e : PostgrestError) : Async A := fun w => (Rejected e, w).

Definition bind {A B} (m : Async A) (k : A -> Async B) : Async B :=
  fun w =>
    match m w with
    | (Resolved a, w') => k a w'
    | (Rejected e, w') => (Rejected e, w')
    end.

#[global] Instance Async_ret : MRet Async := @ret.
#[global] Instance Async_bind : MBind Async := fun A B k m => bind m k.

(** [try { body } catch (error) { handler }] *)
Definition try_catch {A} (body : Async A) (handler : PostgrestError -> Async A) : Async A :=
  fun w =>
    match body w with
    | (Resolved a, w') => (Resolved a, w')
    | (Rejected e, w') => handler e w'
    end.

(** [console.error(text, error)] *)
Definition console_error (t : string) (e : PostgrestError) : Async unit :=
  fun w => (Resolved tt,
            mkWorld (server w)
                    (console w ++ [mkLog level_error t (Some (error_message e))])).

(** [await] of a query that only reads. *)
Definition query {T} (q : Server -> Response T) : Async (Response T) :=
  fun w => (Resolved (q (server w)), w).

(** [await] of a query that writes. *)
Definition mutation {T} (q : Server -> Response T * Server) : Async (Response T) :=
  fun w => let '(r, s') := q (server w) in (Resolved r, mkWorld s' (console w)).

(** The [catch] block every method ends with: log, then re-throw. *)
Definition log_and_rethrow {A} (t : string) (error : PostgrestError) : Async A :=
  _ ← console_error t error; throw error.

(** [if (error && error.code !== 'PGRST116') throw error; return data || null;] *)
Definition null_when_not_found {T} (r : Response T) : Async (option T) :=
  match error_of r with
  | Some error =>
      if negb (String.eqb (code error) "PGRST116") then throw error
      else ret (data_of r)
  | None => ret (data_of r)
  end.

Definition getCompanyById (i : string) : Async (option Company) :=
  try_catch
    (r ← query (fun s => select_company s i);
     null_when_not_found r)
    (log_and_rethrow "Error fetching company:").

Definition getContactById (i : string) : Async (option Contact) :=
  try_catch
    (r ← query (fun s => select_contact s i);
     null_when_not_found r)
    (log_and_rethrow "Error fetching contact:").

Definition getEnquiryById (i : string) : Async (option EnquiryWithRelations) :=
  try_catch
    (r ← query (fun s => select_enquiry s i);
     null_when_not_found r)
    (log_and_rethrow "Error fetching enquiry:").

(** [getEnquiries(filters?, limit = 20, offset = 0)] *)
Definition getEnquiries (filters : option EnquiryFilterOptions) (limit offset : Z)
    : Async (list EnquiryWithRelations) :=
  try_catch
    (r ← query (fun s => select_enquiries s filters offset (offset + limit - 1));
     match error_of r with
     | Some error => throw error
     | None => ret (default [] (data_of r))
     end)
    (log_and_rethrow "Error fetching enquiries:").

Definition updateEnquiry (i : string) (updates : PartialEnquiry) : Async Enquiry :=
  try_catch
    (r ← mutation (fun s => update_enquiry s i updates);
     match r with
     | Failure error => throw error
     | Success data => ret data
     end)
    (log_and_rethrow "Error updating enquiry:").

(** [Promise.all]: every promise of the list runs to its end; the result
    rejects with the first rejection. *)
Fixpoint Promise_all {A} (ps : list (Async A)) : Async (list A) :=
  match ps with
  | [] => ret []
  | p :: ps' =>
      fun w =>
        let '(o, w1) := p w in
        let '(os, w2) := Promise_all ps' w1 in
        match o, os with
        | Resolved a, Resolved l => (Resolved (a :: l), w2)
        | Rejected e, _ => (Rejected e, w2)
        | Resolved _, Rejected e => (Rejected e, w2)
        end
  end.

(** [Promise.all([p, q])] *)
Definition Promise_all2 {A B} (p : Async A) (q : Async B) : Async (A * B) :=
  fun w =>
    let '(o1, w1) := p w in
    let '(o2, w2) := q w1 in
    match o1, o2 with
    | Resolved a, Resolved b => (Resolved (a, b), w2)
    | Rejected e, _ => (Rejected e, w2)
    | Resolved _, Rejected e => (Rejected e, w2)
    end.

(** The object literal of [getEnquiriesForExport]: one export row from an
    enquiry and the two rows looked up for it. *)
Definition to_export_row (company : option Company) (contact : option Contact)
    (enquiry : EnquiryWithRelations) : ExportEnquiryData :=
  mkExport
    (match company with
     | Some c => or_else (company_name_ c) ""
     | None => ""
     end)
    (contact_name_ <$> contact)
    (contact ≫= contact_email_)
    (contact ≫= contact_phone_)
    (status (base enquiry))
    (product_interest (base enquiry))
    (estimated_value (base enquiry))
    (enquiry_date (base enquiry))
    (next_follow_up (base enquiry))
    (notes (base enquiry))
    (owner (base enquiry)).

(** The callback mapped over the enquiries: two lookups, then the row. *)
Definition export_row (enquiry : EnquiryWithRelations) : Async ExportEnquiryData :=
  cc ← Promise_all2
          (getCompanyById (company_id (base enquiry)))
          (match contact_id (base enquiry) with
           | Some c => if truthy c then getContactById c else ret None
           | None => ret None
           end);
  let '(company, contact) := cc in
  ret (to_export_row company contact enquiry).

(** The row an enquiry becomes over given tables when both lookups are
    answered. *)
Definition row_of (d : Database) (enquiry : EnquiryWithRelations) : ExportEnquiryData :=
  to_export_row
    (data_of (single (company_by_id d (company_id (base enquiry)))))
    (match contact_id (base enquiry) with
     | Some c => if truthy c then data_of (single (contact_by_id d c)) else None
     | None => None
     end)
    enquiry.

Definition getEnquiriesForExport (filters : option EnquiryFilterOptions)
    : Async (list ExportEnquiryData) :=
  try_catch
    (enquiries ← getEnquiries filters 1000 0;
     exportData ← Promise_all (map export_row enquiries);
     ret exportData)
    (log_and_rethrow "Error preparing export data:").

End SupabaseService.

(** ** screens/EnquiryListScreen.tsx *)
Module EnquiryListScreen.
Import JsString Types Postgrest SupabaseService.

Record State := mkState {
  enquiries : list EnquiryWithRelations;
  filteredEnquiries : list EnquiryWithRelations;
  searchTerm : string;
  filters : EnquiryFilterOptions;
  error : option string;
  loading : bool
}.

Definition setFilteredEnquiries (l : list EnquiryWithRelations) (st : State) : State :=
  mkState (enquiries st) l (searchTerm st) (filters st) (error st) (loading st).

(** [enquiry.company?.name?.toLowerCase() || ''] and its two siblings. *)
Definition company_key (enquiry : EnquiryWithRelations) : string :=
  match company enquiry with
  | Some c => or_else (toLowerCase (company_name_ c)) ""
  | None => ""
  end.

Definition contact_key (enquiry : EnquiryWithRelations) : string :=
  match contact enquiry with
  | Some c => or_else (toLowerCase (contact_name_ c)) ""
  | None => ""
  end.

Definition product_key (enquiry : EnquiryWithRelations) : string :=
  or_else (toLowerCase (product_interest (base enquiry))) "".

(** The predicate given to [data.filter]. *)
Definition matches (lowerTerm : string) (enquiry : EnquiryWithRelations) : bool :=
  includes (company_key enquiry) lowerTerm
  || includes (contact_key enquiry) lowerTerm
  || includes (product_key enquiry) lowerTerm.

Definition applySearch (data : list EnquiryWithRelations) (term : string)
    (st : State) : State :=
  if negb (truthy term) then setFilteredEnquiries data st
  else
    let lowerTerm := toLowerCase term in
    let filtered := List.filter (matches lowerTerm) data in
    setFilteredEnquiries filtered st.

End EnquiryListScreen.

(** ** screens/EnquiryDetailScreen.tsx *)
Module EnquiryDetailScreen.
Import JsString Types Postgrest SupabaseService.

Record State := mkState {
  enquiry : option Enquiry;
  saving : bool;
  showStatusModal : bool;
  error : option string
}.

(** [err instanceof Error ? err.message : fallback] *)
Definition message_or (fallback : string) (err : PostgrestError) : string :=
  if instanceof_Error err then error_message err else fallback.

(** [handleStatusChange(newStatus)] on the screen of enquiry [enquiryId]:
    the screen state and the world after it. *)
Definition handleStatusChange (enquiryId : string) (newStatus : EnquiryStatus)
    (st : State) (w : World) : State * World :=
  let st1 := mkState (enquiry st) true (showStatusModal st) (error st) in
  let '(st2, w2) :=
    match updateEnquiry enquiryId (only_status newStatus) w with
    | (Resolved updated, w') =>
        (mkState (Some updated) (saving st1) false (error st1), w')
    | (Rejected err, w') =>
        (mkState (enquiry st1) (saving st1) (showStatusModal st1)
                 (Some (message_or "Failed to update status" err)),
         mkWorld (server w')
                 (console w' ++ [Console.mkLog Console.level_error
                                   "Status update error:"
                                   (Some (error_message err))]))
    end in
  (mkState (enquiry st2) false (showStatusModal st2) (error st2), w2).

End EnquiryDetailScreen.

(** ** utils/index.ts: [ExportUtils] *)
Module ExportUtils.
Import JsString Types.

(** The values a property of an export row holds at run time. *)
Inductive JsValue :=
  | JsUndef
  | JsStr (s : string)
  | JsNum (n : Z).

Definition Number_toString (n : Z) : string :=
  NilZero.string_of_int (Z.to_int n).

Definition of_optional_string (o : option string) : JsValue :=
  match o with Some s => JsStr s | None => JsUndef end.

Definition of_optional_number (o : option Z) : JsValue :=
  match o with Some n => JsNum n | None => JsUndef end.

(** An object as its properties in insertion order. *)
Definition JsObject : Type := list (string * JsValue).

(** [obj[key]] *)
Fixpoint get (key : string) (obj : JsObject) : JsValue :=
  match obj with
  | [] => JsUndef
  | (k, v) :: obj' => if String.eqb k key then v else get key obj'
  end.

(** An [ExportEnquiryData] as the object [getEnquiriesForExport] builds:
    the eleven properties of its literal, in the literal's order. *)
Definition to_object (item : ExportEnquiryData) : JsObject :=
  [ ("company_name", JsStr (x_company_name item));
    ("contact_name", of_optional_string (x_contact_name item));
    ("contact_email", of_optional_string (x_contact_email item));
    ("contact_phone", of_optional_string (x_contact_phone item));
    ("status", JsStr (status_text (x_status item)));
    ("product_interest", JsStr (x_product_interest item));
    ("estimated_value", of_optional_number (x_estimated_value item));
    ("enquiry_date", JsStr (x_enquiry_date item));
    ("next_follow_up", of_optional_string (x_next_follow_up item));
    ("notes", of_optional_string (x_notes item));
    ("owner", JsStr (x_owner item)) ].

(** [getCSVHeaders()] *)
Definition getCSVHeaders : list string :=
  [ "company_name"; "contact_name"; "contact_email"; "contact_phone";
    "status"; "product_interest"; "estimated_value"; "enquiry_date";
    "next_follow_up"; "notes"; "owner" ].

(** [item.field || '-'] for an optional string. *)
Definition or_dash (o : option string) : string :=
  match o with
  | Some s => or_else s "-"
  | None => "-"
  end.

(** [item.estimated_value ? `$${item.estimated_value}` : '-'] *)
Definition money_or_dash (o : option Z) : string :=
  match o with
  | Some n => if Z.eqb n 0 then "-" else String.append "$" (Number_toString n)
  | None => "-"
  end.

(** [formatForExport(data)]: each item becomes an object of eleven labelled
    strings. *)
Definition format_item (item : ExportEnquiryData) : JsObject :=
  [ ("Company Name", JsStr (x_company_name item));
    ("Contact Name", JsStr (or_dash (x_contact_name item)));
    ("Contact Email", JsStr (or_dash (x_contact_email item)));
    ("Contact Phone", JsStr (or_dash (x_contact_phone item)));
    ("Status", JsStr (status_text (x_status item)));
    ("Product Interest", JsStr (x_product_interest item));
    ("Estimated Value", JsStr (money_or_dash (x_estimated_value item)));
    ("Enquiry Date", JsStr (x_enquiry_date item));
    ("Next Follow-up", JsStr (or_dash (x_next_follow_up item)));
    ("Notes", JsStr (or_dash (x_notes item)));
    ("Owner", JsStr (x_owner item)) ].

Definition formatForExport (data : list ExportEnquiryData) : list JsObject :=
  map format_item data.

(** *** The serializer ([Papa.unparse] on an array of objects)

    The library takes the column names from the properties of the first
    object, writes them as the first line, and writes one line per object
    with the value of each column, [undefined] and [null] as the empty
    text. The model keeps each line as its list of cell texts; quoting and
    joining the cells with the delimiter is the library's encoding of that
    table. *)
Definition Papa_cell (v : JsValue) : string :=
  match v with
  | JsUndef => ""
  | JsStr s => s
  | JsNum n => Number_toString n
  end.

Definition Papa_unparse (data : list JsObject) : list (list string) :=
  match data with
  | [] => []
  | first :: _ =>
      let fields := map fst first in
      fields :: map (fun row => map (fun f => Papa_cell (get f row)) fields) data
  end.

(** The device: the documents directory, whether writing to it works, and
    the share sheet (which, when available, is taken to open). *)
Record Device := mkDevice {
  documentDirectory : string;
  documents : gmap string (list (list string));
  write_error : option string;
  sharing_available : bool;
  shared : list string
}.

Inductive Exported :=
  | Written (fileUri : string)
  | Thrown (error : string).

(** [exportToCSV(data, filename = 'enquiries.csv')]: the rows are given to
    the serializer as they are. *)
Definition exportToCSV (data : list ExportEnquiryData) (filename : string)
    (dev : Device) : Exported * Device * list Console.LogEntry :=
  let csv := Papa_unparse (map to_object data) in
  let fileUri := String.append (documentDirectory dev) filename in
  match write_error dev with
  | Some e =>
      (Thrown e, dev,
       [Console.mkLog Console.level_error "Error exporting to CSV:" (Some e)])
  | None =>
      let dev1 := mkDevice (documentDirectory dev) (<[fileUri := csv]> (documents dev)) None
                           (sharing_available dev) (shared dev) in
      let dev2 := if sharing_available dev1
                  then mkDevice (documentDirectory dev1) (documents dev1) None true
                                (shared dev1 ++ [fileUri])
                  else dev1 in
      (Written fileUri, dev2, [])
  end.

(** The data lines of a written table: everything after the header line. *)
Definition data_lines (table : list (list string)) : list (list string) :=
  tail table.

End ExportUtils.

(** ** services/notificationService.ts *)
Module NotificationService.
Import JsString Types Console.

(** What [Notifications.scheduleNotificationAsync] receives; the trigger
    date is a [Date], [None] when it is an invalid one. *)
Record NotificationRequest := mkRequest {
  content_title : string;
  content_body : string;
  content_data : NotificationData;
  content_sound : bool;
  content_badge : Z;
  trigger_date : option Z
}.

(** How a call of the platform API ends. *)
Inductive Returned (A : Type) :=
  | Returns (a : A)
  | Throws (error : string).
Arguments Returns {A} a.
Arguments Throws {A} error.

(** The platform notification API over its own state [P]. *)
Record Platform (P : Type) := mkPlatform {
  scheduleNotificationAsync : NotificationRequest -> P -> Returned string * P;
  cancelScheduledNotificationAsync : string -> P -> Returned unit * P;
  cancelAllScheduledNotificationsAsync : P -> Returned unit * P
}.
Arguments scheduleNotificationAsync {P} _ _ _.
Arguments cancelScheduledNotificationAsync {P} _ _ _.
Arguments cancelAllScheduledNotificationsAsync {P} _ _.

(** The calls the service makes into the platform, in order. *)
Inductive Call :=
  | ScheduleCall (request : NotificationRequest)
  | CancelCall (notificationId : string)
  | CancelAllCall.

Definition is_schedule (c : Call) : bool :=
  match c with ScheduleCall _ => true | _ => false end.

Definition is_cancel (c : Call) : bool :=
  match c with CancelCall _ => true | _ => false end.

Definition is_cancel_all (c : Call) : bool :=
  match c with CancelAllCall => true | _ => false end.

Definition count (p : Call -> bool) (l : list Call) : nat :=
  length (List.filter p l).

Section Service.

Context {P : Type}.
Variable platform : Platform P.
(** [new Date(text).getTime()], [None] for an invalid date. *)
Variable Date_parse : string -> option Z.
(** The time the k-th [new Date()] of a run reads. *)
Variable Date_now : nat -> Z.

Record State := mkState {
  scheduledNotifications : gmap string string;
  device : P;
  calls : list Call;
  console : list LogEntry;
  clock_reads : nat
}.

Definition M (A : Type) : Type := State -> A * State.

Definition set_map (m : gmap string string) (st : State) : State :=
  mkState m (device st) (calls st) (console st) (clock_reads st).

Definition write_console (l : Level) (t : string) (d : option string) (st : State) : State :=
  mkState (scheduledNotifications st) (device st) (calls st)
          (console st ++ [mkLog l t d]) (clock_reads st).

(** One call into the platform: it is recorded, and the platform state moves. *)
Definition invoke {A} (c : Call) (f : P -> Returned A * P) : M (Returned A) :=
  fun st =>
    let '(r, p') := f (device st) in
    (r, mkState (scheduledNotifications st) p' (calls st ++ [c])
                (console st) (clock_reads st)).

(** [new Date()] *)
Definition new_Date : M Z :=
  fun st =>
    (Date_now (clock_reads st),
     mkState (scheduledNotifications st) (device st) (calls st) (console st)
             (S (clock_reads st))).

(** [payload.data || {}] *)
Definition data_or_empty (d : option NotificationData) : NotificationData :=
  default (mkData None None None) d.

Definition scheduleNotification (payload : NotificationPayload) (triggerDate : option Z)
    : M (option string) :=
  fun st =>
    let request := mkRequest (n_title payload) (n_body payload)
                             (data_or_empty (n_data payload)) true 1 triggerDate in
    match invoke (ScheduleCall request) (scheduleNotificationAsync platform request) st with
    | (Returns notificationId, st') => (Some notificationId, st')
    | (Throws error, st') =>
        (None, write_console level_error "Error scheduling notification:" (Some error) st')
    end.

(** [reminderDate <= new Date()]: false when the reminder date is invalid. *)
Definition not_after (reminderDate : option Z) (now : Z) : bool :=
  match reminderDate with
  | Some t => Z.leb t now
  | None => false
  end.

Definition scheduleReminderNotification (reminder : Reminder) : M unit :=
  fun st =>
    let reminderDate := Date_parse (reminder_date reminder) in
    let '(now, st1) := new_Date st in
    if not_after reminderDate now then
      (tt, write_console level_warn
             "Reminder date is in the past, skipping scheduling" None st1)
    else
      let notificationPayload :=
        mkPayload "Follow-up Reminder" (reminder_title reminder)
          (Some (mkData (Some (reminder_enquiry_id reminder))
                        (Some (reminder_id reminder))
                        (Some "EnquiryDetail"))) in
      let '(notificationId, st2) :=
        scheduleNotification notificationPayload reminderDate st1 in
      match notificationId with
      | Some n =>
          if truthy n
          then (tt, set_map (<[reminder_id reminder := n]> (scheduledNotifications st2)) st2)
          else (tt, st2)
      | None => (tt, st2)
      end.

(** The request [scheduleReminderNotification] hands to the platform for a
    reminder and its date. *)
Definition reminder_request (reminder : Reminder) (reminderDate : option Z)
    : NotificationRequest :=
  mkRequest "Follow-up Reminder" (reminder_title reminder)
            (mkData (Some (reminder_enquiry_id reminder))
                    (Some (reminder_id reminder))
                    (Some "EnquiryDetail"))
            true 1 reminderDate.

Definition cancelNotification (notificationId : string) : M unit :=
  fun st =>
    match invoke (CancelCall notificationId)
                 (cancelScheduledNotificationAsync platform notificationId) st with
    | (Returns _, st') => (tt, st')
    | (Throws error, st') =>
        (tt, write_console level_error "Error canceling notification:" (Some error) st')
    end.

Definition cancelReminderNotification (reminderId : string) : M unit :=
  fun st =>
    match scheduledNotifications st !! reminderId with
    | Some notificationId =>
        if truthy notificationId then
          let '(_, st1) := cancelNotification notificationId st in
          (tt, set_map (delete reminderId (scheduledNotifications st1)) st1)
        else (tt, st)
    | None => (tt, st)
    end.

Definition cancelAllNotifications : M unit :=
  fun st =>
    match invoke CancelAllCall (cancelAllScheduledNotificationsAsync platform) st with
    | (Returns _, st') => (tt, set_map ∅ st')
    | (Throws error, st') =>
        (tt, write_console level_error "Error canceling all notifications:" (Some error) st')
    end.

(** The [for (const reminder of reminders)] loop of [syncReminders]. *)
Fixpoint schedule_each (reminders : list Reminder) : M unit :=
  match reminders with
  | [] => fun st => (tt, st)
  | reminder :: rest =>
      fun st =>
        let '(_, st1) :=
          if negb (is_completed reminder)
          then scheduleReminderNotification reminder st
          else (tt, st) in
        schedule_each rest st1
  end.

(** [syncReminders()]; [fetched] is what awaiting
    [supabaseService.getUpcomingReminders(30)] gave. *)
Definition syncReminders (fetched : SupabaseService.Outcome (list Reminder)) : M unit :=
  fun st =>
    match fetched with
    | SupabaseService.Resolved reminders =>
        let '(_, st1) := cancelAllNotifications st in
        let '(_, st2) := schedule_each reminders st1 in
        (tt, write_console level_log
               (String.append "Synced "
                  (String.append (NilZero.string_of_uint (Nat.to_uint (length reminders)))
                                 " reminders"))
               None st2)
    | SupabaseService.Rejected error =>
        (tt, write_console level_error "Error syncing reminders:"
               (Some (Postgrest.error_message error)) st)
    end.

End Service.

Arguments State : clear implicits.
Arguments mkState {P} _ _ _ _ _.
Arguments scheduledNotifications {P} _.
Arguments device {P} _.
Arguments calls {P} _.
Arguments console {P} _.
Arguments clock_reads {P} _.

(** *** Two platforms to run the service on *)

(** A platform that works: identifiers are fresh and never empty. *)
Record Pending := mkPending {
  next_identifier : nat;
  pending : list (string * NotificationRequest)
}.

Definition identifier (n : nat) : string :=
  String.append "notification-" (NilZero.string_of_uint (Nat.to_uint n)).

Definition working_platform : Platform Pending :=
  mkPlatform Pending
    (fun request p =>
       (Returns (identifier (next_identifier p)),
        mkPending (S (next_identifier p))
                  (pending p ++ [(identifier (next_identifier p), request)])))
    (fun notificationId p =>
       (Returns tt,
        mkPending (next_identifier p)
                  (List.filter (fun e => negb (String.eqb (fst e) notificationId))
                               (pending p))))
    (fun p => (Returns tt, mkPending (next_identifier p) [])).

(** A platform without the notification module: every call throws. *)
Definition unavailable_platform : Platform unit :=
  mkPlatform unit
    (fun _ p => (Throws "Notifications are not available", p))
    (fun _ p => (Throws "Notifications are not available", p))
    (fun p => (Throws "Notifications are not available", p)).

End NotificationService.

(** ** Regular expressions, as far as the validators of the code use them

    A pattern [/^r$/] is its expression [r]; [test_whole r s] is
    [/^r$/.test(s)], computed by derivatives. *)
Module Regex.

Inductive re :=
  | Void
  | Eps
  | Class (p : ascii -> bool)
  | Cat (a b : re)
  | Alt (a b : re)
  | Star (a : re).

(** [a+] *)
Definition Plus (a : re) : re := Cat a (Star a).

(** [a{n}] and [a{n,}] *)
Fixpoint Repeat (n : nat) (a : re) : re :=
  match n with
  | O => Eps
  | S n' => Cat a (Repeat n' a)
  end.

Definition AtLeast (n : nat) (a : re) : re := Cat (Repeat n a) (Star a).

(** The strings an expression denotes. *)
Inductive lang : re -> string -> Prop :=
  | lang_eps : lang Eps ""
  | lang_class p c : p c = true -> lang (Class p) (String c "")
  | lang_cat a b s t : lang a s -> lang b t -> lang (Cat a b) (s +:+ t)
  | lang_alt_l a b s : lang a s -> lang (Alt a b) s
  | lang_alt_r a b s : lang b s -> lang (Alt a b) s
  | lang_star_nil a : lang (Star a) ""
  | lang_star_cons a s t : lang a s -> lang (Star a) t -> lang (Star a) (s +:+ t).

Fixpoint nullable (r : re) : bool :=
  match r with
  | Void => false
  | Eps => true
  | Class _ => false
  | Cat a b => nullable a && nullable b
  | Alt a b => nullable a || nullable b
  | Star _ => true
  end.

Fixpoint deriv (c : ascii) (r : re) : re :=
  match r with
  | Void => Void
  | Eps => Void
  | Class p => if p c then Eps else Void
  | Cat a b =>
      if nullable a then Alt (Cat (deriv c a) b) (deriv c b)
      else Cat (deriv c a) b
  | Alt a b => Alt (deriv c a) (deriv c b)
  | Star a => Cat (deriv c a) (Star a)
  end.

Fixpoint test_whole (r : re) (s : string) : bool :=
  match s with
  | EmptyString => nullable r
  | String c s' => test_whole (deriv c r) s'
  end.

(** How often the character [c] occurs in [s]. *)
Fixpoint occurrences (c : ascii) (s : string) : nat :=
  match s with
  | EmptyString => 0
  | String d s' => (if Ascii.eqb c d then 1 else 0) + occurrences c s'
  end.

(** Every character of [s] satisfies [p]. *)
Fixpoint all_chars (p : ascii -> bool) (s : string) : bool :=
  match s with
  | EmptyString => true
  | String c s' => p c && all_chars p s'
  end.

End Regex.

(** ** utils/index.ts: [StringUtils] and [ValidationUtils] *)
Module StringUtils.
Import JsString Regex.

(** [\d] *)
Definition is_digit (c : ascii) : bool :=
  let n := nat_of_ascii c in (Nat.leb 48 n && Nat.leb n 57)%bool.

(** [text.substring(0, n)] for a number [n]: a negative [n] counts as 0, an
    [n] past the end as the length. *)
Definition substring_to (n : Z) (text : string) : string :=
  String.substring 0 (Z.to_nat n) text.

(** [truncate(text, maxLength, suffix = '...')] *)
Definition truncate (text : string) (maxLength : Z) (suffix : string) : string :=
  if (Z.of_nat (String.length text) <=? maxLength)%Z then text
  else substring_to (maxLength - Z.of_nat (String.length suffix)) text +:+ suffix.

(** [[^\s@]] *)
Definition email_char (c : ascii) : bool :=
  negb (is_white_space c || Ascii.eqb c "@").

(** [/^[^\s@]+@[^\s@]+\.[^\s@]+$/] *)
Definition emailRegex : re :=
  Cat (Plus (Class email_char))
      (Cat (Class (Ascii.eqb "@"))
           (Cat (Plus (Class email_char))
                (Cat (Class (Ascii.eqb "."))
                     (Plus (Class email_char))))).

Definition isValidEmail (email : string) : bool := test_whole emailRegex email.

(** [[\d\s\-\+\(\)]] *)
Definition phone_char (c : ascii) : bool :=
  is_digit c || is_white_space c || Ascii.eqb c "-" || Ascii.eqb c "+"
  || Ascii.eqb c "(" || Ascii.eqb c ")".

(** [/^[\d\s\-\+\(\)]{10,}$/] *)
Definition phoneRegex : re := AtLeast 10 (Class phone_char).

Definition isValidPhone (phone : string) : bool := test_whole phoneRegex phone.

(** [phone.replace(/\D/g, '')] *)
Fixpoint remove_non_digits (s : string) : string :=
  match s with
  | EmptyString => EmptyString
  | String c s' =>
      if is_digit c then String c (remove_non_digits s') else remove_non_digits s'
  end.

(** [s.slice(from, to)] and [s.slice(from)] for indices inside the string. *)
Definition slice (from to : nat) (s : string) : string :=
  String.substring from (to - from) s.

Definition slice_from (from : nat) (s : string) : string :=
  String.substring from (String.length s - from) s.

Definition formatPhoneNumber (phone : string) : string :=
  let cleaned := remove_non_digits phone in
  if Nat.eqb (String.length cleaned) 10 then
    "(" +:+ slice 0 3 cleaned +:+ ") " +:+ slice 3 6 cleaned +:+ "-"
    +:+ slice_from 6 cleaned
  else phone.

End StringUtils.

Module ValidationUtils.
Import JsString.

(** The rules of one field; an absent rule is [None] (or [false]). *)
Record FieldRules := mkRules {
  required : bool;
  minLength : option nat;
  maxLength : option nat
}.

Record FormValidation := mkFormValidation {
  valid : bool;
  errors : gmap string string
}.

(** What reading a property of the form data can give: the data is typed
    [Record<string, any>]. [VFunction] carries the [length] of the function;
    [VObject] is an object with neither [length] nor [trim]. *)
Inductive Value :=
  | VUndefined
  | VNull
  | VString (s : string)
  | VNumber (n : Z)
  | VBoolean (b : bool)
  | VFunction (arity : nat)
  | VObject.

(** What a plain object inherits: the properties of [Object.prototype]. *)
Definition Object_prototype (name : string) : Value :=
  if String.eqb name "constructor" then VFunction 1
  else if String.eqb name "hasOwnProperty" then VFunction 1
  else if String.eqb name "isPrototypeOf" then VFunction 1
  else if String.eqb name "propertyIsEnumerable" then VFunction 1
  else if String.eqb name "toLocaleString" then VFunction 0
  else if String.eqb name "toString" then VFunction 0
  else if String.eqb name "valueOf" then VFunction 0
  else if String.eqb name "__defineGetter__" then VFunction 2
  else if String.eqb name "__defineSetter__" then VFunction 2
  else if String.eqb name "__lookupGetter__" then VFunction 1
  else if String.eqb name "__lookupSetter__" then VFunction 1
  else if String.eqb name "__proto__" then VObject
  else VUndefined.

(** [data[field]] on a plain object with the own properties [data]. *)
Definition read (data : gmap string Value) (field : string) : Value :=
  match data !! field with
  | Some v => v
  | None => Object_prototype field
  end.

(** [if (value)] *)
Definition truthy_value (v : Value) : bool :=
  match v with
  | VUndefined | VNull => false
  | VString s => truthy s
  | VNumber n => negb (Z.eqb n 0)
  | VBoolean b => b
  | VFunction _ | VObject => true
  end.

(** [value.length] of a value that is neither null nor undefined; [None]
    is [undefined], which no comparison with a number holds of. *)
Definition length_of (v : Value) : option nat :=
  match v with
  | VString s => Some (String.length s)
  | VFunction arity => Some arity
  | _ => None
  end.

(** [isRequired(value)]; [None] is the TypeError of calling [value.trim]
    on a value that has no such method. *)
Definition isRequired (value : Value) : option bool :=
  match value with
  | VNull | VUndefined => Some false
  | VString v => Some (Nat.ltb 0 (String.length (trim v)))
  | _ => None
  end.

Definition isValidLength (value : string) (min max : nat) : bool :=
  Nat.leb min (String.length value) && Nat.leb (String.length value) max.

Definition isInRange (value min max : Z) : bool :=
  (Z.leb min value && Z.leb value max)%bool.

Definition decimal (n : nat) : string :=
  NilZero.string_of_uint (Nat.to_uint n).

(** [value && fieldRules.minLength && value.length < fieldRules.minLength] *)
Definition too_short (value : Value) (rules : FieldRules) : bool :=
  match minLength rules, length_of value with
  | Some m, Some n => truthy_value value && negb (Nat.eqb m 0) && Nat.ltb n m
  | _, _ => false
  end.

(** [value && fieldRules.maxLength && value.length > fieldRules.maxLength] *)
Definition too_long (value : Value) (rules : FieldRules) : bool :=
  match maxLength rules, length_of value with
  | Some m, Some n => truthy_value value && negb (Nat.eqb m 0) && Nat.ltb m n
  | _, _ => false
  end.

(** [errors[field] = message] on the object [errors], which starts as the
    empty literal: an assignment to [__proto__] reaches the setter it
    inherits, which ignores a string, and adds no property. *)
Definition set_error (field message : string) (errs : gmap string string)
    : gmap string string :=
  if String.eqb field "__proto__" then errs else <[field := message]> errs.

(** The body of the loop over [Object.entries(rules)]: the three checks of
    one field, each overwriting the message of the one before; [None] when
    the first check throws. *)
Definition check_field (data : gmap string Value) (errs : gmap string string)
    (entry : string * FieldRules) : option (gmap string string) :=
  let '(field, fieldRules) := entry in
  let value := read data field in
  match (if required fieldRules
         then match isRequired value with
              | Some ok =>
                  Some (if negb ok
                        then set_error field (field +:+ " is required") errs
                        else errs)
              | None => None
              end
         else Some errs) with
  | None => None
  | Some errs1 =>
      let errs2 :=
        if too_short value fieldRules
        then set_error field
               (field +:+ " must be at least "
                +:+ decimal (default 0 (minLength fieldRules))
                +:+ " characters") errs1
        else errs1 in
      Some (if too_long value fieldRules
            then set_error field
                   (field +:+ " must be at most "
                    +:+ decimal (default 0 (maxLength fieldRules))
                    +:+ " characters") errs2
            else errs2)
  end.

(** [validateFormData(data, rules)]; the rules are the entries of the rules
    object in their order. [None]: the call throws a TypeError. *)
Definition validateFormData (data : gmap string Value)
    (rules : list (string * FieldRules)) : option FormValidation :=
  match fold_left (fun acc entry =>
                     match acc with
                     | Some errs => check_field data errs entry
                     | None => None
                     end)
                  rules (Some ∅) with
  | Some errs => Some (mkFormValidation (bool_decide (errs = ∅)) errs)
  | None => None
  end.

(** A form as the screens keep it: text fields. *)
Definition text_form (fields : gmap string string) : gmap string Value :=
  VString <$> fields.

(** A value a form field holds when it is text or is not there. *)
Definition text_or_missing (v : Value) : Prop :=
  v = VUndefined \/ v = VNull \/ exists s, v = VString s.

(** A field passes its rules. *)
Definition field_ok (data : gmap string Value) (entry : string * FieldRules) : bool :=
  let value := read data (fst entry) in
  negb (required (snd entry) && negb (default false (isRequired value)))
  && negb (too_short value (snd entry))
  && negb (too_long value (snd entry)).

End ValidationUtils.

(** ** screens/EnquiryListScreen.tsx: loading the list *)
Module EnquiryListLoading.
Import JsString Types Postgrest SupabaseService EnquiryListScreen.

(** [term] occurs in [text], letter case apart. *)
Definition contains_ignoring_case (text term : string) : Prop :=
  exists pre post, toLowerCase text = pre +:+ toLowerCase term +:+ post.

Definition setEnquiries (l : list EnquiryWithRelations) (st : State) : State :=
  mkState l (filteredEnquiries st) (searchTerm st) (filters st) (error st) (loading st).

Definition setError (e : option string) (st : State) : State :=
  mkState (enquiries st) (filteredEnquiries st) (searchTerm st) (filters st) e
          (loading st).

Definition setLoading (b : bool) (st : State) : State :=
  mkState (enquiries st) (filteredEnquiries st) (searchTerm st) (filters st)
          (error st) b.

(** [loadEnquiries()]: the screen state and the world after it. *)
Definition loadEnquiries (st : State) (w : World) : State * World :=
  let st0 := setError None st in
  let '(st1, w1) :=
    match getEnquiries (Some (filters st0)) 100 0 w with
    | (Resolved data, w') =>
        (applySearch data (searchTerm st0) (setEnquiries data st0), w')
    | (Rejected err, w') =>
        (setError (Some (EnquiryDetailScreen.message_or "Failed to load enquiries" err))
                  st0,
         mkWorld (server w')
                 (console w' ++ [Console.mkLog Console.level_error
                                   "Enquiry list error:"
                                   (Some (error_message err))]))
    end in
  (setLoading false st1, w1).

End EnquiryListLoading.

(** ** services/notificationService.ts: the remaining operations *)
Module NotificationServiceMore.
Import JsString Types Console NotificationService.

Section Service.

Context {P : Type}.
Variable platform : Platform P.
(** The time the k-th reading of the clock gives, in milliseconds. *)
Variable Date_now : nat -> Z.

(** [scheduleLocalNotification(payload, delayInSeconds)] *)
Definition scheduleLocalNotification (payload : NotificationPayload)
    (delayInSeconds : Z) : State P -> option string * State P :=
  fun st =>
    let '(now, st1) := new_Date Date_now st in
    let triggerDate := Some (now + delayInSeconds * 1000)%Z in
    scheduleNotification platform payload triggerDate st1.

(** [sendImmediateNotification(payload)] *)
Definition sendImmediateNotification (payload : NotificationPayload)
    : State P -> unit * State P :=
  fun st =>
    let '(_, st1) := scheduleLocalNotification payload 1 st in
    (tt, st1).

End Service.

(** The identifiers the service keeps are usable: none is the empty text. *)
Definition handles_nonempty {P : Type} (st : State P) : Prop :=
  map_Forall (fun _ h => truthy h = true) (scheduledNotifications st).

(** The identifiers of the fetched reminders that are not completed. *)
Definition incomplete_ids (reminders : list Reminder) : gset string :=
  list_to_set (map reminder_id (List.filter (fun r => negb (is_completed r)) reminders)).

End NotificationServiceMore.

(** ** The backend: deleting rows, and the other queries

    The schema of the setup guide decides what a delete takes with it:
    contacts, enquiries and reminders go with their parent ([ON DELETE
    CASCADE]); an enquiry that named a deleted contact stays, with no
    contact ([ON DELETE SET NULL]). *)
Module PostgrestMore.
Import JsString Types Postgrest.

(** [Partial<Reminder>] *)
Record PartialReminder := mkPartialReminder {
  pr_id : option string;
  pr_enquiry_id : option string;
  pr_reminder_date : option string;
  pr_title : option string;
  pr_description : option string;
  pr_is_completed : option bool;
  pr_created_at : option string
}.

(** The object literal [{ is_completed: true }]. *)
Definition completed : PartialReminder :=
  mkPartialReminder None None None None None (Some true) None.

Inductive MoreRequest :=
  | SelectEnquiriesOfCompany (companyId : string)
  | SelectStatusAndValue
  | SelectFollowUps (from to : string)
  | DeleteCompany (id : string)
  | DeleteContact (id : string)
  | DeleteEnquiry (id : string)
  | DeleteReminder (id : string)
  | UpdateReminder (id : string) (updates : PartialReminder).

Definition without_contact (e : Enquiry) : Enquiry :=
  mkEnquiry (id e) (company_id e) None (enquiry_date e) (status e)
            (product_interest e) (estimated_value e) (notes e)
            (next_follow_up e) (owner e) (created_at e) (updated_at e).

(** [SET NULL] on the enquiries that name one of the [gone] contacts. *)
Definition forget_contacts (gone : list string) (e : Enquiry) : Enquiry :=
  match contact_id e with
  | Some k => if bool_decide (k ∈ gone) then without_contact e else e
  | None => e
  end.

Definition delete_reminder (i : string) (d : Database) : Database :=
  mkDb (companies d) (contacts d) (enquiries d)
       (filter (fun r => reminder_id r <> i) (reminders d)).

Definition delete_enquiry (i : string) (d : Database) : Database :=
  mkDb (companies d) (contacts d)
       (filter (fun e => id e <> i) (enquiries d))
       (filter (fun r => reminder_enquiry_id r <> i) (reminders d)).

Definition delete_contact (i : string) (d : Database) : Database :=
  mkDb (companies d)
       (filter (fun c => contact_id_ c <> i) (contacts d))
       (map (forget_contacts [i]) (enquiries d))
       (reminders d).

Definition delete_company (i : string) (d : Database) : Database :=
  let gone_contacts :=
    map contact_id_ (filter (fun c => contact_company_id c = i) (contacts d)) in
  let gone_enquiries :=
    map id (filter (fun e => company_id e = i) (enquiries d)) in
  mkDb (filter (fun c => company_id_ c <> i) (companies d))
       (filter (fun c => contact_company_id c <> i) (contacts d))
       (map (forget_contacts gone_contacts)
            (filter (fun e => company_id e <> i) (enquiries d)))
       (filter (fun r => reminder_enquiry_id r ∉ gone_enquiries) (reminders d)).

(** [.update(updates)] on one reminder. *)
Definition apply_reminder_updates (u : PartialReminder) (r : Reminder) : Reminder :=
  mkReminder
    (default (reminder_id r) (pr_id u))
    (default (reminder_enquiry_id r) (pr_enquiry_id u))
    (default (reminder_date r) (pr_reminder_date u))
    (default (reminder_title r) (pr_title u))
    (default (reminder_description r) (pr_description u))
    (default (is_completed r) (pr_is_completed u))
    (default (reminder_created_at r) (pr_created_at u)).

Definition update_reminder_rows (i : string) (u : PartialReminder) (d : Database)
    : Database :=
  mkDb (companies d) (contacts d) (enquiries d)
       (map (fun r => if bool_decide (reminder_id r = i)
                      then apply_reminder_updates u r else r)
            (reminders d)).

(** Every reference of a row finds its parent. *)
Definition consistent (d : Database) : Prop :=
  (forall c, c ∈ contacts d ->
     exists p, p ∈ companies d /\ company_id_ p = contact_company_id c)
  /\ (forall e, e ∈ enquiries d ->
        exists p, p ∈ companies d /\ company_id_ p = company_id e)
  /\ (forall e k, e ∈ enquiries d -> contact_id e = Some k ->
        exists c, c ∈ contacts d /\ contact_id_ c = k)
  /\ (forall r, r ∈ reminders d ->
        exists e, e ∈ enquiries d /\ id e = reminder_enquiry_id r).

End PostgrestMore.

(** ** services/supabaseService.ts: deleting, listing by company, the
    dashboard summary, reminders *)
Module SupabaseServiceMore.
Import JsString Types Postgrest PostgrestMore Console SupabaseService.

Record DashboardSummary := mkSummary {
  total_enquiries : nat;
  new_count : nat;
  in_progress_count : nat;
  quoted_count : nat;
  won_count : nat;
  lost_count : nat;
  on_hold_count : nat;
  upcoming_followups : nat;
  total_estimated_value : Z
}.

(** The filter object [{ companyId: c }]. *)
Definition only_company (c : string) : EnquiryFilterOptions :=
  mkFilters None None None None None (Some c) None.

Section Service.

(** The requests of this part the backend rejects. *)
Variable rejects_more : MoreRequest -> option PostgrestError.

(** A delete: nothing comes back but the error, if any. *)
Definition delete_request (r : MoreRequest) (f : Database -> Database)
    : Async (option PostgrestError) :=
  fun w =>
    match rejects_more r with
    | Some e => (Resolved (Some e), w)
    | None =>
        (Resolved None,
         mkWorld (mkServer (f (db (server w))) (rejects (server w))) (console w))
    end.

(** [if (error) throw error;] *)
Definition throw_if_error (error : option PostgrestError) : Async unit :=
  match error with
  | Some e => throw e
  | None => ret tt
  end.

Definition deleteCompany (i : string) : Async unit :=
  try_catch
    (error ← delete_request (DeleteCompany i) (delete_company i);
     throw_if_error error)
    (log_and_rethrow "Error deleting company:").

Definition deleteContact (i : string) : Async unit :=
  try_catch
    (error ← delete_request (DeleteContact i) (delete_contact i);
     throw_if_error error)
    (log_and_rethrow "Error deleting contact:").

Definition deleteEnquiry (i : string) : Async unit :=
  try_catch
    (error ← delete_request (DeleteEnquiry i) (delete_enquiry i);
     throw_if_error error)
    (log_and_rethrow "Error deleting enquiry:").

Definition deleteReminder (i : string) : Async unit :=
  try_catch
    (error ← delete_request (DeleteReminder i) (delete_reminder i);
     throw_if_error error)
    (log_and_rethrow "Error deleting reminder:").

(** [updateReminder(id, updates)]: as for an enquiry, an answer that is not
    exactly one row is the row-not-found error, and nothing is written. *)
Definition update_reminder (s : Server) (i : string) (u : PartialReminder)
    : Response Reminder * Server :=
  match rejects_more (UpdateReminder i u) with
  | Some e => (Failure e, s)
  | None =>
      match filter (fun r => reminder_id r = i) (reminders (db s)) with
      | [r] => (Success (apply_reminder_updates u r),
                mkServer (update_reminder_rows i u (db s)) (rejects s))
      | _ => (Failure PGRST116, s)
      end
  end.

Definition updateReminder (i : string) (updates : PartialReminder) : Async Reminder :=
  try_catch
    (r ← mutation (fun s => update_reminder s i updates);
     match r with
     | Failure error => throw error
     | Success data => ret data
     end)
    (log_and_rethrow "Error updating reminder:").

(** [getEnquiriesByCompanyId(companyId)]: no range is asked for. *)
Definition getEnquiriesByCompanyId (companyId : string)
    : Async (list EnquiryWithRelations) :=
  try_catch
    (fun w =>
       match rejects_more (SelectEnquiriesOfCompany companyId) with
       | Some error => throw error w
       | None =>
           ret (map (with_relations (db (server w)))
                  (order_desc (filter (fun e => company_id e = companyId)
                                      (enquiries (db (server w)))))) w
       end)
    (log_and_rethrow "Error fetching company enquiries:").

(** [enquiries.filter((e) => e.status === s).length] *)
Definition count_status (s : EnquiryStatus) (rows : list Enquiry) : nat :=
  length (List.filter (fun e => bool_decide (status e = s)) rows).

(** [enquiries.reduce((sum, e) => sum + (e.estimated_value || 0), 0)] *)
Definition sum_values (rows : list Enquiry) : Z :=
  fold_left (fun sum e => (sum + default 0 (estimated_value e))%Z) rows 0%Z.

(** The rows of the follow-up query: a follow-up date, inside the bounds. *)
Definition follow_up_between (from to : string) (e : Enquiry) : bool :=
  match next_follow_up e with
  | Some d => String.leb from d && String.leb d to
  | None => false
  end.

(** [getDashboardSummary()]; [today] and [weekAhead] are the two dates the
    code derives from the clock. *)
Definition getDashboardSummary (today weekAhead : string) : Async DashboardSummary :=
  try_catch
    (fun w =>
       match rejects_more SelectStatusAndValue with
       | Some error => throw error w
       | None =>
           let enquiries := enquiries (db (server w)) in
           let summary :=
             mkSummary (length enquiries)
                       (count_status st_new enquiries)
                       (count_status st_in_progress enquiries)
                       (count_status st_quoted enquiries)
                       (count_status st_won enquiries)
                       (count_status st_lost enquiries)
                       (count_status st_on_hold enquiries)
                       0
                       (sum_values enquiries) in
           match rejects_more (SelectFollowUps today weekAhead) with
           | Some _ => ret summary w
           | None =>
               ret (mkSummary (total_enquiries summary) (new_count summary)
                              (in_progress_count summary) (quoted_count summary)
                              (won_count summary) (lost_count summary)
                              (on_hold_count summary)
                              (length (List.filter (follow_up_between today weekAhead)
                                                   enquiries))
                              (total_estimated_value summary)) w
           end
       end)
    (log_and_rethrow "Error getting dashboard summary:").

End Service.

End SupabaseServiceMore.

(** ** screens/EnquiryDetailScreen.tsx: completing and deleting a reminder *)
Module ReminderHandlers.
Import JsString Types Postgrest PostgrestMore Console SupabaseService.
Import SupabaseServiceMore NotificationService.

Section Screen.

Context {P : Type}.
Variable platform : Platform P.
Variable rejects_more : MoreRequest -> option PostgrestError.

(** What the handlers work on: the reminders the screen shows, the backend
    world and the notification service. *)
Record Screen := mkScreen {
  reminders_shown : list Reminder;
  world : World;
  notifications : State P
}.

Definition mark_completed (r : Reminder) : Reminder :=
  mkReminder (reminder_id r) (reminder_enquiry_id r) (reminder_date r)
             (reminder_title r) (reminder_description r) true
             (reminder_created_at r).

Definition log_error (t : string) (err : PostgrestError) (w : World) : World :=
  mkWorld (server w)
          (SupabaseService.console w ++ [mkLog level_error t (Some (error_message err))]).

(** [handleCompleteReminder(reminderId)] *)
Definition handleCompleteReminder (reminderId : string) (sc : Screen) : Screen :=
  match updateReminder rejects_more reminderId completed (world sc) with
  | (Resolved _, w') =>
      let '(_, ns') := cancelReminderNotification platform reminderId
                         (notifications sc) in
      mkScreen (map (fun r => if bool_decide (reminder_id r = reminderId)
                              then mark_completed r else r)
                    (reminders_shown sc))
               w' ns'
  | (Rejected err, w') =>
      mkScreen (reminders_shown sc) (log_error "Complete reminder error:" err w')
               (notifications sc)
  end.

(** The [onPress] of the Delete button of [handleDeleteReminder]. *)
Definition handleDeleteReminder_confirmed (reminderId : string) (sc : Screen) : Screen :=
  match deleteReminder rejects_more reminderId (world sc) with
  | (Resolved _, w') =>
      let '(_, ns') := cancelReminderNotification platform reminderId
                         (notifications sc) in
      mkScreen (filter (fun r => reminder_id r <> reminderId) (reminders_shown sc))
               w' ns'
  | (Rejected err, w') =>
      mkScreen (reminders_shown sc) (log_error "Delete reminder error:" err w')
               (notifications sc)
  end.

End Screen.

Arguments Screen : clear implicits.
Arguments mkScreen {P} _ _ _.
Arguments reminders_shown {P} _.
Arguments world {P} _.
Arguments notifications {P} _.

End ReminderHandlers.

(** ** services/aiEmailService.ts: generating an email *)
Module AIEmailGeneration.
Import JsString Types Console AIEmailService.

Inductive EmailTemplateType :=
  | initial_response | quotation_followup | reminder_email | deal_closing
  | re_engagement.

Record EmailGenerationContext := mkContext {
  template_type : EmailTemplateType;
  ctx_company_name : string;
  ctx_contact_name : option string;
  ctx_enquiry_status : EnquiryStatus;
  ctx_product_interest : string;
  ctx_estimated_value : option Z
}.

(** The object [generateEmail] hands to the prompt of a template. *)
Record PromptContext := mkPromptContext {
  pc_company_name : string;
  pc_contact_name : option string;
  pc_product_interest : string;
  pc_estimated_value : option Z;
  pc_days_since : option Z
}.

(** [if (n)] on an optional number: absent and zero are falsy. *)
Definition truthy_number (n : option Z) : bool :=
  match n with
  | Some v => negb (Z.eqb v 0)
  | None => false
  end.

(** The class of the double quote (34) and the single quote (39). *)
Definition is_quote (c : ascii) : bool :=
  let n := nat_of_ascii c in
  (Nat.eqb n 34 || Nat.eqb n 39)%bool.

(** The match of the alternative anchored at the end, in a string that is
    not at its start: the last character, when it is a quote. *)
Fixpoint strip_end (s : string) : string :=
  match s with
  | EmptyString => EmptyString
  | String c EmptyString => if is_quote c then EmptyString else s
  | String c s' => String c (strip_end s')
  end.

(** [s.replace(re, '')] for the global pattern of the source, a quote at
    the start or a quote at the end: the first alternative can match at the
    start only, the second at the last character only, and the two matches
    do not overlap. *)
Definition strip_quotes (s : string) : string :=
  match s with
  | EmptyString => EmptyString
  | String c s' => if is_quote c then strip_end s' else String c (strip_end s')
  end.

(** [generateSubjectPrompt(templateType, companyName)]: every template
    type is a key of [subjects], so the fallback is never taken. *)
Definition generateSubjectPrompt (templateType : EmailTemplateType)
    (companyName : string) : string :=
  match templateType with
  | initial_response =>
      "Generate a professional, concise email subject line for an initial response to an enquiry from "
      +:+ companyName
      +:+ ". Only respond with the subject line, no quotes needed."
  | quotation_followup =>
      "Generate a professional email subject for a quotation follow-up to "
      +:+ companyName +:+ ". Only respond with the subject line."
  | reminder_email =>
      "Generate a professional email subject for a reminder email to "
      +:+ companyName +:+ ". Only respond with the subject line."
  | deal_closing =>
      "Generate a professional email subject for a deal closing email to "
      +:+ companyName +:+ ". Only respond with the subject line."
  | re_engagement =>
      "Generate a professional email subject for a re-engagement email to "
      +:+ companyName +:+ ". Only respond with the subject line."
  end.

(** How a call of the generative model ends: with the text of the
    response, or with an [Error] of some message. *)
Inductive Answer :=
  | Text (text : string)
  | Fails (error_message : string).

(** The prompts sent to the model so far, and the console. *)
Record Service := mkService {
  prompts_sent : list string;
  console : list LogEntry
}.

Inductive Generated (A : Type) :=
  | Resolves (a : A)
  | Rejects (error_message : string).
Arguments Resolves {A} a.
Arguments Rejects {A} error_message.

Record Email := mkEmail {
  subject : string;
  body : string
}.

Section Generation.

(** [GEMINI_CONFIG.apiKey]. *)
Variable apiKey : string.

(** [EMAIL_TEMPLATES[t].prompt]: the prompt text of each of the five
    templates, as a function of the context object. *)
Variable prompt : EmailTemplateType -> PromptContext -> string.

(** The model: what its [n]-th call answers to a prompt. *)
Variable model : nat -> string -> Answer.

(** [model.generateContent(p)], then [.response] and [.text()]. *)
Definition generateContent (p : string) (sv : Service) : Answer * Service :=
  (model (length (prompts_sent sv)) p,
   mkService (prompts_sent sv ++ [p]) (console sv)).

Definition key_missing : string :=
  "Google Generative AI Key not configured. Please set EXPO_PUBLIC_GEMINI_API_KEY in your .env file.".

(** The [try] block of [generateEmail]. *)
Definition generateEmail_try (context : EmailGenerationContext) (sv : Service)
    : Generated Email * Service :=
  if negb (truthy apiKey) then (Rejects key_missing, sv)
  else
    let p := prompt (template_type context)
               (mkPromptContext (ctx_company_name context) (ctx_contact_name context)
                  (ctx_product_interest context) (ctx_estimated_value context)
                  (if truthy_number (ctx_estimated_value context)
                   then None else Some 7%Z)) in
    match generateContent p sv with
    | (Fails m, sv1) => (Rejects m, sv1)
    | (Text emailBody, sv1) =>
        let subjectPrompt :=
          generateSubjectPrompt (template_type context) (ctx_company_name context) in
        match generateContent subjectPrompt sv1 with
        | (Fails m, sv2) => (Rejects m, sv2)
        | (Text t, sv2) =>
            let emailSubject := trim t in
            (Resolves (mkEmail (strip_quotes emailSubject) (trim emailBody)), sv2)
        end
    end.

(** [generateEmail(context)]: what the [try] block throws is logged and
    thrown again under a new message. *)
Definition generateEmail (context : EmailGenerationContext) (sv : Service)
    : Generated Email * Service :=
  match generateEmail_try context sv with
  | (Resolves e, sv') => (Resolves e, sv')
  | (Rejects m, sv') =>
      (Rejects ("Failed to generate email: " +:+ m),
       mkService (prompts_sent sv')
                 (console sv' ++ [mkLog level_error "Error generating email:" (Some m)]))
  end.

End Generation.

End AIEmailGeneration.

(** ** screens/EmailComposeScreen.tsx *)
Module EmailComposeScreen.
Import JsString Types Console AIEmailService AIEmailGeneration.

Record State := mkState {
  enquiry : option Enquiry;
  company : option Company;
  contact : option Contact;
  selectedTemplate : EmailTemplateType;
  emailSubject : string;
  emailBody : string;
  editMode : bool;
  generating : bool;
  error : option string;
  service : Service
}.

Section Screen.

Variable apiKey : string.
Variable prompt : EmailTemplateType -> PromptContext -> string.
Variable model : nat -> string -> Answer.

(** The [catch] and [finally] of [handleGenerateEmail]: every value thrown
    in its [try] block is an [Error]. *)
Definition failed (m : string) (sv : Service) (st : State) : State :=
  mkState (enquiry st) (company st) (contact st) (selectedTemplate st)
          (emailSubject st) (emailBody st) (editMode st) false (Some m)
          (mkService (prompts_sent sv)
             (AIEmailGeneration.console sv
              ++ [mkLog level_error "Generate error:" (Some m)])).

Definition handleGenerateEmail (st : State) : State :=
  match company st, enquiry st with
  | Some c, Some e =>
      let context :=
        mkContext (selectedTemplate st) (company_name_ c)
                  (option_map contact_name_ (contact st)) (status e)
                  (product_interest e) (estimated_value e) in
      match generateEmail apiKey prompt model context (service st) with
      | (Resolves email, sv) =>
          let validation := validateResponse (body email) in
          if negb (isValid validation)
          then failed ("Generated content validation failed: "
                       +:+ message validation) sv st
          else mkState (enquiry st) (company st) (contact st) (selectedTemplate st)
                       (subject email) (body email) true false None sv
      | (Rejects m, sv) => failed m sv st
      end
  | _, _ => failed "Missing required data" (service st) st
  end.

End Screen.

End EmailComposeScreen.

(** ** Sample data the examples run on *)
Module Samples.
Import Types.



Definition paragraph : string :=
  "Dear Ms Rao, thank you for your enquiry about our industrial pumps. "
  +:+ "We have reviewed your requirements and would be glad to arrange a "
  +:+ "short call this week to discuss pricing and delivery. Kind regards".

Definition acme : Company :=
  mkCompany "c1" "Acme Pumps" "1 Mill Road" "Manufacturing" None None "asha"
            "2024-01-02" "2024-01-02".

Definition rao : Contact :=
  mkContact "k1" "c1" "Meera Rao" "Buyer" (Some "555-0101")
            (Some "meera@acme.example") true None "2024-01-03".

Definition pumps : Enquiry :=
  mkEnquiry "e1" "c1" (Some "k1") "2024-03-01" st_new "Industrial pumps"
            (Some 12000%Z) None (Some "2024-03-15") "asha"
            "2024-03-01" "2024-03-01".

(** An enquiry whose company row is gone and which has no contact. *)
Definition valves : Enquiry :=
  mkEnquiry "e2" "c9" None "2024-04-01" st_quoted "Gate valves"
            None None None "ravi" "2024-04-01" "2024-04-01".

Definition tables : Postgrest.Database :=
  Postgrest.mkDb [acme] [rao] [pumps; valves] [].

Definition accepts_all : Postgrest.Request -> option Postgrest.PostgrestError :=
  fun _ => None.

Definition network_error : Postgrest.PostgrestError :=
  Postgrest.mkError "" "Network request failed" true.

Definition rejects_all : Postgrest.Request -> option Postgrest.PostgrestError :=
  fun _ => Some network_error.

Definition online : SupabaseService.World :=
  SupabaseService.mkWorld (Postgrest.mkServer tables accepts_all) [].

Definition offline : SupabaseService.World :=
  SupabaseService.mkWorld (Postgrest.mkServer tables rejects_all) [].

(** A backend holding 1001 enquiries. *)
Definition crowded : SupabaseService.World :=
  SupabaseService.mkWorld
    (Postgrest.mkServer (Postgrest.mkDb [acme] [rao] (replicate 1001 pumps) [])
                        accepts_all) [].

Definition list_screen : EnquiryListScreen.State :=
  EnquiryListScreen.mkState [] [] ""
    (mkFilters None None None None None None None) None false.

Definition detail_screen : EnquiryDetailScreen.State :=
  EnquiryDetailScreen.mkState (Some pumps) false true None.

(** One export row with no contact, no value, no follow-up and no notes. *)
Definition bare_row : ExportEnquiryData :=
  mkExport "Acme Pumps" None None None st_new "Industrial pumps" None
           "2024-03-01" None None "asha".

Definition phone : ExportUtils.Device :=
  ExportUtils.mkDevice "file:///documents/" ∅ None true [].

Definition tomorrow : Reminder :=
  mkReminder "r1" "e1" "2000" "Call Meera" "Ask about the order" false "1000".

Definition yesterday : Reminder :=
  mkReminder "r2" "e1" "500" "Send quote" "" false "100".

(** Dates written as milliseconds; anything else is an invalid date. *)
Definition parse_millis (text : string) : option Z :=
  Z.of_int <$> NilZero.int_of_string text.

(** A clock that reads 1000 every time. *)
Definition at_1000 : nat -> Z := fun _ => 1000%Z.

(** A service with one notification already scheduled for reminder r7. *)
Definition busy : NotificationService.State NotificationService.Pending :=
  NotificationService.mkState
    {[ "r7" := "notification-0" ]}
    (NotificationService.mkPending 1
       [("notification-0",
         NotificationService.reminder_request tomorrow (Some 2000%Z))])
    [] [] 0.

(** The same bookkeeping on a device without the notification module. *)
Definition stranded : NotificationService.State unit :=
  NotificationService.mkState {[ "r7" := "notification-0" ]} tt [] [] 0.

End Samples.

(** ** More sample data *)
Module MoreSamples.
Import Types.

(** The rules [handleCreateCompany] validates the new-company form with. *)
Definition company_rules : list (string * ValidationUtils.FieldRules) :=
  [ ("name", ValidationUtils.mkRules true (Some 2) (Some 100));
    ("industry", ValidationUtils.mkRules true (Some 2) (Some 50)) ].

Definition good_company_form : gmap string string :=
  {[ "name" := "Acme Pumps"; "industry" := "Manufacturing";
     "address" := ""; "website" := "" ]}.

Definition bad_company_form : gmap string string :=
  {[ "name" := "A"; "industry" := "   "; "address" := ""; "website" := "" ]}.

(** A backend that rejects none of the further requests, and one that
    rejects them all. *)
Definition accepts_more : PostgrestMore.MoreRequest -> option Postgrest.PostgrestError :=
  fun _ => None.

Definition rejects_all_more
    : PostgrestMore.MoreRequest -> option Postgrest.PostgrestError :=
  fun _ => Some Samples.network_error.

(** The sample tables without the enquiry whose company is missing: every
    reference finds its row. *)
Definition tidy_tables : Postgrest.Database :=
  Postgrest.mkDb [Samples.acme] [Samples.rao] [Samples.pumps] [].

Definition tidy : SupabaseService.World :=
  SupabaseService.mkWorld (Postgrest.mkServer tidy_tables Samples.accepts_all) [].

End MoreSamples.

(** Sample data of the compose screen: a model that answers the body
    prompt, then the subject prompt, and fails from the third call on. *)
Module ComposeSamples.
Import Types AIEmailGeneration EmailComposeScreen.

Definition sample_prompt (t : EmailTemplateType) (c : PromptContext) : string :=
  "Write to " +:+ pc_company_name c.

Definition scripted_model (n : nat) (p : string) : Answer :=
  match n with
  | 0 => Text ("  " +:+ Samples.paragraph +:+ " ")
  | 1 => Text "'Pumps for Acme'"
  | _ => Fails "quota exceeded"
  end.

Definition pumps_context : EmailGenerationContext :=
  mkContext initial_response "Acme Pumps" (Some "Meera Rao") st_new
            "Industrial pumps" (Some 12000%Z).

Definition compose_screen : State :=
  mkState (Some Samples.pumps) (Some Samples.acme) (Some Samples.rao)
          initial_response "" "" false false None (mkService [] []).

End ComposeSamples.


(** Bodies at the edges of the validation. *)
Module EdgeSamples.




End EdgeSamples.

(** * Properties *)

(** ** Strings *)
Module JsStringFacts.
Import JsString.

Lemma startsWith_spec (p s : string) :
  startsWith p s = true <-> exists r, s = p +:+ r.
Proof.
  revert s. induction p as [|a p IH]; intros s; simpl.
  - split; [intros _; exists s; reflexivity | reflexivity].
  - destruct s as [|b s].
    + split; [discriminate | intros [r Hr]; discriminate].
    + destruct (Ascii.eqb_spec a b) as [->|Hab].
      * rewrite IH. split; intros [r Hr]; exists r.
        -- simpl. now rewrite Hr.
        -- simpl in Hr. now inversion Hr.
      * split; [discriminate|]. intros [r Hr]. simpl in Hr.
        inversion Hr. congruence.
Qed.

Lemma after_prefix_spec (p s r : string) :
  after_prefix p s = Some r <-> s = p +:+ r.
Proof.
  revert s. induction p as [|a p IH]; intros s; simpl.
  - split; [intros [= ->]; reflexivity | intros ->; reflexivity].
  - destruct s as [|b s].
    + split; discriminate.
    + destruct (Ascii.eqb_spec a b) as [->|Hab].
      * rewrite IH. split; [intros ->; reflexivity | intros [= ->]; reflexivity].
      * split; [discriminate|]. intros [= Hb _]. now subst.
Qed.

Lemma one_line_nil : one_line "".
Proof. constructor. Qed.

Lemma one_line_cons (c : ascii) (s : string) :
  one_line (String c s) <-> is_line_terminator c = false /\ one_line s.
Proof.
  unfold one_line. simpl. split.
  - intros H. inversion H; subst. now split.
  - intros [H1 H2]. now constructor.
Qed.

Lemma lazy_dots_then_unfold (close s : string) :
  lazy_dots_then close s =
  if startsWith close s then true
  else match s with
       | EmptyString => false
       | String c s' =>
           if is_line_terminator c then false else lazy_dots_then close s'
       end.
Proof. destruct s; reflexivity. Qed.

Lemma regex_test_unfold (open close s : string) :
  regex_test open close s =
  (match after_prefix open s with
   | Some rest => lazy_dots_then close rest
   | None => false
   end
   || match s with
      | EmptyString => false
      | String _ s' => regex_test open close s'
      end)%bool.
Proof. destruct s; reflexivity. Qed.

(** The lazy tail succeeds exactly when the closer follows on the same line. *)
Lemma lazy_dots_then_spec (close s : string) :
  lazy_dots_then close s = true <->
  exists mid post, s = mid +:+ (close +:+ post) /\ one_line mid.
Proof.
  split.
  - induction s as [|c s IH]; rewrite lazy_dots_then_unfold;
      destruct (startsWith close _) eqn:Hp.
    + intros _. apply startsWith_spec in Hp as [r Hr].
      exists "", r. split; [exact Hr | apply one_line_nil].
    + discriminate.
    + intros _. apply startsWith_spec in Hp as [r Hr].
      exists "", r. split; [exact Hr | apply one_line_nil].
    + destruct (is_line_terminator c) eqn:Hc; [discriminate|].
      intros H. destruct (IH H) as (mid & post & -> & Hmid).
      exists (String c mid), post. split; [reflexivity|].
      apply one_line_cons. now split.
  - intros (mid & post & -> & Hmid).
    induction mid as [|c mid IH]; rewrite lazy_dots_then_unfold.
    + assert (Hs : startsWith close ("" +:+ (close +:+ post)) = true)
        by (apply startsWith_spec; now exists post).
      now rewrite Hs.
    + change (String c mid +:+ (close +:+ post))
        with (String c (mid +:+ (close +:+ post))).
      destruct (startsWith close _); [reflexivity|].
      apply one_line_cons in Hmid as [Hc Hmid].
      rewrite Hc. now apply IH.
Qed.

(** The matcher decides what the pattern denotes. *)
Lemma regex_test_spec (open close s : string) :
  regex_test open close s = true <-> delimited open close s.
Proof.
  split.
  - induction s as [|c s IH]; rewrite regex_test_unfold; intros H;
      apply orb_true_iff in H as [H|H].
    + destruct (after_prefix open "") as [rest|] eqn:Hp; [|discriminate].
      apply after_prefix_spec in Hp.
      apply lazy_dots_then_spec in H as (mid & post & -> & Hmid).
      exists "", mid, post. now split.
    + discriminate.
    + destruct (after_prefix open (String c s)) as [rest|] eqn:Hp; [|discriminate].
      apply after_prefix_spec in Hp.
      apply lazy_dots_then_spec in H as (mid & post & -> & Hmid).
      exists "", mid, post. now split.
    + destruct (IH H) as (pre & mid & post & -> & Hmid).
      exists (String c pre), mid, post. now split.
  - intros (pre & mid & post & -> & Hmid).
    induction pre as [|c pre IH]; rewrite regex_test_unfold; apply orb_true_iff.
    + left.
      assert (Hp : after_prefix open ("" +:+ (open +:+ (mid +:+ (close +:+ post))))
                   = Some (mid +:+ (close +:+ post)))
        by now apply after_prefix_spec.
      rewrite Hp. apply lazy_dots_then_spec. now exists mid, post.
    + right. exact IH.
Qed.

Lemma length_app (a b : string) :
  String.length (a +:+ b) = String.length a + String.length b.
Proof.
  induction a as [|c a IH]; [reflexivity|].
  change (String c a +:+ b) with (String c (a +:+ b)). simpl. now rewrite IH.
Qed.





Lemma toLowerCase_truthy (s : string) :
  truthy (toLowerCase s) = truthy s.
Proof. destruct s; reflexivity. Qed.

Lemma includes_empty (t : string) :
  truthy t = true -> includes "" t = false.
Proof. destruct t; [discriminate | reflexivity]. Qed.

End JsStringFacts.

(** ** Validation of generated content *)
Module AIEmailServiceFacts.
Import JsString JsStringFacts AIEmailService.

Lemma any_pattern_spec (content : string) :
  any_pattern placeholderPatterns content = true <-> contains_placeholder content.
Proof.
  unfold placeholderPatterns, contains_placeholder. simpl.
  rewrite <- !regex_test_spec.
  destruct (regex_test "[" "]" content); [tauto|].
  destruct (regex_test "{" "}" content); [tauto|].
  destruct (regex_test "{{" "}}" content); [tauto|].
  split; [discriminate | intros [H|[H|H]]; discriminate].
Qed.

Lemma truthy_false (s : string) : truthy s = false <-> s = "".
Proof. destruct s; simpl; split; congruence. Qed.


(** The four checks, in the order the code makes them. *)
Lemma validateResponse_cases (content : string) :
  validateResponse content =
  if Nat.eqb (String.length (trim content)) 0 then
    mkValidation false "Generated content is empty"
  else if Nat.ltb (String.length (trim content)) 50 then
    mkValidation false "Generated content is too short"
  else if Nat.ltb 5000 (String.length content) then
    mkValidation false "Generated content is too long"
  else if any_pattern placeholderPatterns content then
    mkValidation false "Generated content contains unresolved placeholders"
  else mkValidation true "Content validation passed".
Proof.
  unfold validateResponse. destruct content as [|c s]; reflexivity.
Qed.








End AIEmailServiceFacts.

(** ** The data-access layer *)
Module SupabaseServiceFacts.
Import JsString Types Postgrest Console SupabaseService.

(** What the shared body of the three single-record lookups does with each
    kind of response. *)
Lemma lookup_found {T} (q : Server -> Response T) (t : string) (w : World) (d : T) :
  q (server w) = Success d ->
  try_catch (r ← query q; null_when_not_found r) (log_and_rethrow t) w
  = (Resolved (Some d), w).
Proof.
  intros H. unfold try_catch, mbind, Async_bind, bind, query. now rewrite H.
Qed.

Lemma lookup_not_found {T} (q : Server -> Response T) (t : string) (w : World)
    (e : PostgrestError) :
  q (server w) = Failure e -> code e = "PGRST116" ->
  try_catch (r ← query q; null_when_not_found r) (log_and_rethrow t) w
  = (Resolved None, w).
Proof.
  intros H Hc. unfold try_catch, mbind, Async_bind, bind, query.
  rewrite H. unfold null_when_not_found. simpl. now rewrite Hc.
Qed.

Lemma lookup_other_error {T} (q : Server -> Response T) (t : string) (w : World)
    (e : PostgrestError) :
  q (server w) = Failure e -> code e <> "PGRST116" ->
  try_catch (r ← query q; null_when_not_found r) (log_and_rethrow t) w
  = (Rejected e,
     mkWorld (server w) (console w ++ [mkLog level_error t (Some (error_message e))])).
Proof.
  intros H Hc. unfold try_catch, mbind, Async_bind, bind, query.
  rewrite H. unfold null_when_not_found. simpl.
  destruct (String.eqb_spec (code e) "PGRST116") as [Heq|_]; [contradiction|].
  reflexivity.
Qed.

(** C7. For the three single-record lookups (company, contact, enquiry by
    id): when the backend answers with the row-not-found error (code
    PGRST116) the lookup resolves to null and logs nothing; when it answers
    with any other error the lookup logs it and rejects with that error. *)
Theorem single_lookup_not_found_is_null (w : World) (i : string) (e : PostgrestError) :
  (select_company (server w) i = Failure e ->
     (code e = "PGRST116" -> getCompanyById i w = (Resolved None, w))
     /\ (code e <> "PGRST116" ->
         getCompanyById i w
         = (Rejected e,
            mkWorld (server w)
              (console w ++ [mkLog level_error "Error fetching company:"
                               (Some (error_message e))]))))
  /\ (select_contact (server w) i = Failure e ->
     (code e = "PGRST116" -> getContactById i w = (Resolved None, w))
     /\ (code e <> "PGRST116" ->
         getContactById i w
         = (Rejected e,
            mkWorld (server w)
              (console w ++ [mkLog level_error "Error fetching contact:"
                               (Some (error_message e))]))))
  /\ (select_enquiry (server w) i = Failure e ->
     (code e = "PGRST116" -> getEnquiryById i w = (Resolved None, w))
     /\ (code e <> "PGRST116" ->
         getEnquiryById i w
         = (Rejected e,
            mkWorld (server w)
              (console w ++ [mkLog level_error "Error fetching enquiry:"
                               (Some (error_message e))])))).
Proof.
  repeat split; intros Hc.
  - now apply (lookup_not_found (fun s => select_company s i)) with (e := e).
  - now apply (lookup_other_error (fun s => select_company s i)).
  - now apply (lookup_not_found (fun s => select_contact s i)) with (e := e).
  - now apply (lookup_other_error (fun s => select_contact s i)).
  - now apply (lookup_not_found (fun s => select_enquiry s i)) with (e := e).
  - now apply (lookup_other_error (fun s => select_enquiry s i)).
Qed.

(** An unknown company id on a working backend gives null; the same lookup
    on an unreachable backend is logged and rejected. *)
Lemma single_lookup_not_found_is_null_witness :
  getCompanyById "c9" Samples.online = (Resolved None, Samples.online)
  /\ fst (getCompanyById "c9" Samples.offline) = Rejected Samples.network_error
  /\ length (console (snd (getCompanyById "c9" Samples.offline))) = 1.
Proof.
  split; [|split].
  - apply (single_lookup_not_found_is_null Samples.online "c9" PGRST116);
      reflexivity.
  - rewrite (proj2 (proj1 (single_lookup_not_found_is_null
                             Samples.offline "c9" Samples.network_error) eq_refl));
      [reflexivity | discriminate].
  - rewrite (proj2 (proj1 (single_lookup_not_found_is_null
                             Samples.offline "c9" Samples.network_error) eq_refl));
      [reflexivity | discriminate].
Defined.

End SupabaseServiceFacts.

(** ** The export query *)
Module ExportQueryFacts.
Import JsString Types Postgrest Console SupabaseService.

Lemma insert_desc_length (e : Enquiry) (l : list Enquiry) :
  length (insert_desc e l) = S (length l).
Proof.
  induction l as [|x l IH]; simpl; [reflexivity|].
  destruct (String.ltb _ _); simpl; [now rewrite IH | reflexivity].
Qed.

Lemma order_desc_length (l : list Enquiry) :
  length (order_desc l) = length l.
Proof.
  induction l as [|x l IH]; simpl; [reflexivity|].
  now rewrite insert_desc_length, IH.
Qed.

Lemma insert_desc_perm (e : Enquiry) (l : list Enquiry) :
  insert_desc e l ≡ₚ e :: l.
Proof.
  induction l as [|x l IH]; simpl; [reflexivity|].
  destruct (String.ltb _ _); [|reflexivity].
  rewrite IH. apply Permutation_swap.
Qed.

(** Ordering neither drops nor adds a row. *)
Lemma order_desc_perm (l : list Enquiry) : order_desc l ≡ₚ l.
Proof.
  induction l as [|x l IH]; simpl; [reflexivity|].
  now rewrite insert_desc_perm, IH.
Qed.

Lemma ltb_asym (a b : string) :
  String.ltb a b = true -> String.ltb b a = false.
Proof.
  unfold String.ltb. rewrite (String.compare_antisym a b).
  now destruct (String.compare b a).
Qed.

Lemma insert_desc_sorted (e : Enquiry) (l : list Enquiry) :
  newest_first l -> newest_first (insert_desc e l).
Proof.
  unfold newest_first. induction l as [|x l IH]; intros Hs; simpl.
  - repeat constructor.
  - destruct (String.ltb (enquiry_date e) (enquiry_date x)) eqn:E.
    + inversion Hs as [|? ? Hl Hhd]; subst. constructor; [now apply IH|].
      destruct l as [|y l]; simpl.
      * constructor. now apply ltb_asym.
      * destruct (String.ltb (enquiry_date e) (enquiry_date y)).
        -- constructor. now inversion Hhd.
        -- constructor. now apply ltb_asym.
    + constructor; [exact Hs | now constructor].
Qed.

Lemma order_desc_sorted (l : list Enquiry) : newest_first (order_desc l).
Proof.
  induction l as [|x l IH]; simpl; [constructor | now apply insert_desc_sorted].
Qed.

Lemma range_first_1000 {T} (l : list T) :
  range 0 (0 + 1000 - 1) l = take 1000 l.
Proof. reflexivity. Qed.

Lemma Promise_all_length {A} (ps : list (Async A)) (w w' : World) (l : list A) :
  Promise_all ps w = (Resolved l, w') -> length l = length ps.
Proof.
  revert w w' l. induction ps as [|p ps IH]; intros w w' l; simpl.
  - unfold ret. now intros [= <- _].
  - destruct (p w) as [o w1]. destruct (Promise_all ps w1) as [os w2] eqn:E.
    destruct o as [a|e]; [destruct os as [l'|e]|]; intros [= <- _]; simpl.
    f_equal. now apply (IH w1 w2).
Qed.

Lemma Promise_all_pure {A B} (f : A -> Async B) (g : A -> B) (w : World) (l : list A) :
  (forall x, f x w = (Resolved (g x), w)) ->
  Promise_all (map f l) w = (Resolved (map g l), w).
Proof.
  intros H. induction l as [|x l IH]; simpl; [reflexivity|].
  now rewrite H, IH.
Qed.

(** What [getEnquiries] resolves to, and that reading leaves the world as
    it was. *)
Lemma getEnquiries_resolved (F : option EnquiryFilterOptions) (limit offset : Z)
    (w w' : World) (data : list EnquiryWithRelations) :
  getEnquiries F limit offset w = (Resolved data, w') ->
  w' = w
  /\ data = map (with_relations (db (server w)))
              (range offset (offset + limit - 1)
                 (order_desc (filter (fun e => satisfies F e = true)
                                     (enquiries (db (server w)))))).
Proof.
  unfold getEnquiries, try_catch, mbind, Async_bind, bind, query, select_enquiries.
  destruct (rejects (server w) _) as [e|]; simpl.
  - discriminate.
  - now intros [= <- <-].
Qed.

Lemma getEnquiries_accepted (F : option EnquiryFilterOptions) (limit offset : Z)
    (w : World) :
  rejects (server w) (SelectEnquiries F offset (offset + limit - 1)) = None ->
  getEnquiries F limit offset w
  = (Resolved (map (with_relations (db (server w)))
                 (range offset (offset + limit - 1)
                    (order_desc (filter (fun e => satisfies F e = true)
                                        (enquiries (db (server w))))))), w).
Proof.
  intros H.
  unfold getEnquiries, try_catch, mbind, Async_bind, bind, query, select_enquiries.
  now rewrite H.
Qed.

Lemma single_lookup_accepted {T} (rows : list T) (t : string) (w : World) :
  try_catch (r ← query (fun _ => single rows); null_when_not_found r)
            (log_and_rethrow t) w
  = (Resolved (data_of (single rows)), w).
Proof.
  unfold try_catch, mbind, Async_bind, bind, query, single.
  destruct rows as [|r [|r' rows]]; reflexivity.
Qed.

Lemma getCompanyById_accepted (i : string) (w : World) :
  rejects (server w) (SelectCompany i) = None ->
  getCompanyById i w = (Resolved (data_of (single (company_by_id (db (server w)) i))), w).
Proof.
  intros H. rewrite <- (single_lookup_accepted _ "Error fetching company:" w).
  unfold getCompanyById, try_catch, mbind, Async_bind, bind, query, select_company.
  now rewrite H.
Qed.

Lemma getContactById_accepted (i : string) (w : World) :
  rejects (server w) (SelectContact i) = None ->
  getContactById i w = (Resolved (data_of (single (contact_by_id (db (server w)) i))), w).
Proof.
  intros H. rewrite <- (single_lookup_accepted _ "Error fetching contact:" w).
  unfold getContactById, try_catch, mbind, Async_bind, bind, query, select_contact.
  now rewrite H.
Qed.

Lemma export_row_accepted (w : World) (enquiry : EnquiryWithRelations) :
  (forall r, rejects (server w) r = None) ->
  export_row enquiry w = (Resolved (row_of (db (server w)) enquiry), w).
Proof.
  intros H. unfold export_row, row_of, mbind, Async_bind, bind, Promise_all2.
  rewrite (getCompanyById_accepted _ w (H _)).
  destruct (contact_id (base enquiry)) as [c|]; [destruct (truthy c)|];
    try rewrite (getContactById_accepted _ w (H _)); reflexivity.
Qed.

(** C10. The export projection asks for the rows 0 to 999 of the matching
    enquiries ordered by enquiry date, newest first. Whenever it resolves it
    gives [min 1000 n] rows, [n] the number of matching enquiries; on a
    backend that answers every request it resolves, with the rows of the
    first 1000 matching enquiries in that order, so matching enquiries
    beyond the first 1000 are left out of the export. *)
Theorem export_fetches_at_most_1000 (F : option EnquiryFilterOptions) (w : World) :
  let matching :=
    filter (fun e => satisfies F e = true) (enquiries (db (server w))) in
  (forall rows w',
     getEnquiriesForExport F w = (Resolved rows, w') ->
     length rows = Nat.min 1000 (length matching) /\ length rows <= 1000)
  /\ ((forall r, rejects (server w) r = None) ->
      getEnquiriesForExport F w
      = (Resolved (map (row_of (db (server w)))
                     (map (with_relations (db (server w)))
                        (take 1000 (order_desc matching)))), w)
      /\ (1000 < length matching ->
          exists rows, fst (getEnquiriesForExport F w) = Resolved rows
                       /\ length rows = 1000 /\ length rows < length matching)).
Proof.
  intros matching.
  assert (Hlen : length (map (with_relations (db (server w)))
                          (range 0 (0 + 1000 - 1) (order_desc matching)))
                 = Nat.min 1000 (length matching)).
  { now rewrite length_map, range_first_1000, length_take, order_desc_length. }
  split.
  - intros rows w'. unfold getEnquiriesForExport, try_catch.
    unfold mbind at 1, Async_bind at 1, bind at 1.
    destruct (getEnquiries F 1000 0 w) as [[data|e] w1] eqn:E.
    + apply getEnquiries_resolved in E as [-> ->].
      unfold mbind, Async_bind, bind.
      destruct (Promise_all _ w) as [[l|e] w2] eqn:E2; simpl.
      * intros [= <- _]. apply Promise_all_length in E2.
        rewrite length_map in E2. fold matching in E2. rewrite E2, Hlen.
        split; [reflexivity | apply Nat.le_min_l].
      * discriminate.
    + simpl. discriminate.
  - intros Hacc.
    assert (Hres : getEnquiriesForExport F w
              = (Resolved (map (row_of (db (server w)))
                             (map (with_relations (db (server w)))
                                (take 1000 (order_desc matching)))), w)).
    { unfold getEnquiriesForExport, try_catch.
      unfold mbind at 1, Async_bind at 1, bind at 1.
      rewrite (getEnquiries_accepted F 1000 0 w (Hacc _)).
      unfold mbind, Async_bind, bind.
      rewrite (Promise_all_pure export_row (row_of (db (server w))) w);
        [reflexivity | intros x; now apply export_row_accepted]. }
    split; [exact Hres|]. intros Hmany. rewrite Hres. simpl.
    eexists. split; [reflexivity|].
    rewrite !length_map, length_take, order_desc_length.
    rewrite Nat.min_l by (apply Nat.lt_le_incl; exact Hmany).
    split; [reflexivity | exact Hmany].
Qed.

(** On the sample tables both enquiries are exported, newest first. *)
Lemma export_fetches_at_most_1000_witness :
  fst (getEnquiriesForExport None Samples.online)
  = Resolved [row_of Samples.tables (with_relations Samples.tables Samples.valves);
              row_of Samples.tables (with_relations Samples.tables Samples.pumps)]
  /\ exists rows,
       fst (getEnquiriesForExport None Samples.crowded) = Resolved rows
       /\ length rows = 1000
       /\ length rows
          < length (filter (fun e => satisfies None e = true)
                      (enquiries (db (server Samples.crowded)))).
Proof.
  split.
  - rewrite (proj1 (proj2 (export_fetches_at_most_1000 None Samples.online)
                      (fun _ => eq_refl))).
    reflexivity.
  - apply (proj2 (export_fetches_at_most_1000 None Samples.crowded)
             (fun _ => eq_refl)).
    apply Nat.ltb_lt. vm_compute. reflexivity.
Defined.

End ExportQueryFacts.

(** ** The enquiry list: client-side search *)
Module EnquiryListScreenFacts.
Import JsString JsStringFacts Types Postgrest SupabaseService EnquiryListScreen.

Lemma filter_sublist {A} (p : A -> bool) (l : list A) :
  sublist (List.filter p l) l.
Proof.
  induction l as [|x l IH]; simpl; [constructor|].
  destruct (p x); now constructor.
Qed.

Lemma applySearch_empty_term (data : list EnquiryWithRelations) (st : State) :
  filteredEnquiries (applySearch data "" st) = data.
Proof. reflexivity. Qed.

Lemma applySearch_term (data : list EnquiryWithRelations) (term : string) (st : State) :
  truthy term = true ->
  filteredEnquiries (applySearch data term st)
  = List.filter (matches (toLowerCase term)) data.
Proof. intros H. unfold applySearch. now rewrite H. Qed.

Lemma applySearch_sublist (data : list EnquiryWithRelations) (term : string) (st : State) :
  sublist (filteredEnquiries (applySearch data term st)) data.
Proof.
  unfold applySearch. destruct (truthy term); simpl; [apply filter_sublist | reflexivity].
Qed.

(** C2. Whatever the filter set and the search term, the search applied to
    the records the server returned for the filters keeps a sub-collection
    of them (same records, same order), and with the empty term it keeps
    them all, unmodified. *)
Theorem search_narrows_server_filtered
    (F : option EnquiryFilterOptions) (limit offset : Z) (T : string)
    (w w' : World) (records : list EnquiryWithRelations) (st : State) :
  getEnquiries F limit offset w = (Resolved records, w') ->
  sublist (filteredEnquiries (applySearch records T st)) records
  /\ filteredEnquiries (applySearch records T st) ⊆ records
  /\ filteredEnquiries (applySearch records "" st) = records.
Proof.
  intros _. split; [|split].
  - apply applySearch_sublist.
  - apply sublist_subseteq, applySearch_sublist.
  - apply applySearch_empty_term.
Qed.

(** Searching the sample list for "VALVE" keeps the one matching enquiry. *)
Lemma search_narrows_server_filtered_witness :
  filteredEnquiries
    (applySearch [with_relations Samples.tables Samples.valves;
                  with_relations Samples.tables Samples.pumps]
                 "VALVE" Samples.list_screen)
  ⊆ [with_relations Samples.tables Samples.valves;
     with_relations Samples.tables Samples.pumps]
  /\ filteredEnquiries
       (applySearch [with_relations Samples.tables Samples.valves;
                     with_relations Samples.tables Samples.pumps]
                    "VALVE" Samples.list_screen)
     = [with_relations Samples.tables Samples.valves].
Proof.
  split.
  - apply (search_narrows_server_filtered None 100 0 "VALVE"
             Samples.online Samples.online _ Samples.list_screen).
    reflexivity.
  - reflexivity.
Defined.

Lemma missing_company_key (e : EnquiryWithRelations) :
  company e = None -> company_key e = "".
Proof. unfold company_key. now intros ->. Qed.

Lemma missing_contact_key (e : EnquiryWithRelations) :
  contact e = None -> contact_key e = "".
Proof. unfold contact_key. now intros ->. Qed.

Lemma elem_of_filter_bool {A} (p : A -> bool) (l : list A) (x : A) :
  x ∈ List.filter p l <-> x ∈ l /\ p x = true.
Proof.
  rewrite !list_elem_of_In. rewrite List.filter_In. tauto.
Qed.

(** C9. The search is defined on every record collection, also when a
    record has no company or no contact: the missing name counts as the
    empty string, so under a non-empty term such a record is kept exactly
    when one of its remaining fields contains the lowered term. *)
Theorem search_treats_missing_names_as_empty
    (data : list EnquiryWithRelations) (term : string) (st : State)
    (e : EnquiryWithRelations) :
  truthy term = true ->
  (company e = None ->
     company_key e = ""
     /\ (e ∈ filteredEnquiries (applySearch data term st) <->
         e ∈ data
         /\ (includes (contact_key e) (toLowerCase term)
             || includes (product_key e) (toLowerCase term) = true)))
  /\ (contact e = None ->
     contact_key e = ""
     /\ (e ∈ filteredEnquiries (applySearch data term st) <->
         e ∈ data
         /\ (includes (company_key e) (toLowerCase term)
             || includes (product_key e) (toLowerCase term) = true)))
  /\ (company e = None -> contact e = None ->
     (e ∈ filteredEnquiries (applySearch data term st) <->
      e ∈ data /\ includes (product_key e) (toLowerCase term) = true)).
Proof.
  intros Ht.
  assert (Hempty : includes "" (toLowerCase term) = false)
    by (apply includes_empty; now rewrite toLowerCase_truthy).
  rewrite applySearch_term by exact Ht.
  split; [|split].
  - intros Hc. split; [now apply missing_company_key|].
    rewrite elem_of_filter_bool. unfold matches.
    now rewrite (missing_company_key e Hc), Hempty.
  - intros Hk. split; [now apply missing_contact_key|].
    rewrite elem_of_filter_bool. unfold matches.
    rewrite (missing_contact_key e Hk), Hempty.
    now rewrite orb_false_r.
  - intros Hc Hk. rewrite elem_of_filter_bool. unfold matches.
    now rewrite (missing_company_key e Hc), (missing_contact_key e Hk), Hempty.
Qed.

(** The sample enquiry without company and contact is found by its product
    and by nothing else. *)
Lemma search_treats_missing_names_as_empty_witness :
  let e := with_relations Samples.tables Samples.valves in
  company e = None /\ contact e = None
  /\ e ∈ filteredEnquiries (applySearch [e] "gate" Samples.list_screen)
  /\ ~ e ∈ filteredEnquiries (applySearch [e] "acme" Samples.list_screen).
Proof.
  intros e.
  pose proof (search_treats_missing_names_as_empty [e] "gate" Samples.list_screen e
                eq_refl) as (_ & _ & Hgate).
  pose proof (search_treats_missing_names_as_empty [e] "acme" Samples.list_screen e
                eq_refl) as (_ & _ & Hacme).
  split; [reflexivity|]. split; [reflexivity|]. split.
  - apply Hgate; [reflexivity | reflexivity |]. split; [left | reflexivity].
  - intros Hin. apply Hacme in Hin; [|reflexivity|reflexivity].
    destruct Hin as [_ Hin]. vm_compute in Hin. discriminate.
Defined.

End EnquiryListScreenFacts.

(** ** The enquiry detail: status change *)
Module EnquiryDetailScreenFacts.
Import JsString Types Postgrest Console SupabaseService EnquiryDetailScreen.

Lemma apply_only_status (s : EnquiryStatus) (e : Enquiry) :
  apply_updates (only_status s) e = with_status s e.
Proof. reflexivity. Qed.

Lemma with_status_same (e : Enquiry) : with_status (status e) e = e.
Proof. now destruct e. Qed.

Lemma update_rows_frame (i : string) (s : EnquiryStatus) (l : list Enquiry) :
  Forall2 (fun old new => new = with_status (status new) old)
          l (update_rows i (only_status s) l).
Proof.
  induction l as [|x l IH]; simpl; constructor; [|exact IH].
  destruct (bool_decide (id x = i)).
  - now rewrite apply_only_status.
  - now rewrite with_status_same.
Qed.

Lemma frame_refl (l : list Enquiry) :
  Forall2 (fun old new => new = with_status (status new) old) l l.
Proof.
  induction l as [|x l IH]; constructor; [now rewrite with_status_same | exact IH].
Qed.

Lemma update_rows_by_id (i : string) (s : EnquiryStatus) (l : list Enquiry) :
  filter (fun e => id e = i) (update_rows i (only_status s) l)
  = map (with_status s) (filter (fun e => id e = i) l).
Proof.
  induction l as [|x l IH]; [reflexivity|].
  unfold update_rows in *. simpl. rewrite !filter_cons.
  destruct (decide (id x = i)) as [Hx|Hx].
  - rewrite (bool_decide_eq_true_2 _ Hx), apply_only_status. simpl.
    rewrite decide_True by exact Hx. simpl. now rewrite IH.
  - rewrite (bool_decide_eq_false_2 _ Hx).
    rewrite decide_False by exact Hx. exact IH.
Qed.

Lemma update_rows_others (i j : string) (s : EnquiryStatus) (l : list Enquiry) :
  j <> i ->
  filter (fun e => id e = j) (update_rows i (only_status s) l)
  = filter (fun e => id e = j) l.
Proof.
  intros Hj. induction l as [|x l IH]; [reflexivity|].
  unfold update_rows in *. simpl. rewrite !filter_cons.
  destruct (decide (id x = i)) as [Hx|Hx].
  - rewrite (bool_decide_eq_true_2 _ Hx), apply_only_status. simpl.
    rewrite !decide_False by congruence. exact IH.
  - rewrite (bool_decide_eq_false_2 _ Hx). now rewrite IH.
Qed.

(** The world after [handleStatusChange], by the backend's answer. *)
Lemma handleStatusChange_accepted (enquiryId : string) (s : EnquiryStatus)
    (st : State) (w : World) (e : Enquiry) :
  rejects (server w) (UpdateEnquiry enquiryId (only_status s)) = None ->
  enquiry_by_id (db (server w)) enquiryId = [e] ->
  handleStatusChange enquiryId s st w
  = (mkState (Some (with_status s e)) false false (error st),
     mkWorld (mkServer (set_enquiries (db (server w))
                          (update_rows enquiryId (only_status s)
                             (enquiries (db (server w)))))
                       (rejects (server w)))
             (console w)).
Proof.
  intros Hacc He.
  unfold handleStatusChange, updateEnquiry, try_catch, mbind, Async_bind, bind,
    mutation, update_enquiry.
  now rewrite Hacc, He.
Qed.

Lemma handleStatusChange_server (enquiryId : string) (s : EnquiryStatus)
    (st : State) (w : World) :
  server (snd (handleStatusChange enquiryId s st w)) = server w
  \/ server (snd (handleStatusChange enquiryId s st w))
     = mkServer (set_enquiries (db (server w))
                   (update_rows enquiryId (only_status s) (enquiries (db (server w)))))
                (rejects (server w)).
Proof.
  unfold handleStatusChange, updateEnquiry, try_catch, mbind, Async_bind, bind,
    mutation, update_enquiry.
  destruct (rejects (server w) _) as [err|]; [now left|].
  destruct (enquiry_by_id (db (server w)) enquiryId) as [|e [|e' l]];
    [now left | now right | now left].
Qed.

(** C8. The status change sends an update that names the status and nothing
    else. Whatever the backend answers, every stored enquiry keeps all its
    other fields and the other tables are untouched; when the backend
    accepts the update of an existing enquiry, the stored enquiry is the
    old one with exactly the new status, no other enquiry changes, and the
    screen shows the stored enquiry. *)
Theorem status_change_persists_only_status
    (enquiryId : string) (newStatus : EnquiryStatus) (st : State) (w : World) :
  let st' := fst (handleStatusChange enquiryId newStatus st w) in
  let w' := snd (handleStatusChange enquiryId newStatus st w) in
  Forall2 (fun old new => new = with_status (status new) old)
          (enquiries (db (server w))) (enquiries (db (server w')))
  /\ companies (db (server w')) = companies (db (server w))
  /\ contacts (db (server w')) = contacts (db (server w))
  /\ reminders (db (server w')) = reminders (db (server w))
  /\ (forall e,
        rejects (server w) (UpdateEnquiry enquiryId (only_status newStatus)) = None ->
        enquiry_by_id (db (server w)) enquiryId = [e] ->
        enquiry_by_id (db (server w')) enquiryId = [with_status newStatus e]
        /\ status (with_status newStatus e) = newStatus
        /\ (forall j, j <> enquiryId ->
              enquiry_by_id (db (server w')) j = enquiry_by_id (db (server w)) j)
        /\ enquiry st' = Some (with_status newStatus e)).
Proof.
  intros st' w'. repeat split.
  - subst w'. destruct (handleStatusChange_server enquiryId newStatus st w) as [->| ->].
    + apply frame_refl.
    + apply update_rows_frame.
  - subst w'. now destruct (handleStatusChange_server enquiryId newStatus st w) as [->| ->].
  - subst w'. now destruct (handleStatusChange_server enquiryId newStatus st w) as [->| ->].
  - subst w'. now destruct (handleStatusChange_server enquiryId newStatus st w) as [->| ->].
  - subst w'. rewrite (handleStatusChange_accepted _ _ _ _ e H H0). simpl.
    unfold enquiry_by_id in *. simpl. now rewrite update_rows_by_id, H0.
  - intros j Hj. subst w'. rewrite (handleStatusChange_accepted _ _ _ _ e H H0).
    unfold enquiry_by_id. simpl. now apply update_rows_others.
  - subst st'. now rewrite (handleStatusChange_accepted _ _ _ _ e H H0).
Qed.

(** Marking the sample enquiry as won stores it as won and leaves the other
    enquiry as it was. *)
Lemma status_change_persists_only_status_witness :
  enquiries (db (server (snd (handleStatusChange "e1" st_won
                                 Samples.detail_screen Samples.online))))
  = [with_status st_won Samples.pumps; Samples.valves]
  /\ enquiry_by_id
       (db (server (snd (handleStatusChange "e1" st_won
                           Samples.detail_screen Samples.online)))) "e1"
     = [with_status st_won Samples.pumps].
Proof.
  split; [reflexivity|].
  apply (status_change_persists_only_status "e1" st_won
           Samples.detail_screen Samples.online); reflexivity.
Defined.

End EnquiryDetailScreenFacts.

(** ** The export artifact *)
Module ExportUtilsFacts.
Import JsString Types ExportUtils.

(** The labels of a formatted row, in order. *)
Lemma format_item_labels (item : ExportEnquiryData) :
  map fst (format_item item)
  = [ "Company Name"; "Contact Name"; "Contact Email"; "Contact Phone"; "Status";
      "Product Interest"; "Estimated Value"; "Enquiry Date"; "Next Follow-up";
      "Notes"; "Owner" ].
Proof. reflexivity. Qed.

Lemma or_dash_missing : or_dash None = "-".
Proof. reflexivity. Qed.

Lemma or_dash_never_empty (o : option string) : or_dash o <> "".
Proof. destruct o as [[|c s]|]; discriminate. Qed.

(** [formatForExport] does what the specification asks of the artifact:
    eleven columns per row, a dash for every missing optional field. *)
Lemma formatForExport_dashes (data : list ExportEnquiryData) :
  Forall (fun row => length row = 11) (formatForExport data)
  /\ Forall2 (fun item row =>
        (x_contact_name item = None -> get "Contact Name" row = JsStr "-")
        /\ (x_contact_email item = None -> get "Contact Email" row = JsStr "-")
        /\ (x_contact_phone item = None -> get "Contact Phone" row = JsStr "-")
        /\ (x_estimated_value item = None -> get "Estimated Value" row = JsStr "-")
        /\ (x_next_follow_up item = None -> get "Next Follow-up" row = JsStr "-")
        /\ (x_notes item = None -> get "Notes" row = JsStr "-"))
       data (formatForExport data).
Proof.
  unfold formatForExport. split.
  - apply Forall_forall. intros row Hin. apply list_elem_of_In in Hin.
    apply in_map_iff in Hin as (item & <- & _). reflexivity.
  - induction data as [|item data IH]; simpl; constructor; [|exact IH].
    destruct item; simpl. repeat split; intros ->; reflexivity.
Qed.

(** The table [exportToCSV] writes: the header line of the eleven property
    names and one line of eleven cells per row. *)
Lemma Papa_unparse_rows (item : ExportEnquiryData) (data : list ExportEnquiryData) :
  Papa_unparse (map to_object (item :: data))
  = getCSVHeaders
    :: map (fun x => map (fun f => Papa_cell (get f (to_object x))) getCSVHeaders)
           (item :: data).
Proof.
  unfold Papa_unparse. simpl map at 1.
  change (map fst (to_object item)) with getCSVHeaders.
  f_equal. now rewrite map_map.
Qed.

Lemma Papa_unparse_eleven (data : list ExportEnquiryData) :
  Forall (fun line => length line = 11) (Papa_unparse (map to_object data)).
Proof.
  destruct data as [|item data]; [constructor|].
  rewrite Papa_unparse_rows. constructor; [reflexivity|].
  apply Forall_forall. intros line Hin. apply list_elem_of_In in Hin.
  apply in_map_iff in Hin as (x & <- & _). reflexivity.
Qed.

(** A missing optional field reaches the serializer as [undefined] and is
    written as the empty text. *)
Lemma exported_cell_of_missing (item : ExportEnquiryData) :
  x_contact_name item = None ->
  Papa_cell (get "contact_name" (to_object item)) = "".
Proof. destruct item; simpl; intros ->; reflexivity. Qed.

(** C1, on the code. For the one-row export whose row has no contact, no
    value, no follow-up and no notes, the file [exportToCSV] writes has the
    eleven columns in the fixed order, but the six missing fields are
    written as empty cells, not as dashes; [formatForExport], which is never
    applied to the exported rows, is the function that yields the dashes. *)
Theorem export_writes_missing_as_empty :
  let out := exportToCSV [Samples.bare_row] "enquiries.csv" Samples.phone in
  fst (fst out) = Written "file:///documents/enquiries.csv"
  /\ documents (snd (fst out)) !! "file:///documents/enquiries.csv"
     = Some [ getCSVHeaders;
              [ "Acme Pumps"; ""; ""; ""; "new"; "Industrial pumps"; "";
                "2024-03-01"; ""; ""; "asha" ] ]
  /\ map (fun kv => Papa_cell (snd kv)) (format_item Samples.bare_row)
     = [ "Acme Pumps"; "-"; "-"; "-"; "new"; "Industrial pumps"; "-";
         "2024-03-01"; "-"; "-"; "asha" ].
Proof.
  split; [reflexivity|]. split; [|reflexivity].
  simpl. now rewrite lookup_insert_eq.
Qed.

End ExportUtilsFacts.

(** ** The reminder notification scheduler *)
Module NotificationServiceFacts.
Import JsString Types Console NotificationService.
Local Open Scope list_scope.

Section Scheduler.

Context {P : Type}.
Variable platform : Platform P.
Variable Date_parse : string -> option Z.
Variable Date_now : nat -> Z.

Abbreviation schedule := (scheduleReminderNotification platform Date_parse Date_now).
Abbreviation cancel := (cancelReminderNotification platform).
Abbreviation sync := (syncReminders platform Date_parse Date_now).

Lemma count_app (p : Call -> bool) (l1 l2 : list Call) :
  count p (l1 ++ l2) = count p l1 + count p l2.
Proof. unfold count. now rewrite List.filter_app, length_app. Qed.

(** What a successful scheduling leaves behind. *)
Lemma schedule_future (reminder : Reminder) (st : State P) (t : Z) (h : string) (p' : P) :
  Date_parse (reminder_date reminder) = Some t ->
  (Date_now (clock_reads st) < t)%Z ->
  scheduleNotificationAsync platform (reminder_request reminder (Some t)) (device st)
    = (Returns h, p') ->
  truthy h = true ->
  snd (schedule reminder st)
  = mkState (<[reminder_id reminder := h]> (scheduledNotifications st)) p'
            (calls st ++ [ScheduleCall (reminder_request reminder (Some t))])
            (console st) (S (clock_reads st)).
Proof.
  intros Hd Hlt Hp Hh.
  unfold scheduleReminderNotification, new_Date, not_after. rewrite Hd.
  replace (t <=? Date_now (clock_reads st))%Z with false
    by (symmetry; apply Z.leb_gt; exact Hlt).
  unfold scheduleNotification, invoke. simpl.
  fold (reminder_request reminder (Some t)). rewrite Hp. simpl. now rewrite Hh.
Qed.

(** What cancelling a mapped reminder leaves behind, whether or not the
    platform call throws. *)
Lemma cancel_mapped (reminderId h : string) (st : State P) :
  scheduledNotifications st !! reminderId = Some h ->
  truthy h = true ->
  scheduledNotifications (snd (cancel reminderId st))
    = delete reminderId (scheduledNotifications st)
  /\ calls (snd (cancel reminderId st)) = calls st ++ [CancelCall h].
Proof.
  intros Hm Hh. unfold cancelReminderNotification. rewrite Hm, Hh.
  unfold cancelNotification, invoke.
  destruct (cancelScheduledNotificationAsync platform h (device st)) as [[u|err] p'];
    simpl; now split.
Qed.

(** C6. When the reminder's due time is at or before the time the clock
    reads, scheduling it is skipped without an error: the operation
    returns, makes no call into the platform, leaves the platform state and
    the mapping as they were, and only writes a warning to the console. *)
Theorem past_reminder_is_skipped (reminder : Reminder) (st : State P) (t : Z) :
  Date_parse (reminder_date reminder) = Some t ->
  (t <= Date_now (clock_reads st))%Z ->
  schedule reminder st
  = (tt,
     mkState (scheduledNotifications st) (device st) (calls st)
             (console st ++ [mkLog level_warn
                               "Reminder date is in the past, skipping scheduling"
                               None])
             (S (clock_reads st)))
  /\ scheduledNotifications (snd (schedule reminder st)) = scheduledNotifications st
  /\ calls (snd (schedule reminder st)) = calls st
  /\ count is_schedule (calls (snd (schedule reminder st)))
     = count is_schedule (calls st).
Proof.
  intros Hd Hle.
  assert (Hrun : schedule reminder st
            = (tt,
               mkState (scheduledNotifications st) (device st) (calls st)
                 (console st ++ [mkLog level_warn
                                   "Reminder date is in the past, skipping scheduling"
                                   None])
                 (S (clock_reads st)))).
  { unfold scheduleReminderNotification, new_Date, not_after. rewrite Hd.
    replace (t <=? Date_now (clock_reads st))%Z with true
      by (symmetry; apply Z.leb_le; exact Hle).
    reflexivity. }
  rewrite Hrun. repeat split.
Qed.


(** What [syncReminders] does with an empty fetched set, by the answer of
    the platform's cancel-all call. *)
Lemma sync_empty_returns (st : State P) (p' : P) :
  cancelAllScheduledNotificationsAsync platform (device st) = (Returns tt, p') ->
  snd (sync (SupabaseService.Resolved []) st)
  = mkState ∅ p' (calls st ++ [CancelAllCall])
            (console st ++ [mkLog level_log "Synced 0 reminders" None])
            (clock_reads st).
Proof.
  intros Hp. unfold syncReminders, cancelAllNotifications, invoke.
  rewrite Hp. reflexivity.
Qed.

Lemma sync_empty_throws (st : State P) (err : string) (p' : P) :
  cancelAllScheduledNotificationsAsync platform (device st) = (Throws err, p') ->
  snd (sync (SupabaseService.Resolved []) st)
  = mkState (scheduledNotifications st) p' (calls st ++ [CancelAllCall])
            (console st
             ++ [mkLog level_error "Error canceling all notifications:" (Some err)]
             ++ [mkLog level_log "Synced 0 reminders" None])
            (clock_reads st).
Proof.
  intros Hp. unfold syncReminders, cancelAllNotifications, invoke.
  rewrite Hp. simpl. unfold write_console. simpl. now rewrite <- app_assoc.
Qed.

(** C4, as amended. Whatever the mapping holds, [syncReminders] with an
    empty fetched set makes the platform's cancel-all call, exactly once and
    before anything else, and schedules nothing; when that call returns,
    the mapping is empty, and a second run leaves it empty. (When the call
    throws, the mapping is not cleared.) *)
Theorem sync_with_no_reminders_resets (st : State P) :
  let st' := snd (sync (SupabaseService.Resolved []) st) in
  calls st' = calls st ++ [CancelAllCall]
  /\ count is_schedule (calls st') = count is_schedule (calls st)
  /\ (forall p',
        cancelAllScheduledNotificationsAsync platform (device st) = (Returns tt, p') ->
        scheduledNotifications st' = ∅
        /\ device st' = p'
        /\ (forall p'',
              cancelAllScheduledNotificationsAsync platform p' = (Returns tt, p'') ->
              scheduledNotifications (snd (sync (SupabaseService.Resolved []) st')) = ∅)).
Proof.
  intros st'.
  assert (Hcalls : calls st' = calls st ++ [CancelAllCall]).
  { subst st'.
    destruct (cancelAllScheduledNotificationsAsync platform (device st))
      as [[[]|err] p'] eqn:Hp.
    - now rewrite (sync_empty_returns st p' Hp).
    - now rewrite (sync_empty_throws st err p' Hp). }
  split; [exact Hcalls|]. split.
  - rewrite Hcalls, count_app. unfold count. simpl. lia.
  - intros p' Hp.
    assert (Hst' : st' = mkState ∅ p' (calls st ++ [CancelAllCall])
                           (console st ++ [mkLog level_log "Synced 0 reminders" None])
                           (clock_reads st))
      by (subst st'; now apply sync_empty_returns).
    split; [now rewrite Hst'|]. split; [now rewrite Hst'|].
    intros p'' Hp'. rewrite (sync_empty_returns st' p''); [reflexivity|].
    now rewrite Hst'.
Qed.

End Scheduler.


(** On the working platform: a reminder due at 500 is skipped at time 1000. *)
Lemma past_reminder_is_skipped_witness :
  scheduledNotifications
    (snd (scheduleReminderNotification working_platform Samples.parse_millis
            Samples.at_1000 Samples.yesterday Samples.busy))
  = scheduledNotifications Samples.busy
  /\ calls (snd (scheduleReminderNotification working_platform Samples.parse_millis
                   Samples.at_1000 Samples.yesterday Samples.busy))
     = [].
Proof.
  destruct (past_reminder_is_skipped working_platform Samples.parse_millis
              Samples.at_1000 Samples.yesterday Samples.busy 500 eq_refl)
    as (_ & H2 & H3 & _).
  - vm_compute. discriminate.
  - split; [exact H2 | exact H3].
Defined.

(** On the working platform: a sync that fetched nothing cancels the one
    scheduled notification and empties the mapping. *)
Lemma sync_with_no_reminders_resets_witness :
  scheduledNotifications
    (snd (syncReminders working_platform Samples.parse_millis Samples.at_1000
            (SupabaseService.Resolved []) Samples.busy))
  = ∅
  /\ pending (device (snd (syncReminders working_platform Samples.parse_millis
                             Samples.at_1000 (SupabaseService.Resolved [])
                             Samples.busy)))
     = [].
Proof.
  destruct (sync_with_no_reminders_resets working_platform Samples.parse_millis
              Samples.at_1000 Samples.busy) as (_ & _ & H).
  destruct (H (mkPending 1 []) eq_refl) as (Hm & Hd & _).
  split; [exact Hm | now rewrite Hd].
Defined.

(** C4 as stated fails where the platform's cancel-all call throws: the
    sync that fetched nothing logs the error and leaves the entry of r7 in
    the mapping. *)
Lemma sync_with_no_reminders_resets_counterexample :
  scheduledNotifications
    (snd (syncReminders unavailable_platform Samples.parse_millis Samples.at_1000
            (SupabaseService.Resolved []) Samples.stranded))
  = {[ "r7" := "notification-0" ]}
  /\ scheduledNotifications
       (snd (syncReminders unavailable_platform Samples.parse_millis Samples.at_1000
               (SupabaseService.Resolved []) Samples.stranded))
     <> ∅
  /\ console
       (snd (syncReminders unavailable_platform Samples.parse_millis Samples.at_1000
               (SupabaseService.Resolved []) Samples.stranded))
     = [mkLog level_error "Error canceling all notifications:"
              (Some "Notifications are not available");
        mkLog level_log "Synced 0 reminders" None].
Proof.
  split; [reflexivity|]. split; [|reflexivity].
  intros H. apply (f_equal (fun m => m !! "r7")) in H. discriminate H.
Qed.

End NotificationServiceFacts.

(** ** Regular expressions: the matcher decides the language *)
Module RegexFacts.
Import Regex.

Lemma append_nil_r (s : string) : s +:+ "" = s.
Proof.
  induction s as [|c s IH]; [reflexivity|].
  change (String c s +:+ "") with (String c (s +:+ "")). now rewrite IH.
Qed.

Lemma append_eq_nil (s t : string) : s +:+ t = "" -> s = "" /\ t = "".
Proof. destruct s; [now split | discriminate]. Qed.

Lemma append_eq_cons (s t : string) (c : ascii) (u : string) :
  s +:+ t = String c u ->
  (s = "" /\ t = String c u) \/ exists s', s = String c s' /\ u = s' +:+ t.
Proof.
  destruct s as [|d s]; intros H.
  - left. now split.
  - right. change (String d s +:+ t) with (String d (s +:+ t)) in H.
    injection H as -> <-. now exists s.
Qed.

Lemma lang_eps_inv (u : string) : lang Eps u -> u = "".
Proof. intros H. now inversion H. Qed.

Lemma lang_class_inv (p : ascii -> bool) (u : string) :
  lang (Class p) u -> exists c, u = String c "" /\ p c = true.
Proof. intros H. inversion H; subst. now exists c. Qed.

Lemma lang_cat_inv (a b : re) (u : string) :
  lang (Cat a b) u -> exists s t, u = s +:+ t /\ lang a s /\ lang b t.
Proof. intros H. inversion H; subst. now exists s, t. Qed.

Lemma lang_alt_inv (a b : re) (u : string) :
  lang (Alt a b) u -> lang a u \/ lang b u.
Proof. intros H. inversion H; subst; [now left | now right]. Qed.

Lemma lang_star_cons_inv (a : re) (c : ascii) (s : string) :
  lang (Star a) (String c s) ->
  exists s1 s2, s = s1 +:+ s2 /\ lang a (String c s1) /\ lang (Star a) s2.
Proof.
  intros H. remember (Star a) as r eqn:Hr. remember (String c s) as u eqn:Hu.
  revert s Hu. induction H as [| | | | | |a0 s0 t H1 _ H2 IH2]; intros x Hu;
    try discriminate.
  injection Hr as ->. apply append_eq_cons in Hu as [[-> ->]|(s' & -> & ->)].
  - now apply IH2.
  - now exists s', t.
Qed.

Lemma nullable_spec (r : re) : nullable r = true <-> lang r "".
Proof.
  induction r as [| |p|a IHa b IHb|a IHa b IHb|a IHa]; simpl.
  - split; [discriminate | intros H; inversion H].
  - split; [constructor | reflexivity].
  - split; [discriminate | intros H; inversion H].
  - rewrite andb_true_iff, IHa, IHb. split.
    + intros [H1 H2]. change "" with ("" +:+ ""). now constructor.
    + intros H. apply lang_cat_inv in H as (s & t & E & H1 & H2).
      symmetry in E. apply append_eq_nil in E as [-> ->]. now split.
  - rewrite orb_true_iff, IHa, IHb. split.
    + intros [H|H]; [now apply lang_alt_l | now apply lang_alt_r].
    + apply lang_alt_inv.
  - split; [constructor | reflexivity].
Qed.

Lemma deriv_spec (c : ascii) (r : re) (s : string) :
  lang (deriv c r) s <-> lang r (String c s).
Proof.
  revert s. induction r as [| |p|a IHa b IHb|a IHa b IHb|a IHa]; intros s; simpl.
  - split; intros H; inversion H.
  - split; intros H; [inversion H | apply lang_eps_inv in H; discriminate].
  - destruct (p c) eqn:E; split; intros H.
    + apply lang_eps_inv in H as ->. now constructor.
    + apply lang_class_inv in H as (d & [= -> ->] & _). constructor.
    + inversion H.
    + apply lang_class_inv in H as (d & [= -> _] & Hd). congruence.
  - assert (Hleft : forall u, lang (Cat (deriv c a) b) u -> lang (Cat a b) (String c u)).
    { intros u H. apply lang_cat_inv in H as (s1 & s2 & -> & H1 & H2).
      apply IHa in H1. change (String c (s1 +:+ s2)) with (String c s1 +:+ s2).
      now constructor. }
    destruct (nullable a) eqn:N; split; intros H.
    + apply lang_alt_inv in H as [H|H]; [now apply Hleft|].
      apply IHb in H. change (String c s) with ("" +:+ String c s).
      constructor; [now apply nullable_spec | exact H].
    + apply lang_cat_inv in H as (s1 & s2 & E & H1 & H2). symmetry in E.
      apply append_eq_cons in E as [[-> ->]|(s' & -> & ->)].
      * apply lang_alt_r. now apply IHb.
      * apply lang_alt_l. constructor; [now apply IHa | exact H2].
    + now apply Hleft.
    + apply lang_cat_inv in H as (s1 & s2 & E & H1 & H2). symmetry in E.
      apply append_eq_cons in E as [[-> ->]|(s' & -> & ->)].
      * apply nullable_spec in H1. congruence.
      * constructor; [now apply IHa | exact H2].
  - split; intros H.
    + apply lang_alt_inv in H as [H|H];
        [apply lang_alt_l; now apply IHa | apply lang_alt_r; now apply IHb].
    + apply lang_alt_inv in H as [H|H];
        [apply lang_alt_l; now apply IHa | apply lang_alt_r; now apply IHb].
  - split; intros H.
    + apply lang_cat_inv in H as (s1 & s2 & -> & H1 & H2). apply IHa in H1.
      change (String c (s1 +:+ s2)) with (String c s1 +:+ s2). now constructor.
    + apply lang_star_cons_inv in H as (s1 & s2 & -> & H1 & H2).
      constructor; [now apply IHa | exact H2].
Qed.

(** The matcher accepts exactly the strings of the language. *)
Lemma test_whole_spec (r : re) (s : string) :
  test_whole r s = true <-> lang r s.
Proof.
  revert r. induction s as [|c s IH]; intros r; simpl.
  - apply nullable_spec.
  - rewrite IH. apply deriv_spec.
Qed.

Lemma lang_star_class (p : ascii -> bool) (s : string) :
  lang (Star (Class p)) s <-> all_chars p s = true.
Proof.
  split.
  - intros H. remember (Star (Class p)) as r eqn:Hr.
    induction H as [| | | | | |a s0 t H1 _ H2 IH2]; try discriminate.
    + reflexivity.
    + injection Hr as ->. apply lang_class_inv in H1 as (c & -> & Hc).
      change (String c "" +:+ t) with (String c t). simpl.
      now rewrite Hc, IH2.
  - induction s as [|c s IH]; simpl; intros H; [constructor|].
    apply andb_true_iff in H as [Hc Hs].
    change (String c s) with (String c "" +:+ s).
    constructor; [now constructor | now apply IH].
Qed.

Lemma lang_plus_class (p : ascii -> bool) (s : string) :
  lang (Plus (Class p)) s <-> s <> "" /\ all_chars p s = true.
Proof.
  unfold Plus. split.
  - intros H. apply lang_cat_inv in H as (s1 & s2 & -> & H1 & H2).
    apply lang_class_inv in H1 as (c & -> & Hc). apply lang_star_class in H2.
    change (String c "" +:+ s2) with (String c s2). simpl.
    split; [discriminate | now rewrite Hc, H2].
  - intros [Hne H]. destruct s as [|c s]; [contradiction|]. simpl in H.
    apply andb_true_iff in H as [Hc Hs].
    change (String c s) with (String c "" +:+ s).
    constructor; [now constructor | now apply lang_star_class].
Qed.

Lemma lang_at_least_class (n : nat) (p : ascii -> bool) (s : string) :
  lang (AtLeast n (Class p)) s <-> n <= String.length s /\ all_chars p s = true.
Proof.
  revert s. induction n as [|n IH]; intros s; unfold AtLeast in *; simpl.
  - split.
    + intros H. apply lang_cat_inv in H as (s1 & s2 & -> & H1 & H2).
      apply lang_eps_inv in H1 as ->. apply lang_star_class in H2.
      split; [lia | exact H2].
    + intros [_ H]. change s with ("" +:+ s).
      constructor; [constructor | now apply lang_star_class].
  - split.
    + intros H. apply lang_cat_inv in H as (s12 & s3 & -> & H12 & H3).
      apply lang_cat_inv in H12 as (s1 & s2 & -> & H1 & H2).
      apply lang_class_inv in H1 as (c & -> & Hc).
      change ((String c "" +:+ s2) +:+ s3) with (String c (s2 +:+ s3)).
      assert (Hrest : lang (Cat (Repeat n (Class p)) (Star (Class p))) (s2 +:+ s3))
        by now constructor.
      apply IH in Hrest as [Hlen Hall]. simpl. rewrite Hc, Hall.
      split; [lia | reflexivity].
    + intros [Hlen H]. destruct s as [|c s]; [simpl in Hlen; lia|].
      simpl in Hlen, H. apply andb_true_iff in H as [Hc Hs].
      assert (Hrest : lang (Cat (Repeat n (Class p)) (Star (Class p))) s)
        by (apply IH; split; [lia | exact Hs]).
      apply lang_cat_inv in Hrest as (s2 & s3 & -> & H2 & H3).
      change (String c (s2 +:+ s3)) with ((String c "" +:+ s2) +:+ s3).
      constructor; [|exact H3]. constructor; [now constructor | exact H2].
Qed.

Lemma all_chars_app (p : ascii -> bool) (s t : string) :
  all_chars p (s +:+ t) = all_chars p s && all_chars p t.
Proof.
  induction s as [|c s IH]; [reflexivity|].
  change (String c s +:+ t) with (String c (s +:+ t)). simpl.
  now rewrite IH, andb_assoc.
Qed.

Lemma all_chars_weaken (p q : ascii -> bool) (s : string) :
  (forall c, p c = true -> q c = true) ->
  all_chars p s = true -> all_chars q s = true.
Proof.
  intros Hpq. induction s as [|c s IH]; simpl; [reflexivity|].
  intros H. apply andb_true_iff in H as [Hc Hs]. now rewrite (Hpq c Hc), IH.
Qed.

End RegexFacts.

(** ** String utilities *)
Module StringUtilsFacts.
Import JsString Regex RegexFacts StringUtils.
#[local] Arguments String.append : simpl nomatch.

Lemma length_append (a b : string) :
  String.length (a +:+ b) = String.length a + String.length b.
Proof. induction a as [|c a IH]; simpl; [reflexivity | now rewrite IH]. Qed.

Lemma substring_0_length (n : nat) (s : string) :
  String.length (String.substring 0 n s) = Nat.min n (String.length s).
Proof.
  revert s. induction n as [|n IH]; intros [|c s]; simpl; try reflexivity.
  now rewrite IH.
Qed.

Lemma substring_0_prefix (n : nat) (s : string) :
  exists rest, s = String.substring 0 n s +:+ rest.
Proof.
  revert s. induction n as [|n IH]; intros [|c s]; simpl.
  - now exists "".
  - now exists (String c s).
  - now exists "".
  - destruct (IH s) as [rest Hrest]. exists rest. now rewrite <- Hrest.
Qed.

(** X1. [truncate] returns a text that fits unchanged. A longer text is cut
    so that, with the suffix, it has exactly [maxLength] characters: a
    beginning of the text followed by the suffix - provided the suffix
    itself fits. When the suffix is longer than [maxLength] the result is
    the suffix alone, which is longer than [maxLength]. *)
Theorem truncate_length (text suffix : string) (maxLength : Z) :
  ((Z.of_nat (String.length text) <= maxLength)%Z ->
     truncate text maxLength suffix = text)
  /\ ((maxLength < Z.of_nat (String.length text))%Z ->
      (Z.of_nat (String.length suffix) <= maxLength)%Z ->
      Z.of_nat (String.length (truncate text maxLength suffix)) = maxLength
      /\ exists kept rest,
           text = kept +:+ rest
           /\ truncate text maxLength suffix = kept +:+ suffix)
  /\ ((maxLength < Z.of_nat (String.length text))%Z ->
      (maxLength < Z.of_nat (String.length suffix))%Z ->
      truncate text maxLength suffix = suffix).
Proof.
  unfold truncate, substring_to. repeat split.
  - intros H. now rewrite (proj2 (Z.leb_le _ _) H).
  - rewrite (proj2 (Z.leb_gt _ _) H).
    rewrite length_append, substring_0_length. lia.
  - rewrite (proj2 (Z.leb_gt _ _) H).
    destruct (substring_0_prefix
                (Z.to_nat (maxLength - Z.of_nat (String.length suffix))) text)
      as [rest Hrest].
    now exists (String.substring 0
                  (Z.to_nat (maxLength - Z.of_nat (String.length suffix))) text),
               rest.
  - intros H1 H2. rewrite (proj2 (Z.leb_gt _ _) H1).
    replace (Z.to_nat (maxLength - Z.of_nat (String.length suffix))) with 0 by lia.
    now destruct text.
Qed.

(** A long product name cut to 12 characters; a cut to 2 characters that
    comes out 3 characters long. *)
Lemma truncate_length_witness :
  truncate "Industrial pumps" 12 "..." = "Industria..."
  /\ truncate "Industrial pumps" 2 "..." = "...".
Proof.
  split.
  - destruct (proj1 (proj2 (truncate_length "Industrial pumps" "..." 12))
                ltac:(simpl; lia) ltac:(simpl; lia)) as [_ _].
    reflexivity.
  - apply (proj2 (proj2 (truncate_length "Industrial pumps" "..." 2)));
      simpl; lia.
Defined.

Lemma occurrences_app (c : ascii) (s t : string) :
  occurrences c (s +:+ t) = occurrences c s + occurrences c t.
Proof.
  induction s as [|d s IH]; simpl; [reflexivity|]. rewrite IH. lia.
Qed.

Lemma email_char_no_at (s : string) :
  all_chars email_char s = true -> occurrences "@" s = 0.
Proof.
  induction s as [|d s IH]; [reflexivity|]. intros H.
  change (all_chars email_char (String d s))
    with (email_char d && all_chars email_char s) in H.
  apply andb_true_iff in H as [Hd Hs].
  change (occurrences "@" (String d s))
    with ((if Ascii.eqb "@" d then 1 else 0) + occurrences "@" s).
  rewrite (IH Hs).
  unfold email_char in Hd. apply negb_true_iff, orb_false_iff in Hd as [_ Hd].
  rewrite Ascii.eqb_sym, Hd. reflexivity.
Qed.

Lemma email_char_no_space (c : ascii) :
  email_char c = true -> negb (is_white_space c) = true.
Proof.
  unfold email_char. intros H.
  apply negb_true_iff, orb_false_iff in H as [H _]. now rewrite H.
Qed.

Lemma nonempty_length (s : string) : s <> "" -> 1 <= String.length s.
Proof. destruct s; [contradiction | simpl; lia]. Qed.

(** X2. [isValidEmail] accepts exactly the texts [name@domain.tld] whose
    three parts are non-empty and hold neither white space nor an at sign
    (dots are allowed in each part). An accepted text therefore has exactly
    one at sign, no white space and at least five characters. *)
Theorem isValidEmail_shape (email : string) :
  (isValidEmail email = true <->
   exists name domain tld,
     email = name +:+ "@" +:+ domain +:+ "." +:+ tld
     /\ name <> "" /\ domain <> "" /\ tld <> ""
     /\ all_chars email_char name = true
     /\ all_chars email_char domain = true
     /\ all_chars email_char tld = true)
  /\ (isValidEmail email = true ->
      occurrences "@" email = 1
      /\ all_chars (fun c => negb (is_white_space c)) email = true
      /\ 5 <= String.length email).
Proof.
  assert (Hshape : isValidEmail email = true <->
            exists name domain tld,
              email = name +:+ "@" +:+ domain +:+ "." +:+ tld
              /\ name <> "" /\ domain <> "" /\ tld <> ""
              /\ all_chars email_char name = true
              /\ all_chars email_char domain = true
              /\ all_chars email_char tld = true).
  { unfold isValidEmail, emailRegex. rewrite test_whole_spec. split.
    - intros H.
      apply lang_cat_inv in H as (name & r1 & -> & Hn & H).
      apply lang_cat_inv in H as (at_ & r2 & -> & Ha & H).
      apply lang_cat_inv in H as (domain & r3 & -> & Hd & H).
      apply lang_cat_inv in H as (dot & tld & -> & Ho & Ht).
      apply lang_class_inv in Ha as (c1 & -> & Hc1). apply Ascii.eqb_eq in Hc1 as <-.
      apply lang_class_inv in Ho as (c2 & -> & Hc2). apply Ascii.eqb_eq in Hc2 as <-.
      apply lang_plus_class in Hn as [? ?]. apply lang_plus_class in Hd as [? ?].
      apply lang_plus_class in Ht as [? ?].
      exists name, domain, tld. repeat split; assumption.
    - intros (name & domain & tld & -> & Hn & Hd & Ht & Hn' & Hd' & Ht').
      constructor; [now apply lang_plus_class|].
      constructor; [now constructor|].
      constructor; [now apply lang_plus_class|].
      constructor; [now constructor | now apply lang_plus_class]. }
  split; [exact Hshape|]. intros H.
  apply Hshape in H as (name & domain & tld & -> & Hn & Hd & Ht & Hn' & Hd' & Ht').
  rewrite !occurrences_app, !all_chars_app, !length_append.
  rewrite (email_char_no_at _ Hn'), (email_char_no_at _ Hd'), (email_char_no_at _ Ht').
  rewrite (all_chars_weaken _ _ _ email_char_no_space Hn').
  rewrite (all_chars_weaken _ _ _ email_char_no_space Hd').
  rewrite (all_chars_weaken _ _ _ email_char_no_space Ht').
  pose proof (nonempty_length _ Hn). pose proof (nonempty_length _ Hd).
  pose proof (nonempty_length _ Ht). simpl. repeat split; lia.
Qed.

(** An address of the sample data is accepted; one without a dot after the
    at sign and one with a blank are not. *)
Lemma isValidEmail_shape_witness :
  isValidEmail "meera@acme.example" = true
  /\ occurrences "@" "meera@acme.example" = 1
  /\ isValidEmail "meera@acme" = false
  /\ isValidEmail "meera rao@acme.example" = false.
Proof.
  split; [reflexivity|]. split; [|split; reflexivity].
  apply (proj2 (isValidEmail_shape "meera@acme.example") eq_refl).
Defined.

(** X3. [isValidPhone] accepts exactly the texts of ten or more characters
    that are all digits, white space, hyphens, plus signs or parentheses;
    it does not ask for a digit, so ten blanks pass. *)
Theorem isValidPhone_shape (phone : string) :
  (isValidPhone phone = true <->
   10 <= String.length phone /\ all_chars phone_char phone = true)
  /\ (10 <= String.length phone ->
      all_chars is_white_space phone = true -> isValidPhone phone = true).
Proof.
  assert (Hshape : isValidPhone phone = true <->
            10 <= String.length phone /\ all_chars phone_char phone = true).
  { unfold isValidPhone, phoneRegex. rewrite test_whole_spec.
    apply lang_at_least_class. }
  split; [exact Hshape|]. intros Hlen Hws. apply Hshape. split; [exact Hlen|].
  apply (all_chars_weaken is_white_space); [|exact Hws].
  intros c Hc. unfold phone_char. rewrite Hc. now rewrite orb_true_r.
Qed.

Lemma isValidPhone_shape_witness :
  isValidPhone "          " = true
  /\ isValidPhone "555-0101" = false
  /\ isValidPhone "+91 (80) 555-0101" = true.
Proof.
  split; [|split; reflexivity].
  apply (proj2 (isValidPhone_shape "          ")); [simpl; lia | reflexivity].
Defined.

Lemma remove_non_digits_digits (s : string) :
  all_chars is_digit (remove_non_digits s) = true.
Proof.
  induction s as [|c s IH]; simpl; [reflexivity|].
  destruct (is_digit c) eqn:E; simpl; [now rewrite E|exact IH].
Qed.

(** The text [formatPhoneNumber] builds from ten digits. *)
Lemma ten_digits (s : string) :
  String.length s = 10 -> all_chars is_digit s = true ->
  exists c0 c1 c2 c3 c4 c5 c6 c7 c8 c9,
    s = String c0 (String c1 (String c2 (String c3 (String c4 (String c5
          (String c6 (String c7 (String c8 (String c9 "")))))))))
    /\ is_digit c0 = true /\ is_digit c1 = true /\ is_digit c2 = true
    /\ is_digit c3 = true /\ is_digit c4 = true /\ is_digit c5 = true
    /\ is_digit c6 = true /\ is_digit c7 = true /\ is_digit c8 = true
    /\ is_digit c9 = true.
Proof.
  intros Hlen Hall.
  do 10 (destruct s as [|? s]; [discriminate|]).
  destruct s; [|discriminate]. simpl in Hall.
  repeat (apply andb_true_iff in Hall as [? Hall]).
  do 10 eexists. split; [reflexivity|]. repeat split; assumption.
Qed.

Lemma formatted_digits (phone : string) :
  String.length (remove_non_digits phone) = 10 ->
  remove_non_digits (formatPhoneNumber phone) = remove_non_digits phone
  /\ String.length (formatPhoneNumber phone) = 14
  /\ all_chars phone_char (formatPhoneNumber phone) = true.
Proof.
  intros Hlen. unfold formatPhoneNumber. rewrite Hlen. simpl Nat.eqb. cbv iota.
  destruct (ten_digits _ Hlen (remove_non_digits_digits phone))
    as (c0 & c1 & c2 & c3 & c4 & c5 & c6 & c7 & c8 & c9 & -> &
        H0 & H1 & H2 & H3 & H4 & H5 & H6 & H7 & H8 & H9).
  unfold slice, slice_from, phone_char. simpl.
  rewrite H0, H1, H2, H3, H4, H5, H6, H7, H8, H9. simpl. repeat split.
Qed.

(** X4. [formatPhoneNumber] changes a text only when it holds exactly ten
    digits; the result then has 14 characters, the same ten digits in the
    same order, and is accepted by [isValidPhone]. Formatting twice is
    formatting once. *)
Theorem formatPhoneNumber_canonical (phone : string) :
  (String.length (remove_non_digits phone) <> 10 -> formatPhoneNumber phone = phone)
  /\ (String.length (remove_non_digits phone) = 10 ->
      String.length (formatPhoneNumber phone) = 14
      /\ isValidPhone (formatPhoneNumber phone) = true)
  /\ remove_non_digits (formatPhoneNumber phone) = remove_non_digits phone
  /\ formatPhoneNumber (formatPhoneNumber phone) = formatPhoneNumber phone.
Proof.
  destruct (Nat.eq_dec (String.length (remove_non_digits phone)) 10) as [Hten|Hne].
  - destruct (formatted_digits phone Hten) as (Hdigits & Hlen & Hall).
    split; [intros; contradiction|]. split; [|split].
    + intros _. split; [exact Hlen|].
      unfold isValidPhone, phoneRegex. rewrite test_whole_spec.
      apply lang_at_least_class. split; [lia | exact Hall].
    + exact Hdigits.
    + unfold formatPhoneNumber at 1. rewrite Hdigits, Hten. simpl Nat.eqb. cbv iota.
      unfold formatPhoneNumber. now rewrite Hten.
  - assert (Hid : formatPhoneNumber phone = phone).
    { unfold formatPhoneNumber.
      now rewrite (proj2 (Nat.eqb_neq _ _) Hne). }
    split; [intros _; exact Hid|]. split; [intros; contradiction|].
    now rewrite !Hid.
Qed.

Lemma formatPhoneNumber_canonical_witness :
  formatPhoneNumber "555 010 1234" = "(555) 010-1234"
  /\ isValidPhone (formatPhoneNumber "555 010 1234") = true
  /\ formatPhoneNumber "555-0101" = "555-0101".
Proof.
  split; [reflexivity|]. split.
  - apply (proj1 (proj2 (formatPhoneNumber_canonical "555 010 1234")) eq_refl).
  - apply (proj1 (formatPhoneNumber_canonical "555-0101")). simpl. lia.
Defined.

End StringUtilsFacts.

(** ** Form validation *)
Module ValidationUtilsFacts.
Import JsString ValidationUtils.
#[local] Set Warnings "-clear-no-such-hyp".

Lemma set_error_dom (field message : string) (errs : gmap string string) :
  field <> "__proto__" ->
  dom (set_error field message errs) = dom errs ∪ {[field]}.
Proof.
  intros Hne. unfold set_error.
  destruct (String.eqb_spec field "__proto__"); [contradiction|].
  rewrite dom_insert_L. set_solver.
Qed.

(** The keys [check_field] adds: the field, when it fails a check. *)
Lemma check_field_dom (data : gmap string Value) (errs : gmap string string)
    (field : string) (rules : FieldRules) :
  field <> "__proto__" ->
  text_or_missing (read data field) ->
  exists errs',
    check_field data errs (field, rules) = Some errs'
    /\ dom errs'
       = dom errs ∪ (if field_ok data (field, rules) then ∅ else {[field]}).
Proof.
  intros Hne Htext. unfold check_field, field_ok. cbn [fst snd].
  assert (Hreq : exists ok, isRequired (read data field) = Some ok)
    by (destruct Htext as [->|[->|[v ->]]]; eexists; reflexivity).
  destruct Hreq as [ok ->]. cbn [default].
  destruct (required rules), ok;
    destruct (too_short (read data field) rules);
    destruct (too_long (read data field) rules); cbn [negb andb];
    eexists; (split; [reflexivity|]);
    rewrite ?set_error_dom by exact Hne; set_solver.
Qed.

Lemma validate_dom (data : gmap string Value) (errs : gmap string string)
    (rules : list (string * FieldRules)) :
  (forall field fieldRules, In (field, fieldRules) rules ->
     field <> "__proto__" /\ text_or_missing (read data field)) ->
  exists errs',
    fold_left (fun acc entry =>
                 match acc with
                 | Some errs => check_field data errs entry
                 | None => None
                 end) rules (Some errs) = Some errs'
    /\ dom errs'
       = dom errs
         ∪ list_to_set (map fst (List.filter (fun e => negb (field_ok data e)) rules)).
Proof.
  revert errs. induction rules as [|[field fieldRules] rules IH]; intros errs Hall.
  - exists errs. split; [reflexivity|]. simpl. set_solver.
  - destruct (Hall field fieldRules (or_introl eq_refl)) as [Hne Htext].
    destruct (check_field_dom data errs field fieldRules Hne Htext)
      as (errs1 & Hcheck & Hdom1).
    destruct (IH errs1) as (errs' & Hfold & Hdom).
    { intros f r Hin. apply (Hall f r). now right. }
    exists errs'. split.
    + cbn [fold_left]. rewrite Hcheck. exact Hfold.
    + rewrite Hdom, Hdom1. cbn [List.filter].
      destruct (field_ok data (field, fieldRules)); simpl; set_solver.
Qed.

Lemma truthy_nonempty (v : string) : truthy v = true <-> v <> "".
Proof.
  destruct v; simpl; split; intros H;
    first [reflexivity | discriminate | exfalso; now apply H].
Qed.

Lemma trimmed_nonempty (v : string) :
  Nat.ltb 0 (String.length (trim v)) = true <-> trim v <> "".
Proof.
  destruct (trim v); simpl; split; intros H;
    first [reflexivity | discriminate | exfalso; now apply H].
Qed.

Lemma field_ok_text (data : gmap string Value) (field v : string) (rules : FieldRules) :
  read data field = VString v ->
  field_ok data (field, rules) = true <->
  (required rules = true -> trim v <> "")
  /\ (forall m, v <> "" -> minLength rules = Some m -> m <= String.length v)
  /\ (forall m, v <> "" -> maxLength rules = Some m -> m <> 0 -> String.length v <= m).
Proof.
  intros Hv. unfold field_ok, too_short, too_long. cbn [fst snd]. rewrite Hv.
  cbn [isRequired default length_of truthy_value].
  rewrite !andb_true_iff, !negb_true_iff. split.
  - intros [[Hreq Hmin] Hmax]. repeat split.
    + intros Hr. rewrite Hr in Hreq. simpl in Hreq.
      apply negb_false_iff in Hreq. now apply trimmed_nonempty.
    + intros m Hne Hm. rewrite Hm in Hmin.
      rewrite (proj2 (truthy_nonempty v) Hne) in Hmin.
      destruct (Nat.ltb_spec (String.length v) m) as [Hlt|Hge]; [|exact Hge].
      destruct (Nat.eqb_spec m 0) as [Hm0|Hm0]; [lia | discriminate].
    + intros m Hne Hm Hm0. rewrite Hm in Hmax.
      rewrite (proj2 (truthy_nonempty v) Hne) in Hmax.
      destruct (Nat.ltb_spec m (String.length v)) as [Hlt|Hge]; [|exact Hge].
      destruct (Nat.eqb_spec m 0) as [Hz|Hz]; [contradiction | discriminate].
  - intros (Hreq & Hmin & Hmax). repeat split.
    + destruct (required rules); [|reflexivity]. simpl. apply negb_false_iff.
      now apply trimmed_nonempty, Hreq.
    + destruct (minLength rules) as [m|]; [|reflexivity].
      destruct (truthy v) eqn:Et; [|reflexivity].
      destruct (Nat.eqb_spec m 0) as [Hm0|Hm0]; [reflexivity|].
      destruct (Nat.ltb_spec (String.length v) m) as [Hlt|Hge]; [|reflexivity].
      pose proof (Hmin m (proj1 (truthy_nonempty v) Et) eq_refl). lia.
    + destruct (maxLength rules) as [m|]; [|reflexivity].
      destruct (truthy v) eqn:Et; [|reflexivity].
      destruct (Nat.eqb_spec m 0) as [Hm0|Hm0]; [reflexivity|].
      destruct (Nat.ltb_spec m (String.length v)) as [Hlt|Hge]; [|reflexivity].
      pose proof (Hmax m (proj1 (truthy_nonempty v) Et) eq_refl Hm0). lia.
Qed.

Lemma field_ok_missing (data : gmap string Value) (field : string) (rules : FieldRules) :
  read data field = VUndefined \/ read data field = VNull ->
  field_ok data (field, rules) = negb (required rules).
Proof.
  intros H. unfold field_ok, too_short, too_long. cbn [fst snd].
  destruct H as [-> | ->]; cbn [isRequired default length_of];
    destruct (required rules), (minLength rules), (maxLength rules); reflexivity.
Qed.

Lemma field_ok_spec (data : gmap string Value) (field : string) (rules : FieldRules) :
  text_or_missing (read data field) ->
  field_ok data (field, rules) = true <->
  (required rules = true ->
     exists v, read data field = VString v /\ trim v <> "")
  /\ (forall v m, read data field = VString v -> v <> "" ->
        minLength rules = Some m -> m <= String.length v)
  /\ (forall v m, read data field = VString v -> v <> "" ->
        maxLength rules = Some m -> m <> 0 -> String.length v <= m).
Proof.
  intros [Hu|[Hn|[v Hv]]].
  - rewrite field_ok_missing by now left. rewrite Hu. split.
    + intros Hr. repeat split; try discriminate.
      intros Hreq. rewrite Hreq in Hr. discriminate.
    + intros (Hreq & _). destruct (required rules); [|reflexivity].
      destruct (Hreq eq_refl) as (v & Hv & _). discriminate.
  - rewrite field_ok_missing by now right. rewrite Hn. split.
    + intros Hr. repeat split; try discriminate.
      intros Hreq. rewrite Hreq in Hr. discriminate.
    + intros (Hreq & _). destruct (required rules); [|reflexivity].
      destruct (Hreq eq_refl) as (v & Hv & _). discriminate.
  - rewrite (field_ok_text data field v rules Hv), Hv. split.
    + intros (Hreq & Hmin & Hmax). repeat split.
      * intros Hr. exists v. split; [reflexivity | now apply Hreq].
      * intros v' m [= <-]. apply Hmin.
      * intros v' m [= <-]. apply Hmax.
    + intros (Hreq & Hmin & Hmax). repeat split.
      * intros Hr. now destruct (Hreq Hr) as (v' & [= <-] & Hne).
      * intros m. now apply Hmin.
      * intros m. now apply Hmax.
Qed.

Lemma no_failing_field (data : gmap string Value) (rules : list (string * FieldRules)) :
  List.filter (fun e => negb (field_ok data e)) rules = [] <->
  forall field fieldRules, In (field, fieldRules) rules ->
    field_ok data (field, fieldRules) = true.
Proof.
  induction rules as [|[f r] rules IH]; simpl.
  - split; [intros _ ? ? [] | reflexivity].
  - destruct (field_ok data (f, r)) eqn:E; simpl.
    + rewrite IH. split.
      * intros H field fieldRules [[= <- <-]|Hin]; [exact E | now apply H].
      * intros H field fieldRules Hin. apply H. now right.
    + split; [discriminate|]. intros H.
      rewrite (H f r (or_introl eq_refl)) in E. discriminate.
Qed.

(** X5. For form data whose ruled fields hold text or nothing - no ruled
    field reads a number, a boolean or a property every object inherits,
    and none is named [__proto__] - [validateFormData] returns, and it
    reports the form valid exactly when every field of the rules passes: a
    required field has a value that is not blank; a non-empty value has at
    least [minLength] characters and, for a [maxLength] other than 0, at
    most [maxLength] (an empty or missing value is never too short, and
    [maxLength: 0] checks nothing). The keys of [errors] are exactly the
    fields that fail. *)
Theorem validateFormData_valid (data : gmap string Value)
    (rules : list (string * FieldRules)) :
  (forall field fieldRules, In (field, fieldRules) rules ->
     field <> "__proto__" /\ text_or_missing (read data field)) ->
  exists result,
    validateFormData data rules = Some result
    /\ (valid result = true <->
        forall field fieldRules, In (field, fieldRules) rules ->
          (required fieldRules = true ->
             exists v, read data field = VString v /\ trim v <> "")
          /\ (forall v m, read data field = VString v -> v <> "" ->
                minLength fieldRules = Some m -> m <= String.length v)
          /\ (forall v m, read data field = VString v -> v <> "" ->
                maxLength fieldRules = Some m -> m <> 0 -> String.length v <= m))
    /\ dom (errors result)
       = list_to_set (map fst (List.filter (fun e => negb (field_ok data e)) rules)).
Proof.
  intros Hdomain.
  destruct (validate_dom data ∅ rules Hdomain) as (errs & Hfold & Hdom).
  rewrite dom_empty_L in Hdom.
  assert (Hdom' : dom errs
            = list_to_set (map fst
                (List.filter (fun e => negb (field_ok data e)) rules)))
    by (rewrite Hdom; set_solver).
  exists (mkFormValidation (bool_decide (errs = ∅)) errs).
  split; [unfold validateFormData; now rewrite Hfold|].
  split; [|exact Hdom']. cbn [valid].
  assert (Hvalid : bool_decide (errs = ∅) = true <->
            List.filter (fun e => negb (field_ok data e)) rules = []).
  { rewrite bool_decide_eq_true. split.
    - intros He. rewrite He, dom_empty_L in Hdom'.
      destruct (List.filter _ rules) as [|e l]; [reflexivity|].
      simpl in Hdom'. set_solver.
    - intros Hf. rewrite Hf in Hdom'. simpl in Hdom'. now apply dom_empty_inv_L. }
  rewrite Hvalid, no_failing_field. split.
  - intros Hok field fieldRules Hin.
    apply field_ok_spec; [now apply (Hdomain field fieldRules) | now apply Hok].
  - intros Hall field fieldRules Hin.
    apply field_ok_spec; [now apply (Hdomain field fieldRules) | now apply Hall].
Qed.

(** The new-company form: a filled one passes, one with a one-letter name
    and a blank industry fails on both fields. And two rules on names every
    object inherits: the constructor, a function of one parameter, is
    shorter than two; a required [toString] makes the call throw. *)
Lemma validateFormData_valid_witness :
  (exists result,
     validateFormData (text_form MoreSamples.good_company_form)
                      MoreSamples.company_rules = Some result
     /\ valid result = true)
  /\ (exists result,
        validateFormData (text_form MoreSamples.bad_company_form)
                         MoreSamples.company_rules = Some result
        /\ dom (errors result) = {[ "name"; "industry" ]})
  /\ validateFormData ∅ [("constructor", mkRules false (Some 2) None)]
     = Some (mkFormValidation false
               {[ "constructor" := "constructor must be at least 2 characters" ]})
  /\ validateFormData ∅ [("toString", mkRules true None None)] = None.
Proof.
  assert (Hdomain : forall data : gmap string string,
            forall field fieldRules, In (field, fieldRules) MoreSamples.company_rules ->
              field <> "__proto__"
              /\ text_or_missing (read (text_form data) field)).
  { intros data field fieldRules [[= <- <-]|[[= <- <-]|[]]];
      (split; [discriminate|]); unfold read, text_form;
      rewrite lookup_fmap;
      match goal with |- context [data !! ?k] => destruct (data !! k) end;
      simpl; [right; right; eexists; reflexivity | now left
             | right; right; eexists; reflexivity | now left]. }
  split; [|split; [|split]].
  - destruct (validateFormData_valid (text_form MoreSamples.good_company_form)
                MoreSamples.company_rules (Hdomain _))
      as (result & Hrun & Hvalid & _).
    exists result. split; [exact Hrun|]. apply Hvalid.
    intros field fieldRules [[= <- <-]|[[= <- <-]|[]]]; vm_compute;
      (split; [intros _; eexists; split; [reflexivity | discriminate]|]);
      split; intros v m [= <-] _ [= <-]; intros; lia.
  - destruct (validateFormData_valid (text_form MoreSamples.bad_company_form)
                MoreSamples.company_rules (Hdomain _))
      as (result & Hrun & _ & Hdom).
    exists result. split; [exact Hrun|]. rewrite Hdom. vm_compute. reflexivity.
  - vm_compute. reflexivity.
  - reflexivity.
Defined.

End ValidationUtilsFacts.

(** ** Listing enquiries: filters, order, pages *)
Module GetEnquiriesFacts.
Import JsString JsStringFacts Types Postgrest Console SupabaseService.
Import ExportQueryFacts.
Local Open Scope list_scope.
#[local] Arguments String.append : simpl nomatch.













(** The pattern [getEnquiries] builds always ends in [%], so the backend
    never refuses it. *)
Lemma like_tokens_closed (s : string) (escaped : bool) :
  like_tokens escaped (s +:+ "%") <> None.
Proof.
  revert escaped. induction s as [|c s IH]; intros escaped.
  - destruct escaped; discriminate.
  - change (String c s +:+ "%") with (String c (s +:+ "%")).
    simpl. destruct escaped.
    + specialize (IH false). now destruct (like_tokens false (s +:+ "%")).
    + destruct (Ascii.eqb c "\"); [apply IH|].
      specialize (IH false). now destruct (like_tokens false (s +:+ "%")).
Qed.


Lemma range_sublist {T} (from to : Z) (l : list T) : sublist (range from to l) l.
Proof.
  unfold range. etransitivity; [apply sublist_take | apply sublist_drop].
Qed.

Lemma range_length {T} (offset limit : Z) (l : list T) :
  (0 <= limit)%Z -> length (range offset (offset + limit - 1) l) <= Z.to_nat limit.
Proof.
  intros H. unfold range. rewrite length_take.
  replace (offset + limit - 1 - offset + 1)%Z with limit by lia. lia.
Qed.



Lemma newest_first_take (n : nat) (l : list Enquiry) :
  newest_first l -> newest_first (take n l).
Proof.
  unfold newest_first. revert l. induction n as [|n IH]; intros [|x l] H; simpl;
    try constructor.
  - apply IH. now inversion H.
  - inversion H as [|? ? _ Hhd]; subst.
    destruct l as [|y l]; destruct n; simpl; constructor.
    now inversion Hhd.
Qed.

Lemma base_with_relations (d : Database) (l : list Enquiry) :
  map base (map (with_relations d) l) = l.
Proof. induction l as [|x l IH]; simpl; [reflexivity | now rewrite IH]. Qed.

(** The rows a listing query selects, before the relations are embedded. *)
Lemma selected_rows (F : option EnquiryFilterOptions) (from to : Z) (d : Database)
    (e : Enquiry) :
  e ∈ range from to (order_desc (filter (fun e => satisfies F e = true) (enquiries d))) ->
  e ∈ enquiries d /\ satisfies F e = true.
Proof.
  intros H. apply (sublist_subseteq _ _ (range_sublist _ _ _)) in H.
  rewrite order_desc_perm in H. now apply list_elem_of_filter in H as [? ?].
Qed.



(** A filter object whose criteria are all absent or empty. *)
Lemma blank_filters_satisfied (f : EnquiryFilterOptions) (e : Enquiry) :
  (f_status f = None \/ f_status f = Some []) ->
  (f_owner f = None \/ f_owner f = Some "") ->
  (f_dateFrom f = None \/ f_dateFrom f = Some "") ->
  (f_dateTo f = None \/ f_dateTo f = Some "") ->
  (f_productInterest f = None \/ f_productInterest f = Some "") ->
  (f_companyId f = None \/ f_companyId f = Some "") ->
  satisfies (Some f) e = true.
Proof.
  intros [Hs|Hs] [Ho|Ho] [Hf|Hf] [Ht|Ht] [Hp|Hp] [Hc|Hc];
    unfold satisfies; rewrite Hs, Ho, Hf, Ht, Hp, Hc; reflexivity.
Qed.

Lemma filter_all {A} (P Q : A -> Prop) `{forall x, Decision (P x)}
    `{forall x, Decision (Q x)} (l : list A) :
  (forall x, P x <-> Q x) -> filter P l = filter Q l.
Proof.
  intros HPQ. induction l as [|x l IH]; [reflexivity|].
  rewrite !filter_cons, IH.
  destruct (decide (P x)) as [Hp|Hp], (decide (Q x)) as [Hq|Hq];
    try reflexivity; exfalso; apply HPQ in Hp || apply HPQ in Hq; contradiction.
Qed.

(** X10. An empty status list and empty-string criteria filter nothing: on
    a backend that answers, [getEnquiries] with such a filter object
    resolves to the records it resolves to with no filter at all (it does
    not resolve to the empty list). *)
Theorem blank_filters_filter_nothing (f : EnquiryFilterOptions) (limit offset : Z)
    (w : World) :
  (f_status f = None \/ f_status f = Some []) ->
  (f_owner f = None \/ f_owner f = Some "") ->
  (f_dateFrom f = None \/ f_dateFrom f = Some "") ->
  (f_dateTo f = None \/ f_dateTo f = Some "") ->
  (f_productInterest f = None \/ f_productInterest f = Some "") ->
  (f_companyId f = None \/ f_companyId f = Some "") ->
  (forall r, rejects (server w) r = None) ->
  getEnquiries (Some f) limit offset w = getEnquiries None limit offset w.
Proof.
  intros Hs Ho Hf Ht Hp Hc Hacc.
  rewrite !getEnquiries_accepted by apply Hacc.
  do 5 f_equal. apply filter_all. intros e.
  rewrite (blank_filters_satisfied f e Hs Ho Hf Ht Hp Hc). reflexivity.
Qed.

Lemma blank_filters_filter_nothing_witness :
  fst (getEnquiries (Some (mkFilters (Some []) (Some "") None None None (Some "") None))
                    20 0 Samples.online)
  = Resolved [with_relations Samples.tables Samples.valves;
              with_relations Samples.tables Samples.pumps].
Proof.
  rewrite (blank_filters_filter_nothing
             (mkFilters (Some []) (Some "") None None None (Some "") None)
             20 0 Samples.online);
    try (now left); try (now right); reflexivity.
Defined.

Lemma take_then_take {T} (n m : nat) (l : list T) :
  take n l ++ take m (drop n l) = take (n + m) l.
Proof.
  revert l. induction n as [|n IH]; intros l; simpl.
  - now rewrite drop_0.
  - destruct l as [|x l]; simpl; [now rewrite take_nil | now rewrite IH].
Qed.

(** The order of the query when no two rows share a date. *)
Lemma ascii_compare_trans (a b c : ascii) :
  Ascii.compare a b = Lt -> Ascii.compare b c = Lt -> Ascii.compare a c = Lt.
Proof.
  unfold Ascii.compare. rewrite !N.compare_lt_iff. apply N.lt_trans.
Qed.

Lemma compare_lt_trans (a b c : string) :
  String.compare a b = Lt -> String.compare b c = Lt -> String.compare a c = Lt.
Proof.
  revert b c. induction a as [|x a IH]; intros [|y b] [|z c]; simpl;
    try discriminate; try reflexivity.
  destruct (Ascii.compare x y) eqn:Exy; try discriminate;
    destruct (Ascii.compare y z) eqn:Eyz; try discriminate; intros H1 H2.
  - apply Ascii.compare_eq_iff in Exy as ->. rewrite Eyz. now apply (IH b c).
  - apply Ascii.compare_eq_iff in Exy as ->. now rewrite Eyz.
  - apply Ascii.compare_eq_iff in Eyz as ->. now rewrite Exy.
  - now rewrite (ascii_compare_trans x y z Exy Eyz).
Qed.

Lemma ltb_connected (a b : string) :
  a <> b -> String.ltb a b = negb (String.ltb b a).
Proof.
  intros Hne. unfold String.ltb. rewrite (String.compare_antisym b a).
  destruct (String.compare a b) eqn:E; try reflexivity.
  now apply String.compare_eq_iff in E.
Qed.

Lemma ltb_before (a b c : string) :
  String.ltb a b = true -> String.ltb c b = false -> String.ltb a c = true.
Proof.
  unfold String.ltb. intros Hab Hcb.
  destruct (String.compare a b) eqn:Eab; try discriminate.
  rewrite (String.compare_antisym c b) in Hcb.
  destruct (String.compare b c) eqn:Ebc; simpl in Hcb; try discriminate.
  - apply String.compare_eq_iff in Ebc as <-. now rewrite Eab.
  - now rewrite (compare_lt_trans a b c Eab Ebc).
Qed.

Lemma insert_desc_swap (x y : Enquiry) (l : list Enquiry) :
  enquiry_date x <> enquiry_date y ->
  insert_desc x (insert_desc y l) = insert_desc y (insert_desc x l).
Proof.
  intros Hne. pose proof (ltb_connected _ _ Hne) as Hxy.
  induction l as [|z l IH]; simpl.
  - rewrite Hxy. now destruct (String.ltb (enquiry_date y) (enquiry_date x)).
  - destruct (String.ltb (enquiry_date y) (enquiry_date z)) eqn:Eyz;
      destruct (String.ltb (enquiry_date x) (enquiry_date z)) eqn:Exz; simpl;
      rewrite ?Eyz, ?Exz.
    + now rewrite IH.
    + now rewrite (ltb_before _ _ _ Eyz Exz).
    + now rewrite (ltb_before _ _ _ Exz Eyz).
    + rewrite Hxy. destruct (String.ltb (enquiry_date y) (enquiry_date x)); simpl;
        now rewrite ?Eyz, ?Exz.
Qed.

Lemma order_desc_of_permutation (l l' : list Enquiry) :
  l ≡ₚ l' -> NoDup (map enquiry_date l) -> order_desc l = order_desc l'.
Proof.
  induction 1 as [|x l l' Hp IH|x y l|l l' l'' Hp1 IH1 Hp2 IH2]; intros Hnd.
  - reflexivity.
  - unfold order_desc in *. simpl. rewrite IH; [reflexivity|].
    now apply NoDup_cons_1_2 in Hnd.
  - unfold order_desc. simpl. apply insert_desc_swap.
    simpl in Hnd. apply NoDup_cons_1_1 in Hnd. intros Heq. apply Hnd.
    rewrite Heq. now left.
  - rewrite IH1 by exact Hnd. apply IH2.
    now rewrite <- Hp1.
Qed.

Lemma order_desc_of_sorted (l : list Enquiry) : newest_first l -> order_desc l = l.
Proof.
  induction l as [|x l IH]; intros H; [reflexivity|].
  unfold order_desc in *. simpl. inversion H as [|? ? Hs Hhd]; subst.
  rewrite IH by exact Hs. destruct Hhd as [|y l Hxy]; [reflexivity|].
  simpl. now rewrite Hxy.
Qed.

Lemma newest_first_unique (l rows : list Enquiry) :
  NoDup (map enquiry_date l) -> rows ≡ₚ l -> newest_first rows ->
  rows = order_desc l.
Proof.
  intros Hnd Hp Hs. rewrite <- (order_desc_of_sorted rows Hs).
  symmetry. apply order_desc_of_permutation; [now symmetry | exact Hnd].
Qed.

(** X11. Pages fit together when no two of the matching enquiries share an
    enquiry date. The order the query asks for then leaves no choice (any
    newest-first arrangement of the matching rows is the same list), and on
    a backend that answers, for an offset that is not negative and a
    positive limit, the page at [offset] followed by the page at
    [offset + limit] is the page of twice the limit at [offset]. (With
    shared dates the query does not say in which order they come.) *)
Theorem getEnquiries_pages (F : option EnquiryFilterOptions) (limit offset : Z)
    (w : World) (first second : list EnquiryWithRelations) :
  let matching :=
    filter (fun e => satisfies F e = true) (enquiries (db (server w))) in
  NoDup (map enquiry_date matching) ->
  (0 <= offset)%Z -> (0 < limit)%Z ->
  (forall r, rejects (server w) r = None) ->
  fst (getEnquiries F limit offset w) = Resolved first ->
  fst (getEnquiries F limit (offset + limit) w) = Resolved second ->
  (forall rows, rows ≡ₚ matching -> newest_first rows ->
     first = map (with_relations (db (server w)))
                 (take (Z.to_nat limit) (drop (Z.to_nat offset) rows))
     /\ second = map (with_relations (db (server w)))
                     (take (Z.to_nat limit) (drop (Z.to_nat (offset + limit)) rows)))
  /\ fst (getEnquiries F (2 * limit) offset w) = Resolved (first ++ second).
Proof.
  intros matching Hnd Ho Hl Hacc. rewrite !getEnquiries_accepted by apply Hacc.
  cbn [fst]. fold matching. intros [= <-] [= <-]. unfold range.
  replace (Z.to_nat (offset + limit - 1 - offset + 1)) with (Z.to_nat limit) by lia.
  replace (Z.to_nat (offset + limit + limit - 1 - (offset + limit) + 1))
    with (Z.to_nat limit) by lia.
  replace (Z.to_nat (offset + 2 * limit - 1 - offset + 1))
    with (Z.to_nat limit + Z.to_nat limit) by lia.
  split.
  - intros rows Hp Hs. now rewrite (newest_first_unique matching rows Hnd Hp Hs).
  - f_equal. rewrite <- map_app. f_equal.
    replace (Z.to_nat (offset + limit)) with (Z.to_nat offset + Z.to_nat limit) by lia.
    rewrite <- drop_drop. symmetry. apply take_then_take.
Qed.

Lemma getEnquiries_pages_witness :
  fst (getEnquiries None 2 0 Samples.online)
  = Resolved ([with_relations Samples.tables Samples.valves]
              ++ [with_relations Samples.tables Samples.pumps]).
Proof.
  apply (getEnquiries_pages None 1 0 Samples.online); try reflexivity; try lia.
  apply (bool_decide_unpack _). vm_compute. exact I.
Defined.

End GetEnquiriesFacts.

(** ** The enquiry list: more on the search, and loading *)
Module EnquiryListLoadingFacts.
Import JsString JsStringFacts Types Postgrest Console SupabaseService.
Import EnquiryListScreen EnquiryListScreenFacts EnquiryListLoading.
#[local] Arguments String.append : simpl nomatch.

Lemma includes_unfold (s t : string) :
  includes s t =
  if startsWith t s then true
  else match s with
       | EmptyString => false
       | String _ s' => includes s' t
       end.
Proof. destruct s; reflexivity. Qed.

(** [includes] finds exactly the substrings. *)
Lemma includes_spec (s t : string) :
  includes s t = true <-> exists pre post, s = pre +:+ t +:+ post.
Proof.
  split.
  - induction s as [|c s IH]; rewrite includes_unfold;
      destruct (startsWith t _) eqn:E.
    + intros _. apply startsWith_spec in E as [r Hr]. now exists "", r.
    + discriminate.
    + intros _. apply startsWith_spec in E as [r Hr]. now exists "", r.
    + intros H. destruct (IH H) as (pre & post & ->).
      now exists (String c pre), post.
  - intros (pre & post & ->). induction pre as [|c pre IH];
      rewrite includes_unfold.
    + assert (Hs : startsWith t ("" +:+ t +:+ post) = true)
        by (apply startsWith_spec; now exists post).
      now rewrite Hs.
    + destruct (startsWith t _); [reflexivity | exact IH].
Qed.



Lemma lower_char_idempotent (c : ascii) : lower_char (lower_char c) = lower_char c.
Proof.
  destruct c as [[] [] [] [] [] [] [] []]; reflexivity.
Qed.

Lemma toLowerCase_idempotent (s : string) :
  toLowerCase (toLowerCase s) = toLowerCase s.
Proof.
  induction s as [|c s IH]; simpl; [reflexivity|].
  now rewrite lower_char_idempotent, IH.
Qed.

Lemma or_else_empty (s : string) : or_else s "" = s.
Proof. now destruct s. Qed.





(** X6. With a non-empty term the search keeps a record exactly when the
    term occurs, letter case apart, in the name of its company, in the name
    of its contact or in its product interest. *)
Theorem search_keeps_the_matching (data : list EnquiryWithRelations)
    (term : string) (st : State) (e : EnquiryWithRelations) :
  term <> "" ->
  (e ∈ filteredEnquiries (applySearch data term st) <->
   e ∈ data
   /\ ((exists c, company e = Some c /\ contains_ignoring_case (company_name_ c) term)
       \/ (exists c, contact e = Some c /\ contains_ignoring_case (contact_name_ c) term)
       \/ contains_ignoring_case (product_interest (base e)) term)).
Proof.
  intros Hne.
  assert (Ht : truthy term = true) by (destruct term; [contradiction | reflexivity]).
  assert (Hempty : includes "" (toLowerCase term) = false)
    by (apply includes_empty; now rewrite toLowerCase_truthy).
  rewrite applySearch_term by exact Ht. rewrite elem_of_filter_bool.
  unfold matches, company_key, contact_key, product_key, contains_ignoring_case.
  rewrite !orb_true_iff, !or_else_empty.
  split; intros [Hin H]; (split; [exact Hin|]).
  - destruct H as [[H|H]|H].
    + destruct (company e) as [c|]; [|congruence].
      rewrite or_else_empty in H. left. exists c. split; [reflexivity|].
      now apply includes_spec.
    + destruct (contact e) as [c|]; [|congruence].
      rewrite or_else_empty in H. right. left. exists c. split; [reflexivity|].
      now apply includes_spec.
    + right. right. now apply includes_spec.
  - destruct H as [(c & -> & H)|[(c & -> & H)|H]].
    + left. left. rewrite or_else_empty. now apply includes_spec.
    + left. right. rewrite or_else_empty. now apply includes_spec.
    + right. now apply includes_spec.
Qed.

(** The sample enquiry of Acme is found under "PUMP" (twice over: company
    and product). *)
Lemma search_keeps_the_matching_witness :
  with_relations Samples.tables Samples.pumps
  ∈ filteredEnquiries
      (applySearch [with_relations Samples.tables Samples.valves;
                    with_relations Samples.tables Samples.pumps]
                   "PUMP" Samples.list_screen).
Proof.
  apply (search_keeps_the_matching _ "PUMP" Samples.list_screen); [discriminate|].
  split; [right; left|].
  right. right. now exists "industrial ", "s".
Defined.



Lemma loadEnquiries_accepted (st : State) (w : World) :
  rejects (server w) (SelectEnquiries (Some (filters st)) 0 99) = None ->
  let data :=
    map (with_relations (db (server w)))
      (range 0 99
         (order_desc (filter (fun e => satisfies (Some (filters st)) e = true)
                             (Postgrest.enquiries (db (server w)))))) in
  loadEnquiries st w
  = (setLoading false
       (applySearch data (searchTerm st) (setEnquiries data (setError None st))),
     w).
Proof.
  intros Hr data. unfold loadEnquiries. simpl.
  now rewrite (ExportQueryFacts.getEnquiries_accepted _ 100 0 w Hr).
Qed.

Lemma loadEnquiries_rejected (st : State) (w : World) (err : PostgrestError) :
  rejects (server w) (SelectEnquiries (Some (filters st)) 0 99) = Some err ->
  fst (loadEnquiries st w)
  = setLoading false
      (setError (Some (EnquiryDetailScreen.message_or "Failed to load enquiries" err))
                st).
Proof.
  intros Hr. unfold loadEnquiries, getEnquiries, try_catch, mbind, Async_bind, bind,
    query, select_enquiries. simpl. change (0 + 100 - 1)%Z with 99%Z.
  now rewrite Hr.
Qed.

Lemma applySearch_enquiries (data : list EnquiryWithRelations) (term : string)
    (st : State) :
  enquiries (applySearch data term st) = enquiries st
  /\ error (applySearch data term st) = error st.
Proof. unfold applySearch. now destruct (truthy term). Qed.

(** X8. [loadEnquiries] always ends with the loading flag off. When the
    backend answers, the screen holds the answer (at most 100 records, all
    passing the filters), shows the search of it and no error; when the
    backend rejects the request, both lists stay as they were and the error
    banner is set. Either way the shown list stays a sub-list of the loaded
    one if it was one before. *)
Theorem loadEnquiries_outcome (st : State) (w : World) :
  let st' := fst (loadEnquiries st w) in
  loading st' = false
  /\ (rejects (server w) (SelectEnquiries (Some (filters st)) 0 99) = None ->
      length (enquiries st') <= 100
      /\ Forall (fun e => satisfies (Some (filters st)) (base e) = true) (enquiries st')
      /\ filteredEnquiries st'
         = filteredEnquiries (applySearch (enquiries st') (searchTerm st) st)
      /\ error st' = None)
  /\ (forall err,
        rejects (server w) (SelectEnquiries (Some (filters st)) 0 99) = Some err ->
        enquiries st' = enquiries st
        /\ filteredEnquiries st' = filteredEnquiries st
        /\ error st' = Some (EnquiryDetailScreen.message_or "Failed to load enquiries" err))
  /\ (sublist (filteredEnquiries st) (enquiries st) ->
      sublist (filteredEnquiries st') (enquiries st')).
Proof.
  intros st'. subst st'.
  destruct (rejects (server w) (SelectEnquiries (Some (filters st)) 0 99))
    as [err|] eqn:Hr.
  - rewrite (loadEnquiries_rejected st w err Hr).
    split; [reflexivity|]. split; [discriminate|]. split.
    + intros e [= <-]. repeat split.
    + exact (fun H => H).
  - rewrite (loadEnquiries_accepted st w Hr). cbn [fst].
    set (data := map _ _).
    assert (Hen : enquiries (setLoading false
                    (applySearch data (searchTerm st)
                       (setEnquiries data (setError None st)))) = data)
      by (unfold applySearch; now destruct (truthy (searchTerm st))).
    assert (Hfi : filteredEnquiries (setLoading false
                    (applySearch data (searchTerm st)
                       (setEnquiries data (setError None st))))
                  = filteredEnquiries (applySearch data (searchTerm st) st))
      by (unfold applySearch; now destruct (truthy (searchTerm st))).
    split; [reflexivity|]. split; [|split; [discriminate|]].
    + intros _. rewrite Hen, Hfi. split; [|split; [|split]].
      * subst data. rewrite length_map.
        exact (GetEnquiriesFacts.range_length 0 100
                 (order_desc (filter (fun e => satisfies (Some (filters st)) e = true)
                                     (Postgrest.enquiries (db (server w)))))
                 ltac:(lia)).
      * subst data. apply Forall_forall. intros r Hin.
        apply list_elem_of_fmap in Hin as (e & -> & He).
        now apply GetEnquiriesFacts.selected_rows in He as [_ Hs].
      * reflexivity.
      * unfold applySearch. now destruct (truthy (searchTerm st)).
    + intros _. rewrite Hen, Hfi. apply applySearch_sublist.
Qed.

(** Loading the sample list with the term "gate" typed in; and loading it
    while the backend is unreachable. *)
Lemma loadEnquiries_outcome_witness :
  filteredEnquiries
    (fst (loadEnquiries
            (mkState [] [] "gate" (mkFilters None None None None None None None)
                     None true)
            Samples.online))
  = [with_relations Samples.tables Samples.valves]
  /\ error (fst (loadEnquiries Samples.list_screen Samples.offline))
     = Some "Network request failed".
Proof.
  split; [reflexivity|].
  destruct (loadEnquiries_outcome Samples.list_screen Samples.offline)
    as (_ & _ & Hrej & _).
  destruct (Hrej Samples.network_error eq_refl) as (_ & _ & He). exact He.
Defined.

End EnquiryListLoadingFacts.

(** ** Updating an enquiry: the failure paths *)
Module EnquiryUpdateFacts.
Import JsString Types Postgrest Console SupabaseService EnquiryDetailScreen.
Local Open Scope list_scope.

(** What [updateEnquiry] does when the backend does not answer with a row. *)
Lemma updateEnquiry_rejected (i : string) (u : PartialEnquiry) (w : World)
    (err : PostgrestError) :
  fst (update_enquiry (server w) i u) = Failure err ->
  updateEnquiry i u w
  = (Rejected err,
     mkWorld (server w)
       (console w ++ [mkLog level_error "Error updating enquiry:"
                        (Some (error_message err))])).
Proof.
  unfold updateEnquiry, try_catch, mbind, Async_bind, bind, mutation, update_enquiry.
  destruct (rejects (server w) (UpdateEnquiry i u)) as [e|]; simpl.
  - now intros [= ->].
  - destruct (enquiry_by_id (db (server w)) i) as [|x [|y l]]; simpl;
      try discriminate; now intros [= <-].
Qed.

(** X12. An unknown id is treated differently by reading and by writing:
    on a backend that answers, [getEnquiryById] resolves to null and logs
    nothing, while [updateEnquiry] rejects with the row-not-found error
    (code PGRST116), logs it, and changes no table. *)
Theorem unknown_id_read_null_update_rejects (i : string) (u : PartialEnquiry)
    (w : World) :
  rejects (server w) (SelectEnquiry i) = None ->
  rejects (server w) (UpdateEnquiry i u) = None ->
  enquiry_by_id (db (server w)) i = [] ->
  getEnquiryById i w = (Resolved None, w)
  /\ updateEnquiry i u w
     = (Rejected PGRST116,
        mkWorld (server w)
          (console w ++ [mkLog level_error "Error updating enquiry:"
                           (Some (error_message PGRST116))])).
Proof.
  intros Hsel Hupd Hnone. split.
  - unfold getEnquiryById, try_catch, mbind, Async_bind, bind, query, select_enquiry.
    now rewrite Hsel, Hnone.
  - apply updateEnquiry_rejected. unfold update_enquiry. now rewrite Hupd, Hnone.
Qed.

Lemma unknown_id_read_null_update_rejects_witness :
  getEnquiryById "e9" Samples.online = (Resolved None, Samples.online)
  /\ fst (updateEnquiry "e9" (only_status st_won) Samples.online) = Rejected PGRST116
  /\ server (snd (updateEnquiry "e9" (only_status st_won) Samples.online))
     = server Samples.online.
Proof.
  destruct (unknown_id_read_null_update_rejects "e9" (only_status st_won)
              Samples.online eq_refl eq_refl eq_refl) as [Hget Hupd].
  split; [exact Hget|]. now rewrite Hupd.
Defined.

(** X13. [handleStatusChange] always ends with the saving flag off. When
    the update is rejected - by the backend, or because the enquiry is not
    there - no table changes, the screen keeps the enquiry it showed, the
    status dialog stays open, and the error banner shows the error's
    message (or the fallback text when the error is not an Error object). *)
Theorem rejected_status_change_keeps_everything (enquiryId : string)
    (newStatus : EnquiryStatus) (st : State) (w : World) :
  saving (fst (handleStatusChange enquiryId newStatus st w)) = false
  /\ (forall err,
        fst (update_enquiry (server w) enquiryId (only_status newStatus)) = Failure err ->
        let st' := fst (handleStatusChange enquiryId newStatus st w) in
        let w' := snd (handleStatusChange enquiryId newStatus st w) in
        server w' = server w
        /\ enquiry st' = enquiry st
        /\ showStatusModal st' = showStatusModal st
        /\ error st' = Some (message_or "Failed to update status" err)
        /\ console w'
           = console w
             ++ [mkLog level_error "Error updating enquiry:" (Some (error_message err));
                 mkLog level_error "Status update error:" (Some (error_message err))]).
Proof.
  split.
  - unfold handleStatusChange.
    destruct (updateEnquiry enquiryId (only_status newStatus) w) as [[updated|err] w'];
      reflexivity.
  - intros err Hfail st' w'. subst st' w'. unfold handleStatusChange.
    rewrite (updateEnquiry_rejected _ _ _ _ Hfail). simpl.
    repeat split. now rewrite <- app_assoc.
Qed.

Lemma rejected_status_change_keeps_everything_witness :
  let st' := fst (handleStatusChange "e1" st_won Samples.detail_screen Samples.offline) in
  enquiry st' = Some Samples.pumps
  /\ showStatusModal st' = true
  /\ error st' = Some "Network request failed"
  /\ saving st' = false.
Proof.
  intros st'. subst st'.
  destruct (rejected_status_change_keeps_everything "e1" st_won
              Samples.detail_screen Samples.offline) as [Hsaving Hrej].
  destruct (Hrej Samples.network_error eq_refl) as (_ & He & Hm & Herr & _).
  repeat split; assumption.
Defined.

End EnquiryUpdateFacts.

(** ** The scheduler: invariants and what it never does *)
Module NotificationServiceMoreFacts.
Import JsString Types Console NotificationService NotificationServiceMore.
Local Open Scope list_scope.
#[local] Set Warnings "-clear-no-such-hyp".

Section Scheduler.

Context {P : Type}.
Variable platform : Platform P.
Variable Date_parse : string -> option Z.
Variable Date_now : nat -> Z.

Abbreviation schedule := (scheduleReminderNotification platform Date_parse Date_now).
Abbreviation cancel := (cancelReminderNotification platform).
Abbreviation cancelAll := (cancelAllNotifications platform).
Abbreviation sync := (syncReminders platform Date_parse Date_now).
Abbreviation each := (schedule_each platform Date_parse Date_now).
Abbreviation sendImmediate := (sendImmediateNotification platform Date_now).

(** One scheduling moves the state in one of three ways. *)
Lemma schedule_cases (reminder : Reminder) (st : State P) :
  let st' := snd (schedule reminder st) in
  (scheduledNotifications st' = scheduledNotifications st
   \/ exists h, truthy h = true
        /\ scheduledNotifications st'
           = <[reminder_id reminder := h]> (scheduledNotifications st))
  /\ (calls st' = calls st
      \/ exists request, calls st' = calls st ++ [ScheduleCall request]).
Proof.
  unfold scheduleReminderNotification, new_Date.
  destruct (not_after _ _); simpl; [split; now left|].
  unfold scheduleNotification, invoke. simpl.
  destruct (scheduleNotificationAsync platform _ (device st)) as [[h|err] p']; simpl.
  - destruct (truthy h) eqn:Eh; simpl.
    + split; [right; now exists h | right; eauto].
    + split; [now left | right; eauto].
  - split; [now left | right; eauto].
Qed.

Lemma each_nil (st : State P) : each [] st = (tt, st).
Proof. reflexivity. Qed.

Lemma each_cons (reminder : Reminder) (rest : list Reminder) (st : State P) :
  snd (each (reminder :: rest) st)
  = snd (each rest (if negb (is_completed reminder)
                    then snd (schedule reminder st) else st)).
Proof.
  simpl. destruct (negb (is_completed reminder)); [|reflexivity].
  now destruct (schedule reminder st).
Qed.

Lemma incomplete_ids_cons (reminder : Reminder) (rest : list Reminder) :
  incomplete_ids (reminder :: rest)
  = (if negb (is_completed reminder) then {[reminder_id reminder]} else ∅)
    ∪ incomplete_ids rest.
Proof.
  unfold incomplete_ids. simpl.
  destruct (negb (is_completed reminder)); simpl; set_solver.
Qed.

Lemma each_dom (reminders : list Reminder) (st : State P) :
  dom (scheduledNotifications (snd (each reminders st)))
  ⊆ dom (scheduledNotifications st) ∪ incomplete_ids reminders.
Proof.
  revert st. induction reminders as [|r rest IH]; intros st.
  - rewrite each_nil. set_solver.
  - rewrite each_cons, incomplete_ids_cons. etransitivity; [apply IH|].
    destruct (negb (is_completed r)); [|set_solver].
    destruct (schedule_cases r st) as [[Hm|(h & _ & Hm)] _]; rewrite Hm;
      rewrite ?dom_insert_L; set_solver.
Qed.

Lemma each_handles (reminders : list Reminder) (st : State P) :
  handles_nonempty st -> handles_nonempty (snd (each reminders st)).
Proof.
  revert st. induction reminders as [|r rest IH]; intros st Hst.
  - exact Hst.
  - rewrite each_cons. apply IH.
    destruct (negb (is_completed r)); [|exact Hst].
    unfold handles_nonempty.
    destruct (schedule_cases r st) as [[Hm|(h & Hh & Hm)] _]; rewrite Hm.
    + exact Hst.
    + now apply map_Forall_insert_2.
Qed.

(** The calls a run of the loop adds: schedule calls only, at most one for
    each reminder that is not completed. *)
Lemma each_calls (reminders : list Reminder) (st : State P) :
  exists l,
    calls (snd (each reminders st)) = calls st ++ l
    /\ count is_schedule l
       <= length (List.filter (fun r => negb (is_completed r)) reminders)
    /\ count is_cancel l = 0 /\ count is_cancel_all l = 0.
Proof.
  revert st. induction reminders as [|r rest IH]; intros st.
  - exists []. rewrite each_nil, app_nil_r. simpl. repeat split; apply le_n.
  - rewrite each_cons. simpl List.filter.
    destruct (negb (is_completed r)).
    + destruct (IH (snd (schedule r st))) as (l & Hl & Hs & Hc & Ha).
      destruct (schedule_cases r st) as [_ [Hcalls|(request & Hcalls)]];
        rewrite Hcalls in Hl.
      * exists l. simpl. repeat split; try assumption. lia.
      * exists (ScheduleCall request :: l). rewrite <- app_assoc in Hl.
        unfold count in *. simpl. repeat split; try assumption. lia.
    + destruct (IH st) as (l & Hl & Hs & Hc & Ha). now exists l.
Qed.

Lemma cancelAll_cases (st : State P) :
  let st' := snd (cancelAll st) in
  calls st' = calls st ++ [CancelAllCall]
  /\ (scheduledNotifications st' = ∅
      \/ scheduledNotifications st' = scheduledNotifications st).
Proof.
  unfold cancelAllNotifications, invoke.
  destruct (cancelAllScheduledNotificationsAsync platform (device st)) as [[u|err] p'];
    simpl; split; auto.
Qed.

(** X14. None of the operations ever stores an empty identifier: if every
    identifier in the mapping is non-empty, it is so after scheduling a
    reminder, cancelling one, cancelling all, synchronising (whatever was
    fetched) and sending a test notification. *)
Theorem operations_keep_identifiers_nonempty (st : State P) :
  handles_nonempty st ->
  (forall reminder, handles_nonempty (snd (schedule reminder st)))
  /\ (forall reminderId, handles_nonempty (snd (cancel reminderId st)))
  /\ handles_nonempty (snd (cancelAll st))
  /\ (forall fetched, handles_nonempty (snd (sync fetched st)))
  /\ (forall payload,
        scheduledNotifications (snd (sendImmediate payload st))
        = scheduledNotifications st).
Proof.
  intros Hst. split; [|split; [|split; [|split]]].
  - intros reminder. unfold handles_nonempty.
    destruct (schedule_cases reminder st) as [[Hm|(h & Hh & Hm)] _]; rewrite Hm;
      [exact Hst | now apply map_Forall_insert_2].
  - intros reminderId. unfold handles_nonempty, cancelReminderNotification.
    destruct (scheduledNotifications st !! reminderId) as [h|] eqn:E; [|exact Hst].
    destruct (truthy h); [|exact Hst].
    unfold cancelNotification, invoke.
    destruct (cancelScheduledNotificationAsync platform h (device st))
      as [[u|err] p']; simpl; now apply map_Forall_delete.
  - unfold handles_nonempty.
    destruct (cancelAll_cases st) as [_ [Hm|Hm]]; rewrite Hm;
      [apply map_Forall_empty | exact Hst].
  - intros [reminders|err]; unfold syncReminders; [|exact Hst].
    destruct (cancelAll st) as [u st1] eqn:E1.
    destruct (each reminders st1) as [v st2] eqn:E2.
    change (handles_nonempty st2). replace st2 with (snd (each reminders st1))
      by now rewrite E2.
    apply each_handles. replace st1 with (snd (cancelAll st)) by now rewrite E1.
    unfold handles_nonempty.
    destruct (cancelAll_cases st) as [_ [Hm|Hm]]; rewrite Hm;
      [apply map_Forall_empty | exact Hst].
  - intros payload.
    unfold sendImmediateNotification, scheduleLocalNotification, new_Date,
      scheduleNotification, invoke. simpl.
    now destruct (scheduleNotificationAsync platform _ (device st)) as [[h|err] p'].
Qed.


(** X16. Scheduling a reminder that is already scheduled does not cancel
    its earlier notification: after two successful schedulings and one
    cancel, the platform has been asked to cancel the second identifier
    only - the first notification is never cancelled and its identifier is
    no longer in the mapping. *)
Theorem rescheduling_orphans_the_first_notification (reminder : Reminder)
    (st : State P) (t : Z) (h1 h2 : string) (p1 p2 : P) :
  Date_parse (reminder_date reminder) = Some t ->
  (Date_now (clock_reads st) < t)%Z ->
  (Date_now (S (clock_reads st)) < t)%Z ->
  scheduleNotificationAsync platform (reminder_request reminder (Some t)) (device st)
    = (Returns h1, p1) ->
  scheduleNotificationAsync platform (reminder_request reminder (Some t)) p1
    = (Returns h2, p2) ->
  truthy h1 = true -> truthy h2 = true -> h1 <> h2 ->
  let st2 := snd (schedule reminder (snd (schedule reminder st))) in
  let st3 := snd (cancel (reminder_id reminder) st2) in
  scheduledNotifications st2 !! reminder_id reminder = Some h2
  /\ calls st3
     = calls st ++ [ScheduleCall (reminder_request reminder (Some t));
                    ScheduleCall (reminder_request reminder (Some t));
                    CancelCall h2]
  /\ scheduledNotifications st3 !! reminder_id reminder = None
  /\ (~ In (CancelCall h1) (calls st) -> ~ In (CancelCall h1) (calls st3)).
Proof.
  intros Hd Hlt1 Hlt2 Hp1 Hp2 Hh1 Hh2 Hne st2 st3.
  pose proof (NotificationServiceFacts.schedule_future platform Date_parse Date_now
                reminder st t h1 p1 Hd Hlt1 Hp1 Hh1) as Hs1.
  pose proof (NotificationServiceFacts.schedule_future platform Date_parse Date_now
                reminder (snd (schedule reminder st)) t h2 p2 Hd) as Hs2.
  rewrite Hs1 in Hs2. simpl in Hs2. specialize (Hs2 Hlt2 Hp2 Hh2).
  rewrite <- Hs1 in Hs2. fold st2 in Hs2.
  assert (Hm2 : scheduledNotifications st2 !! reminder_id reminder = Some h2)
    by (rewrite Hs2; simpl; apply lookup_insert_eq).
  destruct (NotificationServiceFacts.cancel_mapped platform (reminder_id reminder)
              h2 st2 Hm2 Hh2) as [Hm3 Hc3]. fold st3 in Hm3, Hc3.
  assert (Hcalls : calls st3
            = calls st ++ [ScheduleCall (reminder_request reminder (Some t));
                           ScheduleCall (reminder_request reminder (Some t));
                           CancelCall h2]).
  { rewrite Hc3, Hs2. simpl. now rewrite <- !app_assoc. }
  split; [exact Hm2|]. split; [exact Hcalls|]. split.
  - rewrite Hm3. apply lookup_delete_eq.
  - intros Hnin. rewrite Hcalls. intros Hin.
    apply in_app_or in Hin as [Hin|Hin]; [contradiction|].
    simpl in Hin. destruct Hin as [Hin|[Hin|[Hin|[]]]]; try discriminate.
    injection Hin as ->. contradiction.
Qed.

(** X17. With the platform's cancel-all call returning, [syncReminders]
    rebuilds the mapping from what was fetched alone: the state after it
    does not depend on the mapping before, the mapped ids are ids of
    fetched reminders that are not completed, and after the cancel-all
    call the platform is only asked to schedule, at most once for each
    such reminder. *)
Theorem sync_rebuilds_the_mapping (reminders : list Reminder) (st : State P)
    (m : gmap string string) (p' : P) :
  cancelAllScheduledNotificationsAsync platform (device st) = (Returns tt, p') ->
  snd (sync (SupabaseService.Resolved reminders) (set_map m st))
  = snd (sync (SupabaseService.Resolved reminders) st)
  /\ dom (scheduledNotifications (snd (sync (SupabaseService.Resolved reminders) st)))
     ⊆ incomplete_ids reminders
  /\ exists l,
       calls (snd (sync (SupabaseService.Resolved reminders) st))
       = calls st ++ CancelAllCall :: l
       /\ count is_schedule l
          <= length (List.filter (fun r => negb (is_completed r)) reminders)
       /\ count is_cancel l = 0 /\ count is_cancel_all l = 0.
Proof.
  intros Hp.
  set (cleared := mkState (∅ : gmap string string) p' (calls st ++ [CancelAllCall])
                          (console st) (clock_reads st)).
  assert (Hsync : forall st0, device st0 = device st -> calls st0 = calls st ->
            console st0 = console st -> clock_reads st0 = clock_reads st ->
            snd (sync (SupabaseService.Resolved reminders) st0)
            = write_console level_log
                ("Synced " +:+ NilZero.string_of_uint (Nat.to_uint (length reminders))
                 +:+ " reminders")
                None (snd (each reminders cleared))).
  { intros st0 Hd Hc Hl Hk. unfold syncReminders, cancelAllNotifications, invoke.
    rewrite Hd, Hp, Hc, Hl, Hk. simpl. unfold set_map. simpl. fold cleared.
    now destruct (each reminders cleared). }
  split; [|split].
  - rewrite (Hsync st), (Hsync (set_map m st)); reflexivity.
  - rewrite (Hsync st) by reflexivity. simpl.
    etransitivity; [apply each_dom|]. subst cleared. simpl. set_solver.
  - rewrite (Hsync st) by reflexivity. simpl.
    destruct (each_calls reminders cleared) as (l & Hl & Hrest).
    exists l. split; [|exact Hrest].
    rewrite Hl. subst cleared. simpl. now rewrite <- app_assoc.
Qed.

End Scheduler.

Lemma busy_identifiers_nonempty : handles_nonempty Samples.busy.
Proof. unfold handles_nonempty. simpl. now apply map_Forall_singleton. Qed.

(** On the working platform the sample service keeps usable identifiers
    when the reminder due at 2000 is scheduled. *)
Lemma operations_keep_identifiers_nonempty_witness :
  handles_nonempty Samples.busy
  /\ handles_nonempty
       (snd (scheduleReminderNotification working_platform Samples.parse_millis
               Samples.at_1000 Samples.tomorrow Samples.busy)).
Proof.
  split; [exact busy_identifiers_nonempty|].
  apply (operations_keep_identifiers_nonempty working_platform Samples.parse_millis
           Samples.at_1000 Samples.busy busy_identifiers_nonempty).
Defined.


(** On the working platform: the reminder due at 2000 is scheduled twice
    and cancelled once; its first notification is still pending. *)
Lemma rescheduling_orphans_the_first_notification_witness :
  let st2 := snd (scheduleReminderNotification working_platform Samples.parse_millis
                    Samples.at_1000 Samples.tomorrow
                    (snd (scheduleReminderNotification working_platform
                            Samples.parse_millis Samples.at_1000 Samples.tomorrow
                            Samples.busy))) in
  let st3 := snd (cancelReminderNotification working_platform "r1" st2) in
  scheduledNotifications st3 !! "r1" = None
  /\ ~ In (CancelCall "notification-1") (calls st3)
  /\ In "notification-1" (map fst (pending (device st3))).
Proof.
  intros st2 st3.
  destruct (rescheduling_orphans_the_first_notification working_platform
              Samples.parse_millis Samples.at_1000 Samples.tomorrow Samples.busy
              2000 "notification-1" "notification-2"
              (mkPending 2
                 [("notification-0", reminder_request Samples.tomorrow (Some 2000%Z));
                  ("notification-1", reminder_request Samples.tomorrow (Some 2000%Z))])
              (mkPending 3
                 [("notification-0", reminder_request Samples.tomorrow (Some 2000%Z));
                  ("notification-1", reminder_request Samples.tomorrow (Some 2000%Z));
                  ("notification-2", reminder_request Samples.tomorrow (Some 2000%Z))])
              eq_refl eq_refl eq_refl eq_refl eq_refl eq_refl eq_refl
              ltac:(discriminate))
    as (_ & _ & Hnone & Hnever).
  split; [exact Hnone|]. split.
  - apply Hnever. intros [].
  - vm_compute. right. now left.
Defined.

(** On the working platform: a sync that fetched the two sample reminders
    maps only the one that is still due, whatever was mapped before. *)
Lemma sync_rebuilds_the_mapping_witness :
  snd (syncReminders working_platform Samples.parse_millis Samples.at_1000
         (SupabaseService.Resolved [Samples.tomorrow; Samples.yesterday])
         (set_map ∅ Samples.busy))
  = snd (syncReminders working_platform Samples.parse_millis Samples.at_1000
           (SupabaseService.Resolved [Samples.tomorrow; Samples.yesterday])
           Samples.busy)
  /\ scheduledNotifications
       (snd (syncReminders working_platform Samples.parse_millis Samples.at_1000
               (SupabaseService.Resolved [Samples.tomorrow; Samples.yesterday])
               Samples.busy))
     = {[ "r1" := "notification-1" ]}.
Proof.
  split; [|reflexivity].
  apply (sync_rebuilds_the_mapping working_platform Samples.parse_millis
           Samples.at_1000 [Samples.tomorrow; Samples.yesterday] Samples.busy ∅
           (mkPending 1 []) eq_refl).
Defined.

End NotificationServiceMoreFacts.

(** ** Deleting rows *)
Module DeleteFacts.
Import JsString Types Postgrest PostgrestMore Console SupabaseService.
Import SupabaseServiceMore.
Local Open Scope list_scope.

Lemma forget_contacts_same (gone : list string) (e : Enquiry) :
  id (forget_contacts gone e) = id e
  /\ company_id (forget_contacts gone e) = company_id e
  /\ status (forget_contacts gone e) = status e
  /\ product_interest (forget_contacts gone e) = product_interest e
  /\ estimated_value (forget_contacts gone e) = estimated_value e
  /\ enquiry_date (forget_contacts gone e) = enquiry_date e
  /\ next_follow_up (forget_contacts gone e) = next_follow_up e
  /\ notes (forget_contacts gone e) = notes e
  /\ owner (forget_contacts gone e) = owner e.
Proof.
  unfold forget_contacts. destruct (contact_id e) as [k|]; [|now repeat split].
  destruct (bool_decide (k ∈ gone)); now repeat split.
Qed.

Lemma forget_contacts_contact (gone : list string) (e : Enquiry) :
  contact_id (forget_contacts gone e)
  = match contact_id e with
    | Some k => if bool_decide (k ∈ gone) then None else Some k
    | None => None
    end.
Proof.
  unfold forget_contacts. destruct (contact_id e) as [k|] eqn:E; [|exact E].
  destruct (bool_decide (k ∈ gone)); [reflexivity | exact E].
Qed.

Lemma forget_contacts_kept (gone : list string) (e : Enquiry) (k : string) :
  contact_id (forget_contacts gone e) = Some k ->
  contact_id e = Some k /\ k ∉ gone.
Proof.
  rewrite forget_contacts_contact. destruct (contact_id e) as [k'|]; [|discriminate].
  destruct (bool_decide (k' ∈ gone)) eqn:E; [discriminate|].
  intros [= ->]. split; [reflexivity|]. now apply bool_decide_eq_false in E.
Qed.

Lemma delete_reminder_consistent (i : string) (d : Database) :
  consistent d -> consistent (delete_reminder i d).
Proof.
  intros (Hc & He & Hk & Hr). repeat split; simpl; try assumption.
  intros r Hin. apply list_elem_of_filter in Hin as [_ Hin]. now apply Hr.
Qed.

Lemma delete_enquiry_consistent (i : string) (d : Database) :
  consistent d -> consistent (delete_enquiry i d).
Proof.
  intros (Hc & He & Hk & Hr). repeat split; simpl; try assumption.
  - intros e Hin. apply list_elem_of_filter in Hin as [_ Hin]. now apply He.
  - intros e k Hin. apply list_elem_of_filter in Hin as [_ Hin]. now apply Hk.
  - intros r Hin. apply list_elem_of_filter in Hin as [Hne Hin].
    destruct (Hr r Hin) as (e & Hein & Heq). exists e. split; [|exact Heq].
    apply list_elem_of_filter. split; [congruence | exact Hein].
Qed.

Lemma delete_contact_consistent (i : string) (d : Database) :
  consistent d -> consistent (delete_contact i d).
Proof.
  intros (Hc & He & Hk & Hr). repeat split; simpl.
  - intros c Hin. apply list_elem_of_filter in Hin as [_ Hin]. now apply Hc.
  - intros e' Hin. apply list_elem_of_fmap in Hin as (e & -> & Hin).
    destruct (forget_contacts_same [i] e) as (_ & -> & _). now apply He.
  - intros e' k Hin Hk'. apply list_elem_of_fmap in Hin as (e & -> & Hin).
    apply forget_contacts_kept in Hk' as [Hk' Hgone].
    destruct (Hk e k Hin Hk') as (c & Hcin & Hcid). exists c. split; [|exact Hcid].
    apply list_elem_of_filter. split; [|exact Hcin].
    intros Heq. apply Hgone. rewrite <- Hcid, Heq. now left.
  - intros r Hin. destruct (Hr r Hin) as (e & Hein & Heq).
    exists (forget_contacts [i] e). split.
    + apply list_elem_of_fmap. now exists e.
    + destruct (forget_contacts_same [i] e) as (-> & _). exact Heq.
Qed.

Lemma delete_company_consistent (i : string) (d : Database) :
  consistent d -> consistent (delete_company i d).
Proof.
  intros (Hc & He & Hk & Hr). repeat split; simpl.
  - intros c Hin. apply list_elem_of_filter in Hin as [Hne Hin].
    destruct (Hc c Hin) as (p & Hp & Hpid). exists p. split; [|exact Hpid].
    apply list_elem_of_filter. split; [congruence | exact Hp].
  - intros e' Hin. apply list_elem_of_fmap in Hin as (e & -> & Hin).
    apply list_elem_of_filter in Hin as [Hne Hin].
    destruct (forget_contacts_same
                (map contact_id_ (filter (fun c => contact_company_id c = i) (contacts d)))
                e) as (_ & -> & _).
    destruct (He e Hin) as (p & Hp & Hpid). exists p. split; [|exact Hpid].
    apply list_elem_of_filter. split; [congruence | exact Hp].
  - intros e' k Hin Hk'. apply list_elem_of_fmap in Hin as (e & -> & Hin).
    apply list_elem_of_filter in Hin as [Hne Hin].
    apply forget_contacts_kept in Hk' as [Hk' Hgone].
    destruct (Hk e k Hin Hk') as (c & Hcin & Hcid). exists c. split; [|exact Hcid].
    apply list_elem_of_filter. split; [|exact Hcin].
    intros Hco. apply Hgone. apply list_elem_of_fmap. exists c.
    split; [now symmetry|]. apply list_elem_of_filter. now split.
  - intros r Hin. apply list_elem_of_filter in Hin as [Hgone Hin].
    destruct (Hr r Hin) as (e & Hein & Heq).
    exists (forget_contacts
              (map contact_id_ (filter (fun c => contact_company_id c = i) (contacts d)))
              e).
    split.
    + apply list_elem_of_fmap. exists e. split; [reflexivity|].
      apply list_elem_of_filter. split; [|exact Hein].
      intros Hco. apply Hgone. apply list_elem_of_fmap. exists e.
      split; [now symmetry|]. apply list_elem_of_filter. now split.
    + destruct (forget_contacts_same
                  (map contact_id_
                     (filter (fun c => contact_company_id c = i) (contacts d)))
                  e) as (-> & _).
      exact Heq.
Qed.

Section Service.

Variable rejects_more : MoreRequest -> option PostgrestError.

(** What a delete method does, by the backend's answer. *)
Lemma delete_accepted (r : MoreRequest) (f : Database -> Database) (t : string)
    (w : World) :
  rejects_more r = None ->
  try_catch (error ← delete_request rejects_more r f; throw_if_error error)
            (log_and_rethrow t) w
  = (Resolved tt,
     mkWorld (mkServer (f (db (server w))) (rejects (server w))) (console w)).
Proof.
  intros H. unfold try_catch, mbind, Async_bind, bind, delete_request.
  now rewrite H.
Qed.

Lemma delete_rejected (r : MoreRequest) (f : Database -> Database) (t : string)
    (w : World) (e : PostgrestError) :
  rejects_more r = Some e ->
  try_catch (error ← delete_request rejects_more r f; throw_if_error error)
            (log_and_rethrow t) w
  = (Rejected e,
     mkWorld (server w) (console w ++ [mkLog level_error t (Some (error_message e))])).
Proof.
  intros H. unfold try_catch, mbind, Async_bind, bind, delete_request.
  now rewrite H.
Qed.

Lemma delete_db (r : MoreRequest) (f : Database -> Database) (t : string) (w : World) :
  let w' := snd (try_catch (error ← delete_request rejects_more r f;
                            throw_if_error error)
                           (log_and_rethrow t) w) in
  db (server w') = db (server w) \/ db (server w') = f (db (server w)).
Proof.
  destruct (rejects_more r) as [e|] eqn:E.
  - rewrite (delete_rejected r f t w e E). now left.
  - rewrite (delete_accepted r f t w E). now right.
Qed.

(** X18. The four delete operations keep the references of the tables
    intact: if every contact and enquiry has its company, every enquiry
    its contact (when it names one) and every reminder its enquiry before
    a delete, they have them after it - whether the backend performs the
    delete or rejects it. *)
Theorem deletes_keep_references_intact (i : string) (w : World) :
  consistent (db (server w)) ->
  consistent (db (server (snd (deleteCompany rejects_more i w))))
  /\ consistent (db (server (snd (deleteContact rejects_more i w))))
  /\ consistent (db (server (snd (deleteEnquiry rejects_more i w))))
  /\ consistent (db (server (snd (deleteReminder rejects_more i w)))).
Proof.
  intros H. split; [|split; [|split]].
  - destruct (delete_db (DeleteCompany i) (delete_company i)
                "Error deleting company:" w) as [Hd|Hd];
      unfold deleteCompany; rewrite Hd;
      [exact H | now apply delete_company_consistent].
  - destruct (delete_db (DeleteContact i) (delete_contact i)
                "Error deleting contact:" w) as [Hd|Hd];
      unfold deleteContact; rewrite Hd;
      [exact H | now apply delete_contact_consistent].
  - destruct (delete_db (DeleteEnquiry i) (delete_enquiry i)
                "Error deleting enquiry:" w) as [Hd|Hd];
      unfold deleteEnquiry; rewrite Hd;
      [exact H | now apply delete_enquiry_consistent].
  - destruct (delete_db (DeleteReminder i) (delete_reminder i)
                "Error deleting reminder:" w) as [Hd|Hd];
      unfold deleteReminder; rewrite Hd;
      [exact H | now apply delete_reminder_consistent].
Qed.

(** X19. Deleting a contact the backend accepts removes the contact and
    keeps every enquiry: the enquiries that named the contact name none
    afterwards, all other fields of every enquiry are as before, and the
    companies and reminders are untouched. *)
Theorem deleteContact_keeps_enquiries (i : string) (w : World) :
  rejects_more (DeleteContact i) = None ->
  let w' := snd (deleteContact rejects_more i w) in
  fst (deleteContact rejects_more i w) = Resolved tt
  /\ (forall c, c ∈ contacts (db (server w')) -> contact_id_ c <> i)
  /\ length (enquiries (db (server w'))) = length (enquiries (db (server w)))
  /\ Forall2 (fun old new =>
        new = (if bool_decide (contact_id old = Some i)
               then without_contact old else old))
       (enquiries (db (server w))) (enquiries (db (server w')))
  /\ companies (db (server w')) = companies (db (server w))
  /\ reminders (db (server w')) = reminders (db (server w)).
Proof.
  intros Hacc w'. subst w'. unfold deleteContact.
  rewrite (delete_accepted _ _ _ w Hacc). simpl. repeat split.
  - intros c Hin. now apply list_elem_of_filter in Hin as [Hne _].
  - apply length_map.
  - induction (enquiries (db (server w))) as [|e l IH]; [constructor|].
    rewrite map_cons. constructor; [|exact IH].
    unfold forget_contacts. destruct (contact_id e) as [k|]; cbv beta iota.
    + destruct (decide (k = i)) as [->|Hne].
      * rewrite bool_decide_eq_true_2 by now left.
        now rewrite bool_decide_eq_true_2.
      * rewrite bool_decide_eq_false_2
          by (intros Hin; apply list_elem_of_singleton in Hin; contradiction).
        rewrite bool_decide_eq_false_2 by congruence. reflexivity.
    + now rewrite bool_decide_eq_false_2.
Qed.

End Service.

(** On the sample tables: deleting the contact k1 leaves both enquiries,
    the first without contact. *)
Lemma deleteContact_keeps_enquiries_witness :
  enquiries (db (server (snd (deleteContact MoreSamples.accepts_more "k1" Samples.online))))
  = [without_contact Samples.pumps; Samples.valves]
  /\ length (enquiries (db (server (snd (deleteContact MoreSamples.accepts_more "k1"
                                            Samples.online)))))
     = 2.
Proof.
  split; [reflexivity|].
  destruct (deleteContact_keeps_enquiries MoreSamples.accepts_more "k1" Samples.online
              eq_refl) as (_ & _ & Hlen & _).
  exact Hlen.
Defined.

End DeleteFacts.

(** ** Listing by company, the dashboard summary *)
Module SupabaseServiceMoreFacts.
Import JsString Types Postgrest PostgrestMore Console SupabaseService.
Import SupabaseServiceMore.
Local Open Scope list_scope.

Lemma tidy_consistent : consistent MoreSamples.tidy_tables.
Proof.
  repeat split; simpl.
  - intros c Hin. apply list_elem_of_singleton in Hin as ->.
    exists Samples.acme. split; [now left | reflexivity].
  - intros e Hin. apply list_elem_of_singleton in Hin as ->.
    exists Samples.acme. split; [now left | reflexivity].
  - intros e k Hin Hk. apply list_elem_of_singleton in Hin as ->.
    injection Hk as <-. exists Samples.rao. split; [now left | reflexivity].
  - intros r Hin. inversion Hin.
Qed.

(** Deleting the one company of the tidy sample tables leaves tables whose
    references are intact (they are empty). *)
Lemma deletes_keep_references_intact_witness :
  consistent (db (server (snd (deleteCompany MoreSamples.accepts_more "c1"
                                 MoreSamples.tidy))))
  /\ enquiries (db (server (snd (deleteCompany MoreSamples.accepts_more "c1"
                                   MoreSamples.tidy))))
     = [].
Proof.
  split; [|reflexivity].
  apply (DeleteFacts.deletes_keep_references_intact MoreSamples.accepts_more "c1"
           MoreSamples.tidy tidy_consistent).
Defined.

Section Service.

Variable rejects_more : MoreRequest -> option PostgrestError.

Lemma only_company_satisfies (c : string) (e : Enquiry) :
  c <> "" -> (satisfies (Some (only_company c)) e = true <-> company_id e = c).
Proof.
  intros Hne. unfold satisfies, only_company. simpl.
  destruct c; [contradiction|]. simpl. apply bool_decide_eq_true.
Qed.

(** X20. [getEnquiriesByCompanyId] asks for no range: on a backend that
    answers it resolves to every enquiry of the company, newest first. The
    general listing with the company as its only filter (a company id that
    is not empty) and a positive limit resolves to [limit] of them, or to
    as many as there are, also newest first; when no two enquiries of the
    company share an enquiry date, these are the first [limit] of the
    unlimited listing. *)
Theorem listing_by_company (companyId : string) (limit : Z) (w : World) :
  companyId <> "" ->
  (0 < limit)%Z ->
  (forall r, rejects (server w) r = None) ->
  rejects_more (SelectEnquiriesOfCompany companyId) = None ->
  exists all page,
    getEnquiriesByCompanyId rejects_more companyId w = (Resolved all, w)
    /\ fst (getEnquiries (Some (only_company companyId)) limit 0 w) = Resolved page
    /\ (forall e, e ∈ enquiries (db (server w)) -> company_id e = companyId ->
          with_relations (db (server w)) e ∈ all)
    /\ Forall (fun r => company_id (base r) = companyId) all
    /\ newest_first (map base all)
    /\ length page = Nat.min (Z.to_nat limit) (length all)
    /\ (forall r, r ∈ page -> r ∈ all)
    /\ newest_first (map base page)
    /\ (NoDup (map enquiry_date
                 (filter (fun e => company_id e = companyId)
                         (enquiries (db (server w))))) ->
        page = take (Z.to_nat limit) all).
Proof.
  intros Hne Hl Hacc Hmore.
  set (rows := order_desc (filter (fun e => company_id e = companyId)
                                  (enquiries (db (server w))))).
  assert (Hpage : fst (getEnquiries (Some (only_company companyId)) limit 0 w)
                  = Resolved (take (Z.to_nat limit)
                                (map (with_relations (db (server w))) rows))).
  { rewrite ExportQueryFacts.getEnquiries_accepted by apply Hacc. simpl.
    f_equal. unfold range. rewrite drop_0.
    replace (Z.to_nat (0 + limit - 1 - 0 + 1)) with (Z.to_nat limit) by lia.
    rewrite <- fmap_take. do 3 f_equal.
    apply GetEnquiriesFacts.filter_all. intros e.
    now apply only_company_satisfies. }
  exists (map (with_relations (db (server w))) rows),
         (take (Z.to_nat limit) (map (with_relations (db (server w))) rows)).
  split; [|split; [exact Hpage|]].
  { unfold getEnquiriesByCompanyId, try_catch. now rewrite Hmore. }
  split; [|split; [|split; [|split; [|split; [|split]]]]].
  - intros e Hin Hc. apply list_elem_of_fmap. exists e. split; [reflexivity|].
    subst rows. rewrite ExportQueryFacts.order_desc_perm.
    apply list_elem_of_filter. now split.
  - apply Forall_forall. intros r Hin.
    apply list_elem_of_fmap in Hin as (e & -> & Hin).
    subst rows. rewrite ExportQueryFacts.order_desc_perm in Hin.
    now apply list_elem_of_filter in Hin as [Hc _].
  - rewrite GetEnquiriesFacts.base_with_relations.
    apply ExportQueryFacts.order_desc_sorted.
  - apply length_take.
  - intros r. apply (sublist_subseteq _ _ (sublist_take _ _)).
  - rewrite <- fmap_take, GetEnquiriesFacts.base_with_relations.
    apply GetEnquiriesFacts.newest_first_take, ExportQueryFacts.order_desc_sorted.
  - reflexivity.
Qed.

Lemma count_status_partition (rows : list Enquiry) :
  count_status st_new rows + count_status st_in_progress rows
  + count_status st_quoted rows + count_status st_won rows
  + count_status st_lost rows + count_status st_on_hold rows
  = length rows.
Proof.
  unfold count_status. induction rows as [|e rows IH]; [reflexivity|].
  simpl. destruct (status e); simpl; lia.
Qed.

(** X21. [getDashboardSummary] fails only with its first query. When that
    query is answered the summary resolves, the world is unchanged, the
    six status counts add up to the total number of enquiries, and the
    number of upcoming follow-ups is the number of enquiries with a
    follow-up date inside the two bounds - or 0 when the second query is
    rejected, which is not reported as an error. *)
Theorem dashboard_summary_counts (today weekAhead : string) (w : World) :
  (forall error, rejects_more SelectStatusAndValue = Some error ->
     fst (getDashboardSummary rejects_more today weekAhead w) = Rejected error)
  /\ (rejects_more SelectStatusAndValue = None ->
      exists summary,
        getDashboardSummary rejects_more today weekAhead w = (Resolved summary, w)
        /\ total_enquiries summary = length (enquiries (db (server w)))
        /\ new_count summary + in_progress_count summary + quoted_count summary
           + won_count summary + lost_count summary + on_hold_count summary
           = total_enquiries summary
        /\ total_estimated_value summary = sum_values (enquiries (db (server w)))
        /\ upcoming_followups summary
           = match rejects_more (SelectFollowUps today weekAhead) with
             | Some _ => 0
             | None => length (List.filter (follow_up_between today weekAhead)
                                           (enquiries (db (server w))))
             end).
Proof.
  split.
  - intros error H. unfold getDashboardSummary, try_catch. now rewrite H.
  - intros H. unfold getDashboardSummary, try_catch. rewrite H.
    destruct (rejects_more (SelectFollowUps today weekAhead)); simpl;
      eexists; (split; [reflexivity|]); simpl;
      repeat split; apply count_status_partition.
Qed.

End Service.

Lemma listing_by_company_witness :
  fst (getEnquiriesByCompanyId MoreSamples.accepts_more "c1" Samples.online)
  = Resolved [with_relations Samples.tables Samples.pumps]
  /\ fst (getEnquiries (Some (only_company "c1")) 20 0 Samples.online)
     = Resolved [with_relations Samples.tables Samples.pumps].
Proof.
  destruct (listing_by_company MoreSamples.accepts_more "c1" 20 Samples.online)
    as (all & page & Hall & Hpage & _); try reflexivity; [discriminate|].
  rewrite Hpage. injection Hall as <-. injection Hpage as <-. split; reflexivity.
Defined.

(** The sample backend: two enquiries, one new and one quoted; the
    follow-up of the first falls into the week. *)
Lemma dashboard_summary_counts_witness :
  fst (getDashboardSummary MoreSamples.accepts_more "2024-03-10" "2024-03-17"
         Samples.online)
  = Resolved (mkSummary 2 1 0 1 0 0 0 1 12000).
Proof.
  destruct (proj2 (dashboard_summary_counts MoreSamples.accepts_more
                     "2024-03-10" "2024-03-17" Samples.online) eq_refl)
    as (summary & Hrun & _).
  rewrite Hrun. simpl. injection Hrun as <-. reflexivity.
Defined.

End SupabaseServiceMoreFacts.

(** ** Completing and deleting a reminder from the detail screen *)
Module ReminderHandlersFacts.
Import JsString Types Postgrest PostgrestMore Console SupabaseService.
Import SupabaseServiceMore NotificationService NotificationServiceMore.
Import ReminderHandlers.
Local Open Scope list_scope.

Section Screen.

Context {P : Type}.
Variable platform : Platform P.
Variable rejects_more : MoreRequest -> option PostgrestError.

Abbreviation complete := (handleCompleteReminder platform rejects_more).
Abbreviation delete_confirmed := (handleDeleteReminder_confirmed platform rejects_more).

(** Cancelling under the invariant of the service. *)
Lemma cancel_summary (reminderId : string) (ns : State P) :
  handles_nonempty ns ->
  scheduledNotifications (snd (cancelReminderNotification platform reminderId ns))
    !! reminderId = None
  /\ calls (snd (cancelReminderNotification platform reminderId ns))
     = calls ns ++ match scheduledNotifications ns !! reminderId with
                   | Some h => [CancelCall h]
                   | None => []
                   end.
Proof.
  intros Hns. destruct (scheduledNotifications ns !! reminderId) as [h|] eqn:E.
  - assert (Hh : truthy h = true) by exact (map_Forall_lookup_1 _ _ _ _ Hns E).
    destruct (NotificationServiceFacts.cancel_mapped platform reminderId h ns E Hh)
      as [Hm Hc].
    split; [rewrite Hm; apply lookup_delete_eq | exact Hc].
  - unfold cancelReminderNotification. rewrite E. simpl.
    now rewrite app_nil_r.
Qed.

Lemma updateReminder_rejected (i : string) (u : PartialReminder) (w : World)
    (err : PostgrestError) :
  fst (update_reminder rejects_more (server w) i u) = Failure err ->
  updateReminder rejects_more i u w
  = (Rejected err,
     mkWorld (server w)
       (SupabaseService.console w
        ++ [mkLog level_error "Error updating reminder:" (Some (error_message err))])).
Proof.
  unfold updateReminder, try_catch, mbind, Async_bind, bind, mutation, update_reminder.
  destruct (rejects_more (UpdateReminder i u)) as [e|]; simpl.
  - now intros [= ->].
  - destruct (filter _ (reminders (db (server w)))) as [|x [|y l]]; simpl;
      try discriminate; now intros [= <-].
Qed.

Lemma updateReminder_accepted (i : string) (u : PartialReminder) (w : World)
    (r : Reminder) :
  rejects_more (UpdateReminder i u) = None ->
  filter (fun x => reminder_id x = i) (reminders (db (server w))) = [r] ->
  updateReminder rejects_more i u w
  = (Resolved (apply_reminder_updates u r),
     mkWorld (mkServer (update_reminder_rows i u (db (server w))) (rejects (server w)))
             (SupabaseService.console w)).
Proof.
  intros Hacc Hr.
  unfold updateReminder, try_catch, mbind, Async_bind, bind, mutation, update_reminder.
  now rewrite Hacc, Hr.
Qed.

Lemma completed_rows (i : string) (l : list Reminder) :
  filter (fun x => reminder_id x = i)
         (map (fun r => if bool_decide (reminder_id r = i)
                        then apply_reminder_updates completed r else r) l)
  = map mark_completed (filter (fun x => reminder_id x = i) l).
Proof.
  induction l as [|x l IH]; [reflexivity|].
  rewrite map_cons, !filter_cons.
  destruct (decide (reminder_id x = i)) as [Hx|Hx].
  - rewrite (bool_decide_eq_true_2 _ Hx). simpl.
    rewrite decide_True by exact Hx. simpl. now rewrite IH.
  - rewrite (bool_decide_eq_false_2 _ Hx).
    rewrite decide_False by exact Hx. exact IH.
Qed.

(** X22. Completing a reminder cancels its notification only once the
    backend has stored the completion. When the update is rejected (or the
    reminder is not there), the notification service is untouched - no
    call into the platform, the mapping as it was - and the screen and the
    tables stay as they were. When it is stored, the stored reminder is
    completed, the mapping has no entry for it, the platform was asked to
    cancel exactly when an entry existed, and every reminder of that id on
    the screen is completed. *)
Theorem completion_cancels_after_storing (reminderId : string) (sc : Screen P) :
  handles_nonempty (notifications sc) ->
  (forall err,
     fst (update_reminder rejects_more (server (world sc)) reminderId completed)
       = Failure err ->
     notifications (complete reminderId sc) = notifications sc
     /\ reminders_shown (complete reminderId sc) = reminders_shown sc
     /\ server (world (complete reminderId sc)) = server (world sc))
  /\ (forall r,
        rejects_more (UpdateReminder reminderId completed) = None ->
        filter (fun x => reminder_id x = reminderId)
               (reminders (db (server (world sc)))) = [r] ->
        filter (fun x => reminder_id x = reminderId)
               (reminders (db (server (world (complete reminderId sc)))))
          = [mark_completed r]
        /\ scheduledNotifications (notifications (complete reminderId sc))
             !! reminderId = None
        /\ calls (notifications (complete reminderId sc))
           = calls (notifications sc)
             ++ match scheduledNotifications (notifications sc) !! reminderId with
                | Some h => [CancelCall h]
                | None => []
                end
        /\ Forall (fun x => reminder_id x = reminderId -> is_completed x = true)
                  (reminders_shown (complete reminderId sc))).
Proof.
  intros Hns. split.
  - intros err Hfail. unfold handleCompleteReminder.
    rewrite (updateReminder_rejected _ _ _ _ Hfail). now repeat split.
  - intros r Hacc Hr. unfold handleCompleteReminder.
    rewrite (updateReminder_accepted _ _ _ r Hacc Hr).
    destruct (cancel_summary reminderId (notifications sc) Hns) as [Hm Hc].
    destruct (cancelReminderNotification platform reminderId (notifications sc))
      as [u ns'] eqn:E. simpl in *.
    split; [|split; [exact Hm | split; [exact Hc|]]].
    + rewrite completed_rows, Hr. reflexivity.
    + apply Forall_forall. intros x Hin.
      apply list_elem_of_fmap in Hin as (y & -> & _).
      destruct (decide (reminder_id y = reminderId)) as [Hy|Hy].
      * rewrite (bool_decide_eq_true_2 _ Hy). reflexivity.
      * rewrite (bool_decide_eq_false_2 _ Hy). intros; contradiction.
Qed.

(** X23. Deleting a reminder does the same in its order: a rejected delete
    leaves the notification service, the screen and the tables untouched;
    an accepted one removes the reminder from the tables and from the
    screen, leaves no entry for it in the mapping, and asks the platform
    to cancel exactly when an entry existed. *)
Theorem deletion_cancels_after_deleting (reminderId : string) (sc : Screen P) :
  handles_nonempty (notifications sc) ->
  (forall err,
     rejects_more (DeleteReminder reminderId) = Some err ->
     notifications (delete_confirmed reminderId sc) = notifications sc
     /\ reminders_shown (delete_confirmed reminderId sc) = reminders_shown sc
     /\ server (world (delete_confirmed reminderId sc)) = server (world sc))
  /\ (rejects_more (DeleteReminder reminderId) = None ->
      (forall x, x ∈ reminders (db (server (world (delete_confirmed reminderId sc)))) ->
         reminder_id x <> reminderId)
      /\ (forall x, x ∈ reminders_shown (delete_confirmed reminderId sc) ->
            reminder_id x <> reminderId)
      /\ scheduledNotifications (notifications (delete_confirmed reminderId sc))
           !! reminderId = None
      /\ calls (notifications (delete_confirmed reminderId sc))
         = calls (notifications sc)
           ++ match scheduledNotifications (notifications sc) !! reminderId with
              | Some h => [CancelCall h]
              | None => []
              end).
Proof.
  intros Hns. split.
  - intros err Hrej. unfold handleDeleteReminder_confirmed, deleteReminder.
    rewrite (DeleteFacts.delete_rejected rejects_more _ _ _ _ err Hrej).
    now repeat split.
  - intros Hacc. unfold handleDeleteReminder_confirmed, deleteReminder.
    rewrite (DeleteFacts.delete_accepted rejects_more _ _ _ _ Hacc).
    destruct (cancel_summary reminderId (notifications sc) Hns) as [Hm Hc].
    destruct (cancelReminderNotification platform reminderId (notifications sc))
      as [u ns'] eqn:E. simpl in *.
    split; [|split; [|split; [exact Hm | exact Hc]]].
    + intros x Hin. now apply list_elem_of_filter in Hin as [Hne _].
    + intros x Hin. now apply list_elem_of_filter in Hin as [Hne _].
Qed.

End Screen.

(** The reminder r7 of the sample service, stored and shown; the backend
    unreachable in the second run. *)
Lemma completion_cancels_after_storing_witness :
  let r7 := mkReminder "r7" "e1" "2000" "Call Meera" "" false "1000" in
  let w := SupabaseService.mkWorld
             (mkServer (mkDb [Samples.acme] [Samples.rao] [Samples.pumps] [r7])
                       Samples.accepts_all) [] in
  let sc := mkScreen [r7] w Samples.busy in
  calls (notifications
           (handleCompleteReminder working_platform MoreSamples.accepts_more "r7" sc))
  = [CancelCall "notification-0"]
  /\ notifications
       (handleCompleteReminder working_platform MoreSamples.rejects_all_more "r7" sc)
     = Samples.busy.
Proof.
  intros r7 w sc.
  destruct (completion_cancels_after_storing working_platform
              MoreSamples.accepts_more "r7" sc
              NotificationServiceMoreFacts.busy_identifiers_nonempty)
    as [_ Hacc].
  destruct (completion_cancels_after_storing working_platform
              MoreSamples.rejects_all_more "r7" sc
              NotificationServiceMoreFacts.busy_identifiers_nonempty)
    as [Hrej _].
  split.
  - destruct (Hacc r7 eq_refl eq_refl) as (_ & _ & Hc & _). exact Hc.
  - destruct (Hrej Samples.network_error eq_refl) as (Hn & _). exact Hn.
Defined.

Lemma deletion_cancels_after_deleting_witness :
  let r7 := mkReminder "r7" "e1" "2000" "Call Meera" "" false "1000" in
  let w := SupabaseService.mkWorld
             (mkServer (mkDb [Samples.acme] [Samples.rao] [Samples.pumps] [r7])
                       Samples.accepts_all) [] in
  let sc := mkScreen [r7] w Samples.busy in
  reminders_shown
    (handleDeleteReminder_confirmed working_platform MoreSamples.accepts_more "r7" sc)
  = []
  /\ scheduledNotifications
       (notifications
          (handleDeleteReminder_confirmed working_platform MoreSamples.accepts_more
             "r7" sc))
       !! "r7" = None
  /\ notifications
       (handleDeleteReminder_confirmed working_platform MoreSamples.rejects_all_more
          "r7" sc)
     = Samples.busy.
Proof.
  intros r7 w sc.
  destruct (deletion_cancels_after_deleting working_platform
              MoreSamples.accepts_more "r7" sc
              NotificationServiceMoreFacts.busy_identifiers_nonempty)
    as [_ Hacc].
  destruct (deletion_cancels_after_deleting working_platform
              MoreSamples.rejects_all_more "r7" sc
              NotificationServiceMoreFacts.busy_identifiers_nonempty)
    as [Hrej _].
  split; [reflexivity|]. split.
  - destruct (Hacc eq_refl) as (_ & _ & Hm & _). exact Hm.
  - destruct (Hrej Samples.network_error eq_refl) as (Hn & _). exact Hn.
Defined.

End ReminderHandlersFacts.

(** ** Generating an email and taking it into the compose screen *)
Module AIEmailGenerationFacts.
Import JsString Types Console AIEmailService AIEmailGeneration.
#[local] Arguments String.append : simpl nomatch.
Local Open Scope list_scope.

Lemma trimEnd_idempotent (s : string) : trimEnd (trimEnd s) = trimEnd s.
Proof.
  induction s as [|c s IH]; [reflexivity|].
  simpl. destruct (trimEnd s) as [|a t] eqn:E.
  - destruct (is_white_space c) eqn:Ew; [reflexivity|].
    simpl. now rewrite Ew.
  - change (trimEnd (String c (String a t)))
      with (match trimEnd (String a t) with
            | EmptyString => if is_white_space c then EmptyString
                             else String c EmptyString
            | u => String c u
            end).
    now rewrite IH.
Qed.

Lemma trimEnd_head (c : ascii) (s : string) :
  is_white_space c = false -> exists u, trimEnd (String c s) = String c u.
Proof.
  intros Hc. simpl. destruct (trimEnd s) as [|a t].
  - rewrite Hc. now exists "".
  - now exists (String a t).
Qed.

Lemma trimStart_head (s : string) :
  trimStart s = ""
  \/ exists c u, trimStart s = String c u /\ is_white_space c = false.
Proof.
  induction s as [|c s IH]; [now left|].
  simpl. destruct (is_white_space c) eqn:Ec; [exact IH|].
  right. now exists c, s.
Qed.

Lemma trim_idempotent (s : string) : trim (trim s) = trim s.
Proof.
  unfold trim. destruct (trimStart_head s) as [->|(c & u & -> & Hc)]; [reflexivity|].
  destruct (trimEnd_head c u Hc) as [v Hv].
  rewrite Hv. simpl trimStart. rewrite Hc, <- Hv.
  apply trimEnd_idempotent.
Qed.

Lemma strip_end_snoc (s : string) (q : ascii) :
  is_quote q = true -> strip_end (s +:+ String q "") = s.
Proof.
  intros Hq. induction s as [|c s IH].
  - simpl. now rewrite Hq.
  - change (String c s +:+ String q "") with (String c (s +:+ String q "")).
    destruct s as [|d s]; simpl in *; [now rewrite Hq|].
    now rewrite IH.
Qed.

Lemma strip_end_keeps (s : string) :
  (forall t c, s = t +:+ String c "" -> is_quote c = false) -> strip_end s = s.
Proof.
  induction s as [|c s IH]; intros H; [reflexivity|].
  destruct s as [|d s].
  - simpl. now rewrite (H "" c eq_refl).
  - change (strip_end (String c (String d s)))
      with (String c (strip_end (String d s))).
    rewrite IH; [reflexivity|].
    intros t e Ht. apply (H (String c t) e). simpl. now rewrite Ht.
Qed.

Lemma strip_end_length (s : string) :
  String.length s - 1 <= String.length (strip_end s) <= String.length s.
Proof.
  induction s as [|c s IH]; [simpl; lia|].
  destruct s as [|d s].
  - simpl. destruct (is_quote c); simpl; lia.
  - change (strip_end (String c (String d s)))
      with (String c (strip_end (String d s))).
    simpl String.length in *. lia.
Qed.

(** X24. The quotes a subject line is stripped of: one at the start and one
    at the end, no more. A subject wrapped in quotes comes out as what was
    between them, whatever that is (so of a subject wrapped twice the inner
    pair stays); a subject with no quote at either end is kept as it is;
    and at most two characters are ever removed. *)
Theorem strip_quotes_unwraps_once :
  (forall (q q' : ascii) (s : string),
     is_quote q = true -> is_quote q' = true ->
     strip_quotes (String q (s +:+ String q' "")) = s)
  /\ (forall s : string,
        (forall c t, s = String c t -> is_quote c = false) ->
        (forall t c, s = t +:+ String c "" -> is_quote c = false) ->
        strip_quotes s = s)
  /\ (forall s : string,
        String.length s - 2 <= String.length (strip_quotes s) <= String.length s).
Proof.
  split; [|split].
  - intros q q' s Hq Hq'. unfold strip_quotes. rewrite Hq.
    now apply strip_end_snoc.
  - intros [|c s] Hstart Hend; [reflexivity|].
    unfold strip_quotes. rewrite (Hstart c s eq_refl).
    destruct s as [|d s]; [reflexivity|].
    rewrite strip_end_keeps; [reflexivity|].
    intros t e Ht. apply (Hend (String c t) e). simpl. now rewrite Ht.
  - intros [|c s]; [simpl; lia|].
    unfold strip_quotes. pose proof (strip_end_length s) as H.
    destruct (is_quote c); simpl String.length; lia.
Qed.

Lemma strip_quotes_unwraps_once_witness :
  strip_quotes "'Pumps for Acme'" = "Pumps for Acme"
  /\ strip_quotes "Pumps for Acme" = "Pumps for Acme".
Proof.
  destruct strip_quotes_unwraps_once as (Hwrapped & Hbare & _). split.
  - apply (Hwrapped "'"%char "'"%char "Pumps for Acme"); reflexivity.
  - apply (Hbare "Pumps for Acme").
    + intros c t [= <- _]. reflexivity.
    + intros t c Ht.
      assert (Hlast : forall a b, a +:+ String c "" = b ->
                String.get (String.length b - 1) b = Some c).
      { intros a b <-. induction a as [|x a IH]; [reflexivity|].
        simpl String.append. destruct a as [|y a]; [reflexivity|].
        simpl in *. rewrite Nat.sub_0_r in IH. exact IH. }
      specialize (Hlast t _ (eq_sym Ht)). simpl in Hlast.
      injection Hlast as <-. reflexivity.
Defined.

Section Generation.

Variable apiKey : string.
Variable prompt : EmailTemplateType -> PromptContext -> string.
Variable model : nat -> string -> Answer.

Abbreviation generate := (generateEmail apiKey prompt model).

Lemma generateEmail_try_prompts (context : EmailGenerationContext) (sv : Service) :
  exists more,
    prompts_sent (snd (generateEmail_try apiKey prompt model context sv))
      = prompts_sent sv ++ more
    /\ length more <= 2
    /\ (truthy apiKey = false -> more = [])
    /\ AIEmailGeneration.console (snd (generateEmail_try apiKey prompt model context sv))
       = AIEmailGeneration.console sv
    /\ forall e, fst (generateEmail_try apiKey prompt model context sv) = Resolves e ->
         truthy apiKey = true
         /\ more = [prompt (template_type context)
                      (mkPromptContext (ctx_company_name context)
                         (ctx_contact_name context) (ctx_product_interest context)
                         (ctx_estimated_value context)
                         (if truthy_number (ctx_estimated_value context)
                          then None else Some 7%Z));
                    generateSubjectPrompt (template_type context)
                      (ctx_company_name context)]
         /\ trim (body e) = body e.
Proof.
  unfold generateEmail_try, generateContent.
  destruct (truthy apiKey) eqn:Ek; simpl.
  - match goal with |- context [model ?n ?p] => destruct (model n p) as [t1|m1] end;
      simpl.
    + match goal with |- context [model ?n ?p] => destruct (model n p) as [t2|m2] end;
        simpl.
      * eexists. rewrite <- app_assoc. split; [reflexivity|]. simpl.
        split; [lia|]. split; [discriminate|]. split; [reflexivity|].
        intros e [= <-]. simpl. split; [reflexivity|]. split; [reflexivity|].
        apply trim_idempotent.
      * eexists. rewrite <- app_assoc. split; [reflexivity|]. simpl.
        split; [lia|]. split; [discriminate|]. split; [reflexivity|]. discriminate.
    + eexists. split; [reflexivity|]. simpl.
      split; [lia|]. split; [discriminate|]. split; [reflexivity|]. discriminate.
  - exists []. rewrite app_nil_r. split; [reflexivity|]. simpl.
    split; [lia|]. split; [reflexivity|]. split; [reflexivity|]. discriminate.
Qed.

(** X25. What a call of [generateEmail] does. It sends the model at most
    two prompts, and none when no API key is configured. When it resolves,
    a key is configured, exactly the body prompt and then the subject prompt
    were sent, nothing was logged, and the body has no white space at
    either end. When it rejects, the message is that of the cause behind
    [Failed to generate email: ], and the cause is logged once. *)
Theorem generateEmail_outcome (context : EmailGenerationContext) (sv : Service) :
  (exists more,
     prompts_sent (snd (generate context sv)) = prompts_sent sv ++ more
     /\ length more <= 2
     /\ (truthy apiKey = false -> more = [])
     /\ forall e, fst (generate context sv) = Resolves e ->
          more = [prompt (template_type context)
                    (mkPromptContext (ctx_company_name context)
                       (ctx_contact_name context) (ctx_product_interest context)
                       (ctx_estimated_value context)
                       (if truthy_number (ctx_estimated_value context)
                        then None else Some 7%Z));
                  generateSubjectPrompt (template_type context)
                    (ctx_company_name context)])
  /\ match fst (generate context sv) with
     | Resolves e =>
         truthy apiKey = true
         /\ AIEmailGeneration.console (snd (generate context sv))
            = AIEmailGeneration.console sv
         /\ trim (body e) = body e
     | Rejects m =>
         exists cause,
           m = "Failed to generate email: " +:+ cause
           /\ AIEmailGeneration.console (snd (generate context sv))
              = AIEmailGeneration.console sv
                ++ [mkLog level_error "Error generating email:" (Some cause)]
     end.
Proof.
  destruct (generateEmail_try_prompts context sv)
    as (more & Hp & Hlen & Hkey & Hc & Hres).
  unfold generateEmail.
  destruct (generateEmail_try apiKey prompt model context sv) as [[e|m] sv'] eqn:E;
    simpl in *.
  - split.
    + exists more. repeat split; try assumption.
      intros e' [= <-]. now destruct (Hres e eq_refl) as (_ & -> & _).
    + destruct (Hres e eq_refl) as (Hk & _ & Ht). now repeat split.
  - split.
    + exists more. repeat split; try assumption. discriminate.
    + exists m. now rewrite Hc.
Qed.

End Generation.

End AIEmailGenerationFacts.

Module EmailComposeScreenFacts.
Import JsString Types Console AIEmailService AIEmailGeneration EmailComposeScreen.
#[local] Arguments String.append : simpl nomatch.
Local Open Scope list_scope.

Section Screen.

Variable apiKey : string.
Variable prompt : EmailTemplateType -> PromptContext -> string.
Variable model : nat -> string -> Answer.

Lemma accepted_body (content : string) :
  isValid (validateResponse content) = true ->
  50 <= String.length (trim content)
  /\ String.length content <= 5000
  /\ ~ contains_placeholder content.
Proof.
  rewrite AIEmailServiceFacts.validateResponse_cases.
  destruct (Nat.eqb _ 0); [discriminate|].
  destruct (Nat.ltb_spec (String.length (trim content)) 50); [discriminate|].
  destruct (Nat.ltb_spec 5000 (String.length content)); [discriminate|].
  destruct (any_pattern placeholderPatterns content) eqn:Ea; [discriminate|].
  intros _. split; [assumption|]. split; [assumption|].
  intros Hc. apply AIEmailServiceFacts.any_pattern_spec in Hc. congruence.
Qed.

(** X26. The compose screen takes a generated email only when it passes
    validation. After [handleGenerateEmail], in every case, the generating
    flag is off; and either the screen is in edit mode with no error and a
    body that [validateResponse] accepts - 50 to 5000 characters, no white
    space at either end, no bracket or brace opener with its closer later
    on the same line - or an error message is shown and subject, body and
    edit mode are what they were. *)
Theorem generated_body_is_validated (st : State) :
  let st' := handleGenerateEmail apiKey prompt model st in
  generating st' = false
  /\ ((error st' = None
       /\ editMode st' = true
       /\ isValid (validateResponse (emailBody st')) = true
       /\ 50 <= String.length (emailBody st') <= 5000
       /\ trim (emailBody st') = emailBody st'
       /\ ~ contains_placeholder (emailBody st'))
      \/ (exists m, error st' = Some m
          /\ emailSubject st' = emailSubject st
          /\ emailBody st' = emailBody st
          /\ editMode st' = editMode st)).
Proof.
  unfold handleGenerateEmail.
  destruct (company st) as [c|]; [|split; [reflexivity | right; eexists; now repeat split]].
  destruct (enquiry st) as [e|]; [|split; [reflexivity | right; eexists; now repeat split]].
  match goal with |- context [generateEmail _ _ _ ?ctx ?sv] =>
    pose proof (AIEmailGenerationFacts.generateEmail_try_prompts
                  apiKey prompt model ctx sv) as (more & _ & _ & _ & _ & Hres);
    unfold generateEmail;
    destruct (generateEmail_try apiKey prompt model ctx sv) as [[email|m] sv'] eqn:E
  end; cbv zeta.
  - destruct (isValid (validateResponse (body email))) eqn:Ev; cbn [negb].
    + split; [reflexivity|]. left. cbn [error editMode emailBody].
      destruct (accepted_body _ Ev) as (Hmin & Hmax & Hno).
      destruct (Hres email eq_refl) as (_ & _ & Ht).
      rewrite Ht in Hmin. now repeat split.
    + split; [reflexivity|]. right. eexists. now repeat split.
  - split; [reflexivity|]. right. eexists. now repeat split.
Qed.

End Screen.

End EmailComposeScreenFacts.

(** The sample model behind a configured key, and no key at all. *)
Module ComposeExamples.
Import JsString Types Console AIEmailService AIEmailGeneration EmailComposeScreen.
Import ComposeSamples.

Lemma generateEmail_outcome_witness :
  prompts_sent (snd (generateEmail "" sample_prompt scripted_model pumps_context
                       (mkService [] []))) = []
  /\ (exists cause,
        fst (generateEmail "" sample_prompt scripted_model pumps_context
               (mkService [] []))
        = Rejects ("Failed to generate email: " +:+ cause))
  /\ length (prompts_sent
               (snd (generateEmail "key" sample_prompt scripted_model pumps_context
                       (mkService [] [])))) <= 2.
Proof.
  destruct (AIEmailGenerationFacts.generateEmail_outcome "" sample_prompt
              scripted_model pumps_context (mkService [] []))
    as [(more & Hp & _ & Hk & _) Hm].
  destruct (AIEmailGenerationFacts.generateEmail_outcome "key" sample_prompt
              scripted_model pumps_context (mkService [] []))
    as [(more' & Hp' & Hlen & _) _].
  split; [|split].
  - rewrite Hp, (Hk eq_refl). reflexivity.
  - destruct (fst (generateEmail "" sample_prompt scripted_model pumps_context
                     (mkService [] []))) as [e|m].
    + destruct Hm as (Hkey & _). discriminate Hkey.
    + destruct Hm as (cause & -> & _). now exists cause.
  - rewrite Hp'. exact Hlen.
Defined.

Lemma generated_body_is_validated_witness :
  emailSubject (handleGenerateEmail "key" sample_prompt scripted_model compose_screen)
    = "Pumps for Acme"
  /\ isValid (validateResponse
                (emailBody (handleGenerateEmail "key" sample_prompt scripted_model
                              compose_screen))) = true
  /\ generating (handleGenerateEmail "key" sample_prompt scripted_model compose_screen)
     = false.
Proof.
  pose proof (EmailComposeScreenFacts.generated_body_is_validated "key" sample_prompt
                scripted_model compose_screen) as H.
  cbv zeta in H. destruct H as [Hg [(_ & _ & Hv & _)|(m & Hm & _)]].
  - split; [reflexivity|]. split; assumption.
  - vm_compute in Hm. discriminate Hm.
Defined.

End ComposeExamples.
